(** * sgp_parser: lexical function scanners and the Solidity parse front end

    A shallow embedding of [src/library/sgp/sgp_parser.py].  Python [str]
    values are Rocq [string]s (code points below 256), offsets are [nat],
    line numbers and counters are [Z], and a Python exception is the
    [Raise] outcome of the [result] monad. *)

From Stdlib Require Import String Ascii List ZArith NArith Lia Bool Arith.
From Stdlib Require Import DecimalString Sorted.
Import ListNotations.

Open Scope string_scope.
Open Scope Z_scope.

(** ** Exceptions *)

(** One entry of the error listener's list: the dictionary with the keys
    [message], [line] and [column]. *)
Record syntax_error : Type := {
  message : string;
  line : Z;
  column : Z
}.

(** The exceptions the module can end with.  [ParserError] carries its two
    attributes, [Exception] its argument; [OSError] stands for a failure of
    the file system, [CollaboratorError] for one raised inside an imported
    module. *)
Inductive exn : Type :=
| StopIteration
| UnboundLocalError (var : string)
| IndexError
| AttributeError
| TypeError
| OSError
| Exception (msg : string)
| ParserError (message : string) (errors : list syntax_error)
| CollaboratorError.

Inductive result (A : Type) : Type :=
| Ok (a : A)
| Raise (e : exn).

Arguments Ok {A} a.
Arguments Raise {A} e.

Definition bind {A B : Type} (r : result A) (f : A -> result B) : result B :=
  match r with
  | Ok a => f a
  | Raise e => Raise e
  end.

Notation "x <- c ;; k" := (bind c (fun x => k))
  (at level 61, c at next level, right associativity).

Definition of_option {A : Type} (o : option A) (e : exn) : result A :=
  match o with
  | Some a => Ok a
  | None => Raise e
  end.

(** ** Python string primitives *)

Module Py.

Definition NL : ascii := "010"%char.
Definition nl : string := String NL EmptyString.

Definition code (c : ascii) : N := N_of_ascii c.

Definition in_range (lo hi : N) (c : ascii) : bool :=
  (N.leb lo (code c) && N.leb (code c) hi)%bool.

(** [str.isspace] on one character, which is also the class [\s] of [re]. *)
Definition isspace (c : ascii) : bool :=
  (in_range 9 13 c || in_range 28 32 c
   || N.eqb (code c) 133 || N.eqb (code c) 160)%bool.

(** [str.isalnum] on one character. *)
Definition isalnum (c : ascii) : bool :=
  (in_range 48 57 c || in_range 65 90 c || in_range 97 122 c
   || N.eqb (code c) 170 || N.eqb (code c) 178 || N.eqb (code c) 179
   || N.eqb (code c) 181 || N.eqb (code c) 185 || N.eqb (code c) 186
   || in_range 188 190 c || in_range 192 214 c || in_range 216 246 c
   || in_range 248 255 c)%bool.

(** The class [\w] of [re]. *)
Definition isword (c : ascii) : bool :=
  (isalnum c || Ascii.eqb c "_")%bool.

(** [len(s)] *)
Definition len (s : string) : nat := String.length s.

(** [s[a:b]] for offsets [0 <= a], [0 <= b]. *)
Definition slice (a b : nat) (s : string) : string := substring a (b - a) s.

(** [s[a:]] *)
Fixpoint drop (a : nat) (s : string) : string :=
  match a, s with
  | O, _ => s
  | S a', EmptyString => EmptyString
  | S a', String _ s' => drop a' s'
  end.

(** [s.count(c)] for a one-character needle. *)
Fixpoint count (c : ascii) (s : string) : Z :=
  match s with
  | EmptyString => 0
  | String d s' => (if Ascii.eqb d c then 1 else 0) + count c s'
  end.

(** [s.split(c)] for a one-character separator: never the empty list. *)
Fixpoint split (c : ascii) (s : string) : list string :=
  match s with
  | EmptyString => [EmptyString]
  | String d s' =>
      if Ascii.eqb d c then EmptyString :: split c s'
      else match split c s' with
           | [] => [String d EmptyString]
           | w :: ws => String d w :: ws
           end
  end.

(** [sep.join(l)] *)
Definition join (sep : string) (l : list string) : string := String.concat sep l.

(** [s.lstrip()] *)
Fixpoint lstrip (s : string) : string :=
  match s with
  | EmptyString => EmptyString
  | String c s' => if isspace c then lstrip s' else s
  end.

(** [s.rstrip()] *)
Fixpoint rstrip (s : string) : string :=
  match s with
  | EmptyString => EmptyString
  | String c s' =>
      match rstrip s' with
      | EmptyString => if isspace c then EmptyString else String c EmptyString
      | r => String c r
      end
  end.

(** [s.strip()] *)
Definition strip (s : string) : string := rstrip (lstrip s).

(** [s.startswith(p)] *)
Fixpoint startswith (p s : string) : bool :=
  match p, s with
  | EmptyString, _ => true
  | String _ _, EmptyString => false
  | String a p', String b s' => (Ascii.eqb a b && startswith p' s')%bool
  end.

(** [p in s] *)
Fixpoint contains (p s : string) : bool :=
  (startswith p s ||
   match s with
   | EmptyString => false
   | String _ s' => contains p s'
   end)%bool.

(** [s.endswith(p)] *)
Fixpoint endswith (p s : string) : bool :=
  (String.eqb p s ||
   match s with
   | EmptyString => false
   | String _ s' => endswith p s'
   end)%bool.

(** [s.replace(old, new)] for a non-empty [old]: every occurrence, left to
    right, without overlap.  [fuel] bounds the recursion by the length. *)
Fixpoint replace_from (fuel : nat) (old new s : string) : string :=
  match fuel with
  | O => s
  | S fuel' =>
      match s with
      | EmptyString => EmptyString
      | String c s' =>
          if startswith old s
          then new ++ replace_from fuel' old new (drop (len old) s)
          else String c (replace_from fuel' old new s')
      end
  end.

Definition replace (old new s : string) : string :=
  replace_from (S (len s)) old new s.

(** [str(n)] for an [int]. *)
Definition str (n : Z) : string := NilZero.string_of_int (Z.to_int n).

(** [truthy(s)] for a [str]: the empty string is false. *)
Definition truthy (s : string) : bool :=
  match s with
  | EmptyString => false
  | String _ _ => true
  end.

End Py.

(** ** The backtracking matcher behind [re.finditer] and [re.search] *)

Module Re.

(** The pattern constructs the five head patterns use. *)
Inductive regex : Type :=
| Empty
| Class (p : ascii -> bool)
| Seq (r1 r2 : regex)
| Or (r1 r2 : regex)
| Star (greedy : bool) (r : regex)
| Group (n : nat) (r : regex)
| Boundary.

Definition Chr (c : ascii) : regex := Class (Ascii.eqb c).
Definition Not (c : ascii) : regex := Class (fun d => negb (Ascii.eqb c d)).
Definition Space : regex := Class Py.isspace.
Definition Word : regex := Class Py.isword.
Definition Dot : regex := Class (fun d => negb (Ascii.eqb d Py.NL)).
Definition Opt (r : regex) : regex := Or r Empty.
Definition Plus (r : regex) : regex := Seq r (Star true r).
Definition Many (r : regex) : regex := Star true r.
Definition Lazy (r : regex) : regex := Star false r.

Fixpoint Lit (s : string) : regex :=
  match s with
  | EmptyString => Empty
  | String c s' => Seq (Chr c) (Lit s')
  end.

Fixpoint Cat (rs : list regex) : regex :=
  match rs with
  | [] => Empty
  | r :: rs' => Seq r (Cat rs')
  end.

(** A position of the matcher: the offset, the character before it, the
    text from it on, and the groups closed so far (latest first). *)
Record cursor : Type := {
  pos : nat;
  prev : option ascii;
  rest : string;
  caps : list (nat * (nat * nat))
}.

Definition word_at (o : option ascii) : bool :=
  match o with
  | Some c => Py.isword c
  | None => false
  end.

Definition next_char (s : string) : option ascii :=
  match s with
  | EmptyString => None
  | String c _ => Some c
  end.

Definition at_boundary (cu : cursor) : bool :=
  xorb (word_at (prev cu)) (word_at (next_char (rest cu))).

(** [run r cu k]: the first way, in the order a backtracking matcher tries
    them, to match [r] at [cu] such that the continuation [k] succeeds. *)
Fixpoint run (r : regex) (cu : cursor) (k : cursor -> option cursor)
  : option cursor :=
  match r with
  | Empty => k cu
  | Class p =>
      match rest cu with
      | EmptyString => None
      | String c s' =>
          if p c
          then k {| pos := S (pos cu); prev := Some c; rest := s';
                    caps := caps cu |}
          else None
      end
  | Seq r1 r2 => run r1 cu (fun cu1 => run r2 cu1 k)
  | Or r1 r2 =>
      match run r1 cu k with
      | Some out => Some out
      | None => run r2 cu k
      end
  | Star greedy r1 =>
      (fix loop (fuel : nat) (cu0 : cursor) {struct fuel} : option cursor :=
         match fuel with
         | O => k cu0
         | S fuel' =>
             if greedy then
               match run r1 cu0 (fun cu1 =>
                       if Nat.eqb (pos cu1) (pos cu0) then None
                       else loop fuel' cu1) with
               | Some out => Some out
               | None => k cu0
               end
             else
               match k cu0 with
               | Some out => Some out
               | None =>
                   run r1 cu0 (fun cu1 =>
                     if Nat.eqb (pos cu1) (pos cu0) then None
                     else loop fuel' cu1)
               end
         end) (S (Py.len (rest cu))) cu
  | Group n r1 =>
      run r1 cu (fun cu1 =>
        k {| pos := pos cu1; prev := prev cu1; rest := rest cu1;
             caps := (n, (pos cu, pos cu1)) :: caps cu1 |})
  | Boundary => if at_boundary cu then k cu else None
  end.

(** A match object: [start()], [end()], the group spans and the subject. *)
Record match_ : Type := {
  m_start : nat;
  m_end : nat;
  m_caps : list (nat * (nat * nat));
  m_string : string
}.

Fixpoint span_of (n : nat) (cs : list (nat * (nat * nat))) : option (nat * nat) :=
  match cs with
  | [] => None
  | (i, sp) :: cs' => if Nat.eqb i n then Some sp else span_of n cs'
  end.

(** [m.group(n)]: [None] for a group that took no part in the match. *)
Definition group (n : nat) (m : match_) : option string :=
  match span_of n (m_caps m) with
  | Some (a, b) => Some (Py.slice a b (m_string m))
  | None => None
  end.

(** [pattern.match] anchored at one cursor. *)
Definition match_at (r : regex) (subject : string) (cu : cursor) : option match_ :=
  match run r cu (fun out => Some out) with
  | Some out =>
      Some {| m_start := pos cu; m_end := pos out; m_caps := caps out;
              m_string := subject |}
  | None => None
  end.

(** The leftmost match at or after the cursor. *)
Fixpoint search_from (r : regex) (subject : string) (p : nat)
  (pv : option ascii) (s : string) : option match_ :=
  match match_at r subject {| pos := p; prev := pv; rest := s; caps := [] |} with
  | Some m => Some m
  | None =>
      match s with
      | EmptyString => None
      | String c s' => search_from r subject (S p) (Some c) s'
      end
  end.

(** [re.search(r, subject)] *)
Definition search (r : regex) (subject : string) : option match_ :=
  search_from r subject 0 None subject.

Definition last_char (s : string) (p : nat) : option ascii :=
  match p with
  | O => None
  | S p' => String.get p' s
  end.

(** [re.finditer(r, subject)], as the list the iterator yields in order.
    After a match the search resumes at its end, one further after an
    empty match. *)
Fixpoint finditer_from (fuel : nat) (r : regex) (subject : string) (p : nat)
  : list match_ :=
  match fuel with
  | O => []
  | S fuel' =>
      match search_from r subject p (last_char subject p) (Py.drop p subject) with
      | None => []
      | Some m =>
          let p' := if Nat.eqb (m_end m) (m_start m) then S (m_end m) else m_end m in
          m :: (if Nat.ltb (Py.len subject) p' then []
                else finditer_from fuel' r subject p')
      end
  end.

Definition finditer (r : regex) (subject : string) : list match_ :=
  finditer_from (S (Py.len subject)) r subject 0.

End Re.

(** ** The head patterns

    Each pattern is quoted beside its translation in verbose form: the
    blanks inside a quoted pattern are not part of it. *)

Module Pat.
Import Re.

Definition c_open : ascii := "{"%char.
Definition c_close : ascii := "}"%char.

(** The head pattern of [find_rust_functions]. *)
Definition rust_regex : regex :=
  Group 1 (Cat [                                    (* (                     *)
    Opt (Cat [Lit "pub";                            (* (?: pub               *)
              Opt (Cat [Many Space; Chr "(";        (*   (?: \s* \(          *)
                        Many (Not ")"); Chr ")"]);  (*       [^)]* \) )?     *)
              Plus Space]);                         (*   \s+ )?              *)
    Lit "fn"; Plus Space; Plus Word;                (* fn \s+ \w+            *)
    Opt (Cat [Chr "<"; Many (Not ">"); Chr ">"]);   (* (?: < [^>]* > )?      *)
    Many Space; Chr "(";                            (* \s* \(                *)
    Many (Not "{"); Chr ")";                        (* [^{]* \)              *)
    Opt (Cat [Many Space; Lit "->"; Many Space;     (* (?: \s* -> \s*        *)
              Many (Not "{")]);                     (*     [^{]* )?          *)
    Many Space; Chr "{"]).                          (* \s* \{ )              *)

(** The name pattern applied to a matched head: \b fn \s+ ( \w+ ) *)
Definition fn_name_regex : regex :=
  Cat [Boundary; Lit "fn"; Plus Space; Group 1 (Plus Word)].

(** The head pattern of [find_move_functions]. *)
Definition move_regex : regex :=
  Group 1 (Cat [                                               (* (                    *)
    Opt (Cat [Lit "public"; Plus Space]);                      (* (?: public \s+ )?    *)
    Opt (Cat [Lit "entry"; Plus Space]);                       (* (?: entry \s+ )?     *)
    Opt (Cat [Lit "native"; Plus Space]);                      (* (?: native \s+ )?    *)
    Opt (Cat [Lit "inline"; Plus Space]);                      (* (?: inline \s+ )?    *)
    Lit "fun"; Plus Space;                                     (* fun \s+              *)
    Opt (Cat [Chr "<"; Plus (Not ">"); Chr ">"; Many Space]);  (* (?: < [^>]+ > \s* )? *)
    Group 2 (Plus Word);                                       (* ( \w+ )              *)
    Many Space;                                                (* \s*                  *)
    Opt (Cat [Chr "<"; Plus (Not ">"); Chr ">"]);              (* (?: < [^>]+ > )?     *)
    Many Space; Chr "("; Many (Not ")"); Chr ")";              (* \s* \( [^)]* \)      *)
    Opt (Cat [Many Space; Chr ":"; Many Space;                 (* (?: \s* : \s*        *)
              Plus (Not "{")]);                                (*     [^{]+ )?         *)
    Opt (Cat [Plus Space; Lit "acquires"; Plus Space;          (* (?: \s+ acquires \s+ *)
              Plus (Not "{")]);                                (*     [^{]+ )?         *)
    Many Space;                                                (* \s*                  *)
    Or (Chr "{") (Chr ";")]).                                  (* (?: \{ | ; ) )       *)

(** The head pattern of [find_go_functions]: func \s+ .* \{ *)
Definition go_regex : regex :=
  Cat [Lit "func"; Plus Space; Many Dot; Chr "{"].

(** The head pattern of [find_python_functions]. *)
Definition python_regex : regex :=
  Cat [Lit "def"; Plus Space; Group 1 (Plus Word);    (* def \s+ ( \w+ )      *)
       Many Space; Chr "(";                           (* \s* \(               *)
       Group 2 (Lazy Dot); Chr ")";                   (* ( .*? ) \)           *)
       Opt (Cat [Many Space; Lit "->"; Many Space;    (* (?: \s* -> \s*       *)
                 Group 3 (Plus Word)]);               (*     ( \w+ ) )?       *)
       Many Space; Chr ":"].                          (* \s* :                *)

(** [find_cairo_functions] repeats the Rust head pattern verbatim. *)
Definition cairo_regex : regex := rust_regex.

End Pat.

(** ** Function records *)

(** The dictionary every scanner appends; [header] is the key only
    [find_move_functions] sets, and the two [None] entries are the keys
    bound to Python's [None]. *)
Record FunctionRecord : Type := {
  type_ : string;
  name : string;
  start_line : Z;
  end_line : Z;
  offset_start : Z;
  offset_end : Z;
  content : string;
  header : option string;
  contract_name : string;
  contract_code : string;
  modifiers : list string;
  stateMutability : option string;
  returnParameters : option string;
  visibility : string;
  node_count : Z
}.

(** ** Line starts and the offset lookup *)

Module LineIndex.

(** [{i: sum(len(line) + 1 for line in lines[:i]) for i in range(len(lines))}],
    in insertion order. *)
Definition line_starts (lines : list string) : list (nat * nat) :=
  map (fun i => (i, list_sum (map (fun line => (Py.len line + 1)%nat) (firstn i lines))))
      (seq 0 (length lines)).

(** The generator [(i for i, pos in line_starts.items() if pos > off)],
    asked for its first element. *)
Definition first_after (ls : list (nat * nat)) (off : nat) : option nat :=
  option_map fst (find (fun e => Nat.ltb off (snd e)) ls).

(** [next(gen)]: no default, so an exhausted generator raises. *)
Definition next (ls : list (nat * nat)) (off : nat) : result Z :=
  match first_after ls off with
  | Some i => Ok (Z.of_nat i)
  | None => Raise StopIteration
  end.

(** [next(gen, default)] *)
Definition next_default (ls : list (nat * nat)) (off : nat) (default : Z) : Z :=
  match first_after ls off with
  | Some i => Z.of_nat i
  | None => default
  end.

End LineIndex.

(** ** Brace counting *)

Module Braces.

(** One step of the counter on the character [text[i]]. *)
Definition step (c : ascii) (brace_count : Z) : Z :=
  if Ascii.eqb c Pat.c_open then brace_count + 1
  else if Ascii.eqb c Pat.c_close then brace_count - 1
  else brace_count.

(** The loop [for i in range(match.end(), len(text))] of the Rust, Cairo and
    Move scanners, run on [s = text[i:]]: the value [function_body_end] has
    at the [break], or [None] when the loop runs off the text. *)
Fixpoint scan (s : string) (i : nat) (brace_count : Z) : option nat :=
  match s with
  | EmptyString => None
  | String c s' =>
      let brace_count := step c brace_count in
      let inside_braces := true in
      if (inside_braces && (brace_count =? 0))%bool then Some (S i)
      else scan s' (S i) brace_count
  end.

(** The same loop as [find_go_functions] writes it: the test for zero sits
    under the closing brace only. *)
Fixpoint scan_go (s : string) (i : nat) (brace_count : Z) : option nat :=
  match s with
  | EmptyString => None
  | String c s' =>
      if Ascii.eqb c Pat.c_open then scan_go s' (S i) (brace_count + 1)
      else if Ascii.eqb c Pat.c_close then
        let brace_count := brace_count - 1 in
        if brace_count =? 0 then Some (S i) else scan_go s' (S i) brace_count
      else scan_go s' (S i) brace_count
  end.

End Braces.

(** [m.group(n)] used as a [str]: on a [None] group the operation applied
    to it raises [e], [AttributeError] for a method call and [TypeError]
    for [in], [+] and [re.search]. *)
Definition group_str (e : exn) (n : nat) (m : Re.match_) : result string :=
  of_option (Re.group n m) e.

(** ** find_rust_functions *)

Section Rust.
Variables (text filename : string) (hash : Z).

Let lines := Py.split Py.NL text.
Let line_starts := LineIndex.line_starts lines.

(** First loop: the bodies of the matches whose braces close. *)
Fixpoint rust_function_bodies (matches : list Re.match_) : list string :=
  match matches with
  | [] => []
  | m :: matches' =>
      match Braces.scan (Py.drop (Re.m_end m) text) (Re.m_end m) 1 with
      | Some function_body_end =>
          Py.slice (Re.m_start m) function_body_end text
          :: rust_function_bodies matches'
      | None => rust_function_bodies matches'
      end
  end.

(** Second loop, with the list [functions] built so far. *)
Fixpoint rust_loop (contract_code : string) (matches : list Re.match_)
  (functions : list FunctionRecord) : result (list FunctionRecord) :=
  match matches with
  | [] => Ok functions
  | m :: matches' =>
      i <- LineIndex.next line_starts (Re.m_start m) ;;
      let start_line_number := i - 1 in
      let function_body_start := Re.m_start m in
      match Braces.scan (Py.drop (Re.m_end m) text) (Re.m_end m) 1 with
      | None => rust_loop contract_code matches' functions
      | Some function_body_end =>
          let end_line_number :=
            LineIndex.next_default line_starts function_body_end
              (Z.of_nat (length lines)) - 1 in
          let function_body := Py.slice function_body_start function_body_end text in
          let function_body_lines := Py.count Py.NL function_body + 1 in
          head <- group_str TypeError 1 m ;;
          let visibility := if Py.contains "pub" head then "public" else "private" in
          found <- of_option (Re.search Pat.fn_name_regex head) AttributeError ;;
          fn_name <- group_str TypeError 1 found ;;
          rust_loop contract_code matches'
            (functions ++
             [{| type_ := "FunctionDefinition";
                 name := "special_" ++ fn_name;
                 start_line := start_line_number + 1;
                 end_line := end_line_number;
                 offset_start := 0;
                 offset_end := 0;
                 content := function_body;
                 header := None;
                 contract_name := Py.replace ".rs" ("_rust" ++ Py.str hash) filename;
                 contract_code := contract_code;
                 modifiers := [];
                 stateMutability := None;
                 returnParameters := None;
                 visibility := visibility;
                 node_count := function_body_lines |}])
      end
  end.

Definition find_rust_functions : result (list FunctionRecord) :=
  let function_bodies := rust_function_bodies (Re.finditer Pat.rust_regex text) in
  let contract_code := Py.strip (Py.join Py.nl function_bodies) in
  rust_loop contract_code (Re.finditer Pat.rust_regex text) [].

End Rust.

(** ** find_move_functions *)

(** The three locals the second loop of [find_move_functions] binds only
    on some paths; they keep their value from one iteration to the next. *)
Record move_locals : Type := {
  function_body : option string;
  end_line_number : option Z;
  function_body_lines : option Z
}.

Definition unbound : move_locals :=
  {| function_body := None; end_line_number := None; function_body_lines := None |}.

(** Reading a local: unbound names raise. *)
Definition read_local {A : Type} (var : string) (v : option A) : result A :=
  of_option v (UnboundLocalError var).

Section Move.
Variables (text filename : string) (hash : Z).

Let lines := Py.split Py.NL text.
Let line_starts := LineIndex.line_starts lines.

(** [match.group(1).strip().endswith(';')] *)
Definition is_declaration (head : string) : bool :=
  Py.endswith ";" (Py.strip head).

(** First loop: a declaration contributes its head, a head whose braces
    close contributes head and body, any other head nothing. *)
Fixpoint move_function_bodies (matches : list Re.match_) : result (list string) :=
  match matches with
  | [] => Ok []
  | m :: matches' =>
      head <- group_str AttributeError 1 m ;;
      if is_declaration head then
        bodies <- move_function_bodies matches' ;;
        Ok (head :: bodies)
      else
        match Braces.scan (Py.drop (Re.m_end m) text) (Re.m_end m) 1 with
        | Some function_body_end =>
            bodies <- move_function_bodies matches' ;;
            Ok (Py.slice (Re.m_start m) function_body_end text :: bodies)
        | None => move_function_bodies matches'
        end
  end.

(** The body of the second loop up to the [append]: the locals after it. *)
Definition move_bind (m : Re.match_) (start_line_number : Z) (head : string)
  (locals : move_locals) : result move_locals :=
  if is_declaration head then
    Ok {| function_body := Some head;
          end_line_number := Some start_line_number;
          function_body_lines := Some 1 |}
  else
    let function_body_start := Re.m_start m in
    match Braces.scan (Py.drop (Re.m_end m) text) (Re.m_end m) 1 with
    | None => Ok locals
    | Some function_body_end =>
        j <- LineIndex.next line_starts function_body_end ;;
        let function_body := Py.slice function_body_start function_body_end text in
        Ok {| function_body := Some function_body;
              end_line_number := Some (j - 1);
              function_body_lines := Some (Py.count Py.NL function_body + 1) |}
    end.

(** Second loop, with the locals and the list [functions] so far. *)
Fixpoint move_loop (contract_code : string) (matches : list Re.match_)
  (locals : move_locals) (functions : list FunctionRecord)
  : result (list FunctionRecord) :=
  match matches with
  | [] => Ok functions
  | m :: matches' =>
      i <- LineIndex.next line_starts (Re.m_start m) ;;
      let start_line_number := i - 1 in
      head <- group_str AttributeError 1 m ;;
      locals <- move_bind m start_line_number head locals ;;
      let visibility := if Py.contains "public" head then "public" else "private" in
      let is_native := Py.contains "native" head in
      fun_name <- group_str TypeError 2 m ;;
      end_line_number <- read_local "end_line_number" (end_line_number locals) ;;
      function_body <- read_local "function_body" (function_body locals) ;;
      function_body_lines <- read_local "function_body_lines" (function_body_lines locals) ;;
      move_loop contract_code matches' locals
        (functions ++
         [{| type_ := "FunctionDefinition";
             name := "special_" ++ fun_name;
             start_line := start_line_number + 1;
             end_line := end_line_number;
             offset_start := 0;
             offset_end := 0;
             content := function_body;
             header := Some (Py.strip head);
             contract_name := Py.replace ".move" ("_move" ++ Py.str hash) filename;
             contract_code := contract_code;
             modifiers := if is_native then ["native"] else [];
             stateMutability := None;
             returnParameters := None;
             visibility := visibility;
             node_count := function_body_lines |}])
  end.

Definition find_move_functions : result (list FunctionRecord) :=
  function_bodies <- move_function_bodies (Re.finditer Pat.move_regex text) ;;
  let contract_code := Py.strip (Py.join Py.nl function_bodies) in
  move_loop contract_code (Re.finditer Pat.move_regex text) unbound [].

End Move.

(** ** find_go_functions *)

Section Go.
Variables (text filename : string) (hash : Z).

Let lines := Py.split Py.NL text.
Let line_starts := LineIndex.line_starts lines.

Fixpoint go_loop (matches : list Re.match_) (functions : list FunctionRecord)
  : result (list FunctionRecord) :=
  match matches with
  | [] => Ok functions
  | m :: matches' =>
      let function_body_start := Re.m_start m in
      i <- LineIndex.next line_starts function_body_start ;;
      let start_line_number := i - 1 in
      let function_body_end :=
        match Braces.scan_go (Py.drop (Re.m_end m) text) (Re.m_end m) 1 with
        | Some e => e
        | None => function_body_start
        end in
      j <- LineIndex.next line_starts function_body_end ;;
      let end_line_number := j - 1 in
      let function_body := Py.slice function_body_start function_body_end text in
      let function_body_lines := Py.count Py.NL function_body + 1 in
      go_loop matches'
        (functions ++
         [{| type_ := "FunctionDefinition";
             name := "special_func";
             start_line := start_line_number + 1;
             end_line := end_line_number;
             offset_start := 0;
             offset_end := 0;
             content := function_body;
             header := None;
             contract_name := Py.replace ".go" ("_go" ++ Py.str hash) filename;
             contract_code := text;
             modifiers := [];
             stateMutability := None;
             returnParameters := None;
             visibility := "public";
             node_count := function_body_lines |}])
  end.

Definition find_go_functions : result (list FunctionRecord) :=
  go_loop (Re.finditer Pat.go_regex text) [].

End Go.

(** ** find_python_functions *)

Module PyList.

(** A slice bound [i] of a list of length [n], clamped as Python does. *)
Definition clamp (n : nat) (i : Z) : nat :=
  Z.to_nat (if i <? 0 then Z.max 0 (i + Z.of_nat n) else Z.min i (Z.of_nat n)).

(** [l[a:b]] *)
Definition slice {A : Type} (a b : Z) (l : list A) : list A :=
  let a' := clamp (length l) a in
  let b' := clamp (length l) b in
  firstn (b' - a') (skipn a' l).

(** [l[i]] *)
Definition getitem {A : Type} (l : list A) (i : Z) : result A :=
  let n := Z.of_nat (length l) in
  if (0 <=? i) && (i <? n) then of_option (nth_error l (Z.to_nat i)) IndexError
  else if (- n <=? i) && (i <? 0) then of_option (nth_error l (Z.to_nat (i + n))) IndexError
  else Raise IndexError.

(** [any(it)] on an iterator of match objects, which are all true: the
    answer, and the iterator as [any] leaves it. *)
Definition any_matches {A : Type} (it : list A) : bool * list A :=
  match it with
  | [] => (false, [])
  | _ :: it' => (true, it')
  end.

End PyList.

Section Python.
Variables (text filename : string) (hash_value : Z).

Let lines := Py.split Py.NL text.
Let line_starts := LineIndex.line_starts lines.

(** [len(line) - len(line.lstrip())] *)
Definition indent (line : string) : Z :=
  Z.of_nat (Py.len line) - Z.of_nat (Py.len (Py.lstrip line)).

(** The [while] loop, run on [rest = lines[end_line_number:]]: the value of
    [end_line_number] when the loop is left. *)
Fixpoint body_end (rest : list string) (end_line_number indent_level : Z) : Z :=
  match rest with
  | [] => end_line_number
  | line :: rest' =>
      if (Py.truthy (Py.strip line) && (indent line <=? indent_level))%bool
      then end_line_number
      else body_end rest' (end_line_number + 1) indent_level
  end.

Fixpoint python_loop (matches : list Re.match_) (functions : list FunctionRecord)
  : result (list FunctionRecord) :=
  match matches with
  | [] => Ok functions
  | m :: matches' =>
      i <- LineIndex.next line_starts (Re.m_start m) ;;
      let start_line_number := i - 1 in
      header_line <- PyList.getitem lines start_line_number ;;
      let indent_level := indent header_line in
      let end_line_number := start_line_number + 1 in
      let end_line_number :=
        body_end (PyList.slice end_line_number (Z.of_nat (length lines)) lines)
                 end_line_number indent_level in
      let end_line_number := end_line_number - 1 in
      let function_body :=
        Py.join Py.nl (PyList.slice start_line_number (end_line_number + 1) lines) in
      let function_body_lines := Py.count Py.NL function_body + 1 in
      def_name <- group_str TypeError 1 m ;;
      python_loop matches'
        (functions ++
         [{| type_ := "FunctionDefinition";
             name := "function" ++ def_name;
             start_line := start_line_number + 1;
             end_line := end_line_number + 1;
             offset_start := 0;
             offset_end := 0;
             content := function_body;
             header := None;
             contract_name := Py.replace ".py" ("_python" ++ Py.str hash_value) filename;
             contract_code := Py.strip text;
             modifiers := [];
             stateMutability := None;
             returnParameters := None;
             visibility := "public";
             node_count := function_body_lines |}])
  end.

(** The record of the [else] branch. *)
Definition whole_file_record : FunctionRecord :=
  let function_body_lines := Z.of_nat (length lines) in
  {| type_ := "FunctionDefinition";
     name := "function" ++ hd EmptyString (Py.split "." filename) ++ "all";
     start_line := 1;
     end_line := function_body_lines;
     offset_start := 0;
     offset_end := 0;
     content := Py.strip text;
     header := None;
     contract_name := Py.replace ".py" ("_python" ++ Py.str hash_value) filename;
     contract_code := Py.strip text;
     modifiers := [];
     stateMutability := None;
     returnParameters := None;
     visibility := "public";
     node_count := function_body_lines |}.

(** [matches] is one iterator: [any] advances it, the [for] loop takes
    what is left. *)
Definition find_python_functions : result (list FunctionRecord) :=
  let matches := Re.finditer Pat.python_regex text in
  let '(found, matches) := PyList.any_matches matches in
  if found then python_loop matches []
  else Ok [whole_file_record].

End Python.

(** ** find_cairo_functions *)

Section Cairo.
Variables (text filename : string) (hash : Z).

Let lines := Py.split Py.NL text.
Let line_starts := LineIndex.line_starts lines.

(** First loop, a copy of the Rust one. *)
Fixpoint cairo_function_bodies (matches : list Re.match_) : list string :=
  match matches with
  | [] => []
  | m :: matches' =>
      match Braces.scan (Py.drop (Re.m_end m) text) (Re.m_end m) 1 with
      | Some function_body_end =>
          Py.slice (Re.m_start m) function_body_end text
          :: cairo_function_bodies matches'
      | None => cairo_function_bodies matches'
      end
  end.

(** Second loop. *)
Fixpoint cairo_loop (matches : list Re.match_) (functions : list FunctionRecord)
  : result (list FunctionRecord) :=
  match matches with
  | [] => Ok functions
  | m :: matches' =>
      i <- LineIndex.next line_starts (Re.m_start m) ;;
      let start_line_number := i - 1 in
      let function_body_start := Re.m_start m in
      match Braces.scan (Py.drop (Re.m_end m) text) (Re.m_end m) 1 with
      | None => cairo_loop matches' functions
      | Some function_body_end =>
          j <- LineIndex.next line_starts function_body_end ;;
          let end_line_number := j - 1 in
          let function_body := Py.slice function_body_start function_body_end text in
          let function_body_lines := Py.count Py.NL function_body + 1 in
          let visibility := "public" in
          head <- group_str TypeError 1 m ;;
          found <- of_option (Re.search Pat.fn_name_regex head) AttributeError ;;
          fn_name <- group_str TypeError 1 found ;;
          cairo_loop matches'
            (functions ++
             [{| type_ := "FunctionDefinition";
                 name := "special_" ++ fn_name;
                 start_line := start_line_number + 1;
                 end_line := end_line_number;
                 offset_start := 0;
                 offset_end := 0;
                 content := function_body;
                 header := None;
                 contract_name := Py.replace ".cairo" ("_cairo" ++ Py.str hash) filename;
                 contract_code := "";
                 modifiers := [];
                 stateMutability := None;
                 returnParameters := None;
                 visibility := visibility;
                 node_count := function_body_lines |}])
      end
  end.

(** The [contract_code] joined from the first loop ends in no record:
    every record holds the empty string. *)
Definition find_cairo_functions : result (list FunctionRecord) :=
  let function_bodies := cairo_function_bodies (Re.finditer Pat.cairo_regex text) in
  let contract_code := Py.strip (Py.join Py.nl function_bodies) in
  cairo_loop (Re.finditer Pat.cairo_regex text) [].

End Cairo.

(** ** get_antlr_parsing *)

(** [os.path.basename(path)]: what follows the last slash. *)
Fixpoint basename (path : string) : string :=
  match path with
  | EmptyString => EmptyString
  | String c path' =>
      if Py.contains "/" path then basename path' else path
  end.

(** The functions a call of [get_antlr_parsing] can hand the text to: the
    five scanners of the module and the ANTLR visitor. *)
Inductive callee : Type :=
| RustScanner
| PythonScanner
| MoveScanner
| CairoScanner
| GoScanner
| SolidityVisitor.

Section Dispatcher.

(** What lies outside the module: the file system, Python's [hash] on
    [str], and the ANTLR pipeline ending in [visitor.results]. *)
Variable SolidityResults : Type.
Variable read_file : string -> result string.
Variable py_hash : string -> Z.
Variable solidity_results : string -> result SolidityResults.

Inductive parsing : Type :=
| Records (functions : list FunctionRecord)
| Results (results : SolidityResults).

Definition records (r : result (list FunctionRecord)) : result parsing :=
  functions <- r ;; Ok (Records functions).

(** The chain of [if ".ext" in str(path)] tests, top to bottom. *)
Definition dispatch (path : string) : callee :=
  if Py.contains ".rs" path then RustScanner
  else if Py.contains ".py" path then PythonScanner
  else if Py.contains ".move" path then MoveScanner
  else if Py.contains ".cairo" path then CairoScanner
  else SolidityVisitor.

Definition call (f : callee) (code filename : string) (hash_value : Z)
  : result parsing :=
  match f with
  | RustScanner => records (find_rust_functions code filename hash_value)
  | PythonScanner => records (find_python_functions code filename hash_value)
  | MoveScanner => records (find_move_functions code filename hash_value)
  | CairoScanner => records (find_cairo_functions code filename hash_value)
  | GoScanner => records (find_go_functions code filename hash_value)
  | SolidityVisitor => results <- solidity_results code ;; Ok (Results results)
  end.

Definition get_antlr_parsing (path : string) : result parsing :=
  code <- read_file path ;;
  let hash_value := py_hash code in
  let filename := basename path in
  call (dispatch path) code filename hash_value.

End Dispatcher.

(** ** parse *)

Section Parse.

(** The collaborators of [parse]: the parse tree and token stream of ANTLR,
    the AST payload, the visitor, the token-list builder and the file
    system that receives [ast.json]. *)
Variables ParseTree TokenStream Token Ast World : Type.

(** The fields of [SGPVisitorOptions] that [parse] reads. *)
Record SGPVisitorOptions : Type := {
  tokens : bool;
  errors_tolerant : bool
}.

(** The error listener after [parser.sourceUnit()] has run: the answers of
    its two methods. *)
Record SGPErrorListener : Type := {
  has_errors : bool;
  get_errors : list syntax_error
}.

(** The AST root with the two attributes [parse] assigns. *)
Record SourceUnit : Type := {
  ast : Ast;
  su_errors : option (list syntax_error);
  su_tokens : option (list Token)
}.

(** [antlr] is the lexer and parser run up to [parser.sourceUnit()].  The
    three calls below leave the module; [None] is the call raising.  What
    the visitor raises is caught by [parse], a failure of the token builder
    is [CollaboratorError], a failure to write the file is [OSError]. *)
Variable antlr : string -> ParseTree * TokenStream * SGPErrorListener.
Variable visit : SGPVisitorOptions -> ParseTree -> option (option SourceUnit).
Variable build_token_list : TokenStream -> SGPVisitorOptions -> option (list Token).
Variable write_ast_json : string -> SourceUnit -> World -> option World.

(** [ParserError.__init__]: the constructed exception, or the [IndexError]
    of [errors[0]] on an empty list. *)
Definition ParserError_init (errors : list syntax_error) : result exn :=
  match errors with
  | [] => Raise IndexError
  | error :: _ =>
      Ok (ParserError
            (message error ++ " (" ++ Py.str (line error) ++ ":"
             ++ Py.str (column error) ++ ")")
            errors)
  end.

(** [raise ParserError(errors=...)] *)
Definition raise_ParserError {A : Type} (errors : list syntax_error) : result A :=
  match ParserError_init errors with
  | Ok e => Raise e
  | Raise e => Raise e
  end.

Definition parse (input_string : string) (options : SGPVisitorOptions)
  (dump_json : bool) (dump_path : string) (w : World)
  : result (SourceUnit * World) :=
  let '(tree, token_stream, listener) := antlr input_string in
  source_unit <-
    match visit options tree with
    | None => Raise (Exception "AST was not generated")
    | Some None => Raise (Exception "AST was not generated")
    | Some (Some source_unit) => Ok source_unit
    end ;;
  token_list <-
    (if tokens options
     then of_option (build_token_list token_stream options) CollaboratorError
     else Ok []) ;;
  if (negb (errors_tolerant options) && has_errors listener)%bool
  then raise_ParserError (get_errors listener)
  else
    let source_unit :=
      if (errors_tolerant options && has_errors listener)%bool
      then {| ast := ast source_unit;
              su_errors := Some (get_errors listener);
              su_tokens := su_tokens source_unit |}
      else source_unit in
    let source_unit :=
      if tokens options
      then {| ast := ast source_unit;
              su_errors := su_errors source_unit;
              su_tokens := Some token_list |}
      else source_unit in
    if dump_json then
      w' <- of_option (write_ast_json dump_path source_unit w) OSError ;;
      Ok (source_unit, w')
    else Ok (source_unit, w).

(** [get_antlr_ast]: [parse(code, dump_json=True, dump_path="./")] with the
    default options; the root is dropped. *)
Definition get_antlr_ast (read_file : string -> result string)
  (default_options : SGPVisitorOptions) (path : string) (w : World)
  : result World :=
  code <- read_file path ;;
  out <- parse code default_options true "./" w ;;
  Ok (snd out).

End Parse.

Arguments Build_SourceUnit {Token Ast} _ _ _.
Arguments ast {Token Ast} _.
Arguments su_errors {Token Ast} _.
Arguments su_tokens {Token Ast} _.
Arguments parse {ParseTree TokenStream Token Ast World} _ _ _ _ _ _ _ _ _.
Arguments get_antlr_ast {ParseTree TokenStream Token Ast World} _ _ _ _ _ _ _ _.

(** * Vocabulary of the properties *)

(** [p] occurs in [s]. *)
Definition Substring (p s : string) : Prop :=
  exists a b : string, s = a ++ p ++ b.

(** The outcome is a raised [ParserError]. *)
Definition raises_ParserError {A : Type} (r : result A) : Prop :=
  exists (msg : string) (errs : list syntax_error), r = Raise (ParserError msg errs).


(** The brace counter after the characters of [s], started at [d]. *)
Fixpoint depth (s : string) (d : Z) : Z :=
  match s with
  | EmptyString => d
  | String c s' => depth s' (Braces.step c d)
  end.

(** Opening braces minus closing braces. *)
Definition imbalance (s : string) : Z :=
  Py.count Pat.c_open s - Py.count Pat.c_close s.

(** The line numbers of a record are in order. *)
Definition lines_ordered (r : FunctionRecord) : Prop :=
  1 <= start_line r <= end_line r.

(** The record of a head that has no body of its own: one line of content
    count, and an [end_line] one below the [start_line]. *)
Definition one_line_short (r : FunctionRecord) : Prop :=
  node_count r = 1 /\ end_line r = start_line r - 1.

(** What a match object shows: [start()], [end()] and groups 1 and 2. *)
Definition shown (m : Re.match_) : nat * nat * option string * option string :=
  (Re.m_start m, Re.m_end m, Re.group 1 m, Re.group 2 m).

(** ** Sample texts *)

Definition lines_of (ls : list string) : string :=
  String.concat EmptyString (map (fun l => l ++ Py.nl) ls).

(** A Go function on three lines, each ended by a newline. *)
Definition go_three_lines : string :=
  lines_of ["func Foo() {"; "  return"; "}"].

(** The same on one line. *)
Definition go_one_line : string := lines_of ["func Foo() {}"].

(** A Go head whose line opens two braces. *)
Definition go_two_braces : string :=
  lines_of ["func f() { if x {"; "}"; "}"].

(** A Go head whose brace never closes. *)
Definition go_unclosed : string := lines_of ["func f() {"].

Definition rust_one_line : string := lines_of ["fn foo() {}"].

(** A Rust head whose brace never closes, before a complete function. *)
Definition rust_unclosed_then_closed : string :=
  lines_of ["fn foo() {"; "fn g() { }"].

(** A Move declaration, alone and followed by a newline. *)
Definition move_declaration : string := "native fun bar(x: u64);".
Definition move_declaration_line : string := lines_of [move_declaration].

(** Move heads whose brace never closes, first in the file and after a
    complete function. *)
Definition move_unclosed : string := lines_of ["fun f() {"].
Definition move_closed_then_unclosed : string :=
  lines_of ["fun g() { }"; "fun f() {"].

(** One Python function, and two. *)
Definition python_one_def : string := lines_of ["def f():"; "    pass"].
Definition python_two_defs : string :=
  lines_of ["def f():"; "    pass"; "def g():"; "    pass"].

(** ** A parse with one syntax error

    Collaborators over trivial types: a listener holding one error, a
    visitor that builds a root and one that returns [None]. *)

Definition one_error : syntax_error :=
  {| message := "mismatched input"; line := 3; column := 14 |}.

Definition listener_one_error : SGPErrorListener :=
  {| has_errors := true; get_errors := [one_error] |}.

Definition strict_options : SGPVisitorOptions :=
  {| tokens := false; errors_tolerant := false |}.

Definition tolerant_options : SGPVisitorOptions :=
  {| tokens := false; errors_tolerant := true |}.

Definition bare_root : SourceUnit unit unit :=
  {| ast := tt; su_errors := None; su_tokens := None |}.

Definition antlr_one_error (_ : string) : unit * unit * SGPErrorListener :=
  (tt, tt, listener_one_error).

Definition visit_root (_ : SGPVisitorOptions) (_ : unit)
  : option (option (SourceUnit unit unit)) := Some (Some bare_root).

Definition visit_nothing (_ : SGPVisitorOptions) (_ : unit)
  : option (option (SourceUnit unit unit)) := Some None.

Definition no_token_list (_ : unit) (_ : SGPVisitorOptions) : option (list unit) :=
  Some [].

Definition no_file_system (_ : string) (_ : SourceUnit unit unit) (w : unit)
  : option unit := Some w.

(** ** Matches and line numbers *)

(** The matcher moved from [cu] to [cu'] by consuming characters. *)
Definition advances (cu cu' : Re.cursor) : Prop :=
  (Re.pos cu <= Re.pos cu')%nat /\
  (Re.pos cu' + Py.len (Re.rest cu') = Re.pos cu + Py.len (Re.rest cu))%nat.

(** The span of a match lies in its subject. *)
Definition in_text (text : string) (m : Re.match_) : Prop :=
  (Re.m_start m <= Re.m_end m <= Py.len text)%nat.

(** The 1-based number of the line that holds offset [off]: one more than
    the newlines before it. *)
Definition line_number (text : string) (off : nat) : Z :=
  1 + Py.count Py.NL (substring 0 off text).

(** The braces after the head of [m] close before the end of [text]. *)
Definition closed (text : string) (m : Re.match_) : bool :=
  match Braces.scan (Py.drop (Re.m_end m) text) (Re.m_end m) 1 with
  | Some _ => true
  | None => false
  end.

(** [end_line] is the 0-based index of the last line of the content: with
    [node_count] lines from the 1-based [start_line] on, the last line is
    [start_line + node_count - 1], and [end_line] is one less. *)
Definition end_line_zero_based (r : FunctionRecord) : Prop :=
  end_line r = start_line r + node_count r - 2.

(** A line the Python scanner treats as blank: [line.strip()] is false. *)
Definition blank (line : string) : Prop := Py.truthy (Py.strip line) = false.

(** The record spans a Python block of [lines]: its content is the lines
    [start_line .. end_line] joined, every line after the header line is
    blank or indented deeper than the header, and the line after the block,
    if there is one, is not blank and indented no deeper than the header. *)
Definition python_block (lines : list string) (r : FunctionRecord) : Prop :=
  exists header : string,
    nth_error lines (Z.to_nat (start_line r - 1)) = Some header /\
    content r = Py.join Py.nl (PyList.slice (start_line r - 1) (end_line r) lines) /\
    (forall (j : nat) (line : string),
       start_line r - 1 < Z.of_nat j <= end_line r - 1 ->
       nth_error lines j = Some line ->
       blank line \/ indent header < indent line) /\
    (forall line : string,
       nth_error lines (Z.to_nat (end_line r)) = Some line ->
       ~ blank line /\ indent line <= indent header).

(** The record counts the lines from [start_line] to [end_line]. *)
Definition counts_its_lines (r : FunctionRecord) : Prop :=
  node_count r = end_line r - start_line r + 1.

(** The fields every record of one scan shares: the fixed tag, the zero
    offsets, the two [None] entries and the grouping name [cn]. *)
Definition shared_fields (cn : string) (r : FunctionRecord) : Prop :=
  type_ r = "FunctionDefinition" /\
  offset_start r = 0 /\ offset_end r = 0 /\
  stateMutability r = None /\ returnParameters r = None /\
  contract_name r = cn.

(** The root a tolerant parse of the one-error input returns. *)
Definition root_with_error : SourceUnit unit unit :=
  {| ast := tt; su_errors := Some [one_error]; su_tokens := None |}.

(** [c] is the text of the head of [m] followed by a body that ends with
    the closing brace. *)
Definition head_to_brace (text : string) (ms : list Re.match_) (c : string) : Prop :=
  exists (m : Re.match_) (body : string),
    In m ms /\
    c = Py.slice (Re.m_start m) (Re.m_end m) text ++ body ++ "}".


(** ** Groups of a match *)

(** Group [n] is set at the cursor. *)
Definition has_group (n : nat) (cu : Re.cursor) : Prop :=
  Re.span_of n (Re.caps cu) <> None.

(** Every match of [r] sets group [n]. *)
Definition sets (n : nat) (r : Re.regex) : Prop :=
  forall (cu : Re.cursor) (k : Re.cursor -> option Re.cursor) (out : Re.cursor),
    Re.run r cu k = Some out ->
    exists cu' : Re.cursor, k cu' = Some out /\ has_group n cu'.

(** The head of a Move match ends in a semicolon. *)
Definition declares (m : Re.match_) : bool :=
  match Re.group 1 m with
  | Some head => is_declaration head
  | None => false
  end.

(** The locals of the Move loop as a record leaves them. *)
Definition locals_of (r : FunctionRecord) : move_locals :=
  {| function_body := Some (content r);
     end_line_number := Some (end_line r);
     function_body_lines := Some (node_count r) |}.

(** The two records agree on the fields the Move loop keeps in locals. *)
Definition same_body (r1 r2 : FunctionRecord) : Prop :=
  content r2 = content r1 /\ end_line r2 = end_line r1
  /\ node_count r2 = node_count r1.

(** What the loops need of a match of a text that ends with a newline. *)
Definition usable (text : string) (m : Re.match_) : Prop :=
  in_text text m /\ (Re.m_start m < Py.len text)%nat /\
  (exists g, Re.group 1 m = Some g).

(** ** What a pattern consumes *)

(** [consumes r cu cu']: the pattern [r] can match from [cu] to [cu']. *)
Inductive consumes : Re.regex -> Re.cursor -> Re.cursor -> Prop :=
| consumes_empty : forall cu, consumes Re.Empty cu cu
| consumes_class : forall p cu c s',
    Re.rest cu = String c s' -> p c = true ->
    consumes (Re.Class p) cu
      {| Re.pos := S (Re.pos cu); Re.prev := Some c; Re.rest := s';
         Re.caps := Re.caps cu |}
| consumes_seq : forall r1 r2 cu cu1 cu2,
    consumes r1 cu cu1 -> consumes r2 cu1 cu2 -> consumes (Re.Seq r1 r2) cu cu2
| consumes_left : forall r1 r2 cu cu1,
    consumes r1 cu cu1 -> consumes (Re.Or r1 r2) cu cu1
| consumes_right : forall r1 r2 cu cu2,
    consumes r2 cu cu2 -> consumes (Re.Or r1 r2) cu cu2
| consumes_stop : forall g r cu, consumes (Re.Star g r) cu cu
| consumes_more : forall g r cu cu1 cu2,
    consumes r cu cu1 -> consumes (Re.Star g r) cu1 cu2 ->
    consumes (Re.Star g r) cu cu2
| consumes_group : forall n r cu cu1,
    consumes r cu cu1 ->
    consumes (Re.Group n r) cu
      {| Re.pos := Re.pos cu1; Re.prev := Re.prev cu1; Re.rest := Re.rest cu1;
         Re.caps := (n, (Re.pos cu, Re.pos cu1)) :: Re.caps cu1 |}
| consumes_boundary : forall cu,
    Re.at_boundary cu = true -> consumes Re.Boundary cu cu.

(** Every character of [s] satisfies [p]. *)
Fixpoint all_chars (p : ascii -> bool) (s : string) : bool :=
  match s with
  | EmptyString => true
  | String c s' => (p c && all_chars p s')%bool
  end.

(** The last character of [s], or [pv] for the empty string. *)
Fixpoint last_char_of (pv : option ascii) (s : string) : option ascii :=
  match s with
  | EmptyString => pv
  | String c s' => last_char_of (Some c) s'
  end.

(** Patterns that can match the empty text. *)
Fixpoint nullable (r : Re.regex) : bool :=
  match r with
  | Re.Empty => true
  | Re.Class _ => false
  | Re.Seq a b => nullable a && nullable b
  | Re.Or a b => nullable a || nullable b
  | Re.Star _ _ => true
  | Re.Group _ a => nullable a
  | Re.Boundary => true
  end.

(** Every repetition in the pattern is over one character class, as in
    all the patterns of the scanners. *)
Fixpoint class_stars (r : Re.regex) : bool :=
  match r with
  | Re.Empty | Re.Class _ | Re.Boundary => true
  | Re.Seq a b | Re.Or a b => class_stars a && class_stars b
  | Re.Star _ (Re.Class _) => true
  | Re.Star _ _ => false
  | Re.Group _ a => class_stars a
  end.

(** ** Outcomes of a scan *)

(** The head of a Rust or Cairo match names a function: group 1 is the
    head and the name pattern finds a name in it. *)
Definition named (m : Re.match_) : Prop :=
  exists (head : string) (found : Re.match_) (g : string),
    Re.group 1 m = Some head /\
    Re.search Pat.fn_name_regex head = Some found /\
    Re.group 1 found = Some g.

(** The call returns, or raises one of the listed exceptions. *)
Definition raises_only {A : Type} (allowed : list exn) (c : result A) : Prop :=
  match c with
  | Ok _ => True
  | Raise e => In e allowed
  end.

(** The locals of the Move loop are bound together. *)
Definition bound_together (locals : move_locals) : Prop :=
  locals = unbound \/
  exists (fb : string) (el fl : Z),
    locals = {| function_body := Some fb; end_line_number := Some el;
                function_body_lines := Some fl |}.

(** ** Names of the records *)





(** ** Tactics *)

(** Splits a parse that has passed the listener test on the token option,
    the dump flag and the outcome of the file write, and closes the cases
    whose outcome [H] cannot be. *)
Ltac past_listener H options dump_json write :=
  destruct (tokens options), dump_json; cbn in H;
  try discriminate H;
  try match type of H with
      | context [write ?p ?s ?x] =>
          destruct (write p s x); cbn in H; try discriminate H
      end.

(** Runs through a parse known to return, [H : parse ... = Ok (su, w')]
    unfolded up to the listener test: the cases of the listener, of the
    tolerant option and of the dump, keeping the write in [Hw]. *)
Ltac parse_success H listener options dump_json :=
  destruct (has_errors listener) eqn:Hhas;
  destruct (errors_tolerant options) eqn:Htol; cbn [negb andb] in H;
  try (unfold raise_ParserError in H;
       destruct (ParserError_init _); discriminate H);
  destruct dump_json;
  try match type of H with
      | context [of_option ?o OSError] =>
          destruct o as [w2 |] eqn:Hw; cbn [of_option bind] in H;
          [| discriminate H]
      end;
  injection H as <- <-; cbn [ast su_errors su_tokens].

(** A line lookup in front of the goal: go on where it returns. *)
Ltac lookup_line raises :=
  match goal with
  | |- raises_only _ (bind (LineIndex.next ?ls ?off) _) =>
      let i := fresh "i" in
      let e := fresh "e" in
      let Hi := fresh "Hi" in
      pose proof (raises ls off) as Hi;
      destruct (LineIndex.next ls off) as [i | e] eqn:?;
      [clear Hi; cbn [bind]
      | cbn [bind raises_only] in *; intuition]
  end.

(** * Properties *)

(** ** Strings *)

Lemma count_nonneg :
  forall (c : ascii) (s : string), 0 <= Py.count c s.
Proof.
  intros c s. induction s as [| d s IH]; simpl; [lia |].
  destruct (Ascii.eqb d c); lia.
Qed.

Lemma count_app :
  forall (c : ascii) (s t : string),
    Py.count c (s ++ t) = Py.count c s + Py.count c t.
Proof.
  intros c s t. induction s as [| d s IH]; simpl; [reflexivity |].
  rewrite IH. lia.
Qed.

Lemma substring_zero :
  forall (n : nat) (s : string), substring n 0 s = EmptyString.
Proof.
  induction n as [| n IH]; intros s; destruct s; simpl; try reflexivity.
  apply IH.
Qed.

Lemma substring_drop :
  forall (n m : nat) (s : string),
    substring n m s = substring 0 m (Py.drop n s).
Proof.
  induction n as [| n IH]; intros m s.
  - reflexivity.
  - destruct s as [| c s]; simpl.
    + destruct m; reflexivity.
    + apply IH.
Qed.

Lemma drop_drop :
  forall (a b : nat) (s : string),
    Py.drop b (Py.drop a s) = Py.drop (a + b) s.
Proof.
  induction a as [| a IH]; intros b s; simpl.
  - reflexivity.
  - destruct s as [| c s].
    + destruct b; reflexivity.
    + apply IH.
Qed.

Lemma substring_split :
  forall (m1 m2 : nat) (s : string),
    substring 0 (m1 + m2) s
    = substring 0 m1 s ++ substring 0 m2 (Py.drop m1 s).
Proof.
  induction m1 as [| m1 IH]; intros m2 s.
  - destruct s, m2; reflexivity.
  - destruct s as [| c s]; simpl.
    + destruct m2; reflexivity.
    + rewrite IH. reflexivity.
Qed.

(** [text[a:e] = text[a:b] + text[b:e]] *)
Lemma slice_split :
  forall (a b e : nat) (text : string),
    (a <= b)%nat -> (b <= e)%nat ->
    Py.slice a e text
    = Py.slice a b text ++ substring 0 (e - b) (Py.drop b text).
Proof.
  intros a b e text Hab Hbe. unfold Py.slice.
  rewrite !(substring_drop a).
  replace (e - a)%nat with ((b - a) + (e - b))%nat by lia.
  rewrite substring_split, drop_drop.
  replace (a + (b - a))%nat with b by lia. reflexivity.
Qed.

Lemma startswith_spec :
  forall p s : string,
    Py.startswith p s = true <-> exists b : string, s = p ++ b.
Proof.
  induction p as [| a p IH]; intros s; simpl.
  - split; [intros _; exists s; reflexivity | reflexivity].
  - destruct s as [| c s].
    + split; [discriminate | intros [b H]; discriminate H].
    + rewrite andb_true_iff, Ascii.eqb_eq, IH. split.
      * intros [-> [b ->]]. exists b. reflexivity.
      * intros [b H]. injection H as -> ->. split; [reflexivity | exists b; reflexivity].
Qed.

(** Python's [p in s] is the occurrence of [p] in [s]. *)
Lemma contains_spec :
  forall p s : string, Py.contains p s = true <-> Substring p s.
Proof.
  intros p s. unfold Substring.
  induction s as [| c s IH].
  - cbn [Py.contains]. rewrite orb_false_r, startswith_spec. split.
    + intros [b H]. exists EmptyString, b. exact H.
    + intros [a [b H]]. destruct a as [| x a]; [| discriminate H].
      exists b. exact H.
  - cbn [Py.contains]. rewrite orb_true_iff, startswith_spec, IH. split.
    + intros [[b H] | [a [b H]]].
      * exists EmptyString, b. exact H.
      * exists (String c a), b. rewrite H. reflexivity.
    + intros [a [b H]]. destruct a as [| x a].
      * left. exists b. exact H.
      * right. injection H as _ H. exists a, b. exact H.
Qed.


Lemma split_length :
  forall (c : ascii) (s : string), (1 <= length (Py.split c s))%nat.
Proof.
  intros c s. induction s as [| d s IH]; simpl.
  - lia.
  - destruct (Ascii.eqb d c); simpl; [lia |].
    destruct (Py.split c s); simpl in *; lia.
Qed.

Lemma split_one_line :
  forall (c : ascii) (s : string), Py.count c s = 0 -> Py.split c s = [s].
Proof.
  intros c s. induction s as [| d s IH]; simpl; intros H.
  - reflexivity.
  - pose proof (count_nonneg c s).
    destruct (Ascii.eqb d c); [lia |].
    rewrite IH by lia. reflexivity.
Qed.

(** ** The matcher on the head patterns *)

Example rust_head_match :
  map shown (Re.finditer Pat.rust_regex "pub(crate) fn foo<T>(x: T) -> u32 { x }")
  = [(0%nat, 35%nat, Some "pub(crate) fn foo<T>(x: T) -> u32 {", None)].
Proof. vm_compute. reflexivity. Qed.

Example move_head_match :
  map shown (Re.finditer Pat.move_regex move_declaration)
  = [(0%nat, 23%nat, Some "native fun bar(x: u64);", Some "bar")].
Proof. vm_compute. reflexivity. Qed.

(** The greedy [.*] of the Go pattern runs to the last brace of the line. *)
Example go_head_match :
  map shown (Re.finditer Pat.go_regex go_two_braces)
  = [(0%nat, 17%nat, None, None)].
Proof. vm_compute. reflexivity. Qed.

(** The lazy [.*?] of the Python pattern stops at the first parenthesis. *)
Example python_head_match :
  map shown (Re.finditer Pat.python_regex "def f(a, b) -> int: g(c)")
  = [(0%nat, 19%nat, Some "f", Some "a, b")].
Proof. vm_compute. reflexivity. Qed.

(** The name pattern takes the first [fn] at a word boundary. *)
Example fn_name_match :
  option_map shown (Re.search Pat.fn_name_regex "pub(xfn a, fn x) fn foo() {")
  = Some (11%nat, 15%nat, Some "x", None).
Proof. vm_compute. reflexivity. Qed.

(** ** The offset lookup *)

(** The generator is exhausted exactly when no line starts after [off]. *)
Lemma first_after_none :
  forall (ls : list (nat * nat)) (off : nat),
    LineIndex.first_after ls off = None
    <-> Forall (fun e => (snd e <= off)%nat) ls.
Proof.
  intros ls off. unfold LineIndex.first_after.
  induction ls as [| e ls IH]; simpl.
  - split; [constructor | reflexivity].
  - destruct (Nat.ltb off (snd e)) eqn:Hlt; simpl.
    + apply Nat.ltb_lt in Hlt. split; [discriminate |].
      intros H. inversion H; subst. lia.
    + apply Nat.ltb_ge in Hlt. rewrite IH. split.
      * intros H. constructor; assumption.
      * intros H. inversion H; assumption.
Qed.

(** Line 0 starts at offset 0, so the lookup never answers 0. *)
Lemma first_after_some :
  forall (lines : list string) (off i : nat),
    LineIndex.first_after (LineIndex.line_starts lines) off = Some i ->
    (1 <= i < length lines)%nat.
Proof.
  intros lines off i. unfold LineIndex.first_after, LineIndex.line_starts.
  destruct (find _ _) as [[k pos] |] eqn:Hfind; [| discriminate].
  simpl. intros H. injection H as <-.
  apply find_some in Hfind. destruct Hfind as [Hin Hlt].
  apply in_map_iff in Hin. destruct Hin as [j [Heq Hj]].
  injection Heq as -> <-. apply in_seq in Hj.
  simpl in Hlt. apply Nat.ltb_lt in Hlt.
  destruct k as [| k]; [simpl in Hlt; lia | lia].
Qed.

Lemma next_ok :
  forall (lines : list string) (off : nat) (i : Z),
    LineIndex.next (LineIndex.line_starts lines) off = Ok i ->
    1 <= i < Z.of_nat (length lines).
Proof.
  intros lines off i. unfold LineIndex.next.
  destruct (LineIndex.first_after _ _) as [k |] eqn:Hk; [| discriminate].
  intros H. injection H as <-. apply first_after_some in Hk. lia.
Qed.

Lemma next_one_line :
  forall (text : string) (off : nat),
    Py.count Py.NL text = 0 ->
    LineIndex.next (LineIndex.line_starts (Py.split Py.NL text)) off
    = Raise StopIteration.
Proof.
  intros text off H. rewrite split_one_line by exact H. reflexivity.
Qed.

(** C3.  The lookup without default raises on an offset of the last line,
    and the scanners raise with it: a well-formed Rust or Go function that
    is the whole one-line text ends the scan with [StopIteration]. *)
Theorem head_on_last_line_raises :
  forall (filename : string) (hash : Z),
    LineIndex.next (LineIndex.line_starts (Py.split Py.NL "fn foo() {}")) 0
      = Raise StopIteration /\
    find_rust_functions "fn foo() {}" filename hash = Raise StopIteration /\
    find_go_functions "func Foo() {}" filename hash = Raise StopIteration.
Proof.
  intros filename hash. repeat split; vm_compute; reflexivity.
Qed.

(** X1.  On a text without a newline every lookup raises, and so does the
    Rust, the Go and the Cairo scan as soon as one head matches. *)
Theorem one_line_text_raises :
  forall (text filename : string) (hash : Z),
    Py.count Py.NL text = 0 ->
    (Re.finditer Pat.rust_regex text <> [] ->
     find_rust_functions text filename hash = Raise StopIteration) /\
    (Re.finditer Pat.go_regex text <> [] ->
     find_go_functions text filename hash = Raise StopIteration) /\
    (Re.finditer Pat.cairo_regex text <> [] ->
     find_cairo_functions text filename hash = Raise StopIteration).
Proof.
  intros text filename hash H. split; [| split]; intros Hm.
  - unfold find_rust_functions.
    destruct (Re.finditer Pat.rust_regex text) as [| m ms]; [congruence |].
    cbn [rust_loop]. rewrite next_one_line by exact H. reflexivity.
  - unfold find_go_functions.
    destruct (Re.finditer Pat.go_regex text) as [| m ms]; [congruence |].
    cbn [go_loop]. rewrite next_one_line by exact H. reflexivity.
  - unfold find_cairo_functions.
    destruct (Re.finditer Pat.cairo_regex text) as [| m ms]; [congruence |].
    cbn [cairo_loop]. rewrite next_one_line by exact H. reflexivity.
Qed.

Lemma one_line_text_raises_witness :
  find_cairo_functions "fn foo() {}" "a.cairo" 0 = Raise StopIteration.
Proof.
  apply (one_line_text_raises "fn foo() {}" "a.cairo" 0).
  - vm_compute. reflexivity.
  - vm_compute. discriminate.
Defined.

(** ** Brace counting *)

Lemma step_cases :
  forall (c : ascii) (d : Z),
    Braces.step c d
    = d + (if Ascii.eqb c Pat.c_open then 1 else 0)
        - (if Ascii.eqb c Pat.c_close then 1 else 0).
Proof.
  intros c d. unfold Braces.step.
  destruct (Ascii.eqb c Pat.c_open) eqn:Ho.
  - apply Ascii.eqb_eq in Ho. subst c. simpl. lia.
  - destruct (Ascii.eqb c Pat.c_close); lia.
Qed.

Lemma step_positive :
  forall (c : ascii) (d : Z),
    0 < d -> Braces.step c d <> 0 -> 0 < Braces.step c d.
Proof.
  intros c d Hd. rewrite step_cases.
  destruct (Ascii.eqb c Pat.c_open), (Ascii.eqb c Pat.c_close); lia.
Qed.

Lemma depth_imbalance :
  forall (s : string) (d : Z), depth s d = d + imbalance s.
Proof.
  unfold imbalance.
  induction s as [| c s IH]; intros d; simpl.
  - lia.
  - rewrite IH, step_cases. lia.
Qed.

(** From a positive counter the loop of the Go scanner and the loop of the
    other scanners stop at the same offset. *)
Lemma scan_go_scan :
  forall (s : string) (i : nat) (d : Z),
    0 < d -> Braces.scan_go s i d = Braces.scan s i d.
Proof.
  induction s as [| c s IH]; intros i d Hd; simpl.
  - reflexivity.
  - unfold Braces.step.
    destruct (Ascii.eqb c Pat.c_open).
    + destruct (d + 1 =? 0) eqn:Hz; [lia |]. apply IH. lia.
    + destruct (Ascii.eqb c Pat.c_close).
      * destruct (d - 1 =? 0) eqn:Hz; [reflexivity |]. apply IH. lia.
      * destruct (d =? 0) eqn:Hz; [lia |]. apply IH. lia.
Qed.

(** The loop stops after the first character that brings the counter to
    zero. *)
Lemma scan_some :
  forall (s : string) (i : nat) (d : Z) (e : nat),
    0 < d ->
    Braces.scan s i d = Some e ->
    exists k : nat,
      e = (i + S k)%nat /\ (S k <= Py.len s)%nat /\
      depth (substring 0 (S k) s) d = 0 /\
      forall j : nat, (j <= k)%nat -> 0 < depth (substring 0 j s) d.
Proof.
  induction s as [| c s IH]; intros i d e Hd H; simpl in H.
  - discriminate H.
  - destruct (Braces.step c d =? 0) eqn:Hz.
    + injection H as <-. exists 0%nat. apply Z.eqb_eq in Hz.
      repeat split.
      * lia.
      * unfold Py.len. simpl. lia.
      * destruct s; simpl; exact Hz.
      * intros j Hj. assert (j = 0%nat) by lia. subst j. simpl. exact Hd.
    + apply Z.eqb_neq in Hz.
      pose proof (step_positive c d Hd Hz) as Hd'.
      destruct (IH (S i) (Braces.step c d) e Hd' H) as [k [He [Hlen [Hzero Hpos]]]].
      exists (S k). repeat split.
      * lia.
      * unfold Py.len in *. simpl. lia.
      * simpl. exact Hzero.
      * intros j Hj. destruct j as [| j]; simpl; [exact Hd |].
        apply Hpos. lia.
Qed.

(** The loop runs off the text exactly when the counter stays positive. *)
Lemma scan_none :
  forall (s : string) (i : nat) (d : Z),
    0 < d ->
    Braces.scan s i d = None ->
    forall j : nat, 0 < depth (substring 0 j s) d.
Proof.
  induction s as [| c s IH]; intros i d Hd H j; simpl in H.
  - destruct j; simpl; exact Hd.
  - destruct (Braces.step c d =? 0) eqn:Hz; [discriminate H |].
    apply Z.eqb_neq in Hz.
    pose proof (step_positive c d Hd Hz) as Hd'.
    destruct j as [| j]; simpl; [exact Hd |].
    apply (IH (S i)); assumption.
Qed.

(** X2.  When the loop started after a head [text[a:b]] stops at [e], the
    content [text[a:e]] has one unmatched opening brace fewer than the
    head, and inside the body the counter is positive before the final
    character.  A head with a single opening brace and no closing one
    gives a balanced content. *)
Theorem closed_body_balance :
  forall (text : string) (a b e : nat),
    (a <= b)%nat ->
    Braces.scan (Py.drop b text) b 1 = Some e ->
    imbalance (Py.slice a e text) = imbalance (Py.slice a b text) - 1 /\
    (b < e)%nat /\
    depth (Py.slice b e text) 1 = 0 /\
    forall j : nat, (b <= j < e)%nat -> 0 < depth (Py.slice b j text) 1.
Proof.
  intros text a b e Hab H.
  apply scan_some in H; [| lia].
  destruct H as [k [-> [Hlen [Hzero Hpos]]]].
  split; [| split; [| split]].
  - rewrite (slice_split a b (b + S k) text) by lia.
    replace (b + S k - b)%nat with (S k) by lia.
    unfold imbalance. rewrite !count_app.
    rewrite depth_imbalance in Hzero. unfold imbalance in Hzero. lia.
  - lia.
  - unfold Py.slice. rewrite substring_drop.
    replace (b + S k - b)%nat with (S k) by lia. exact Hzero.
  - intros j Hj. unfold Py.slice. rewrite substring_drop.
    apply Hpos. lia.
Qed.

Lemma closed_body_balance_witness :
  imbalance (Py.slice 0 11 rust_one_line)
  = imbalance (Py.slice 0 10 rust_one_line) - 1.
Proof.
  apply (closed_body_balance rust_one_line 0 10 11).
  - lia.
  - vm_compute. reflexivity.
Defined.

(** C7.  When the head line of a Go function opens two braces, the record
    content holds two opening braces and one closing brace. *)
Theorem go_content_unbalanced :
  forall (filename : string) (hash : Z),
    exists r,
      find_go_functions go_two_braces filename hash = Ok [r]
      /\ content r = "func f() { if x {" ++ Py.nl ++ "}"
      /\ Py.count Pat.c_open (content r) = 2
      /\ Py.count Pat.c_close (content r) = 1.
Proof.
  intros filename hash. eexists.
  split; [vm_compute; reflexivity | vm_compute; auto].
Qed.

(** ** Line numbers of the records *)

(** C1.  The invariant [start_line <= end_line] fails on the code: a
    function written on one line gets [start_line = 1] and [end_line = 0]
    from the Go, the Rust and the Cairo scanner, and so does a Move
    declaration, whose [end_line] is the 0-based index the 1-based
    [start_line] is computed from. *)
Theorem end_line_before_start_line :
  forall (filename : string) (hash : Z),
    (exists r, find_go_functions go_one_line filename hash = Ok [r]
               /\ start_line r = 1 /\ end_line r = 0) /\
    (exists r, find_move_functions move_declaration_line filename hash = Ok [r]
               /\ modifiers r = ["native"]
               /\ start_line r = 1 /\ end_line r = 0) /\
    (exists r, find_rust_functions rust_one_line filename hash = Ok [r]
               /\ start_line r = 1 /\ end_line r = 0) /\
    (exists r, find_cairo_functions rust_one_line filename hash = Ok [r]
               /\ start_line r = 1 /\ end_line r = 0).
Proof.
  intros filename hash.
  repeat split; eexists; (split; [vm_compute; reflexivity | vm_compute; auto]).
Qed.

(** C4.  On the three-line Go example the scanner returns one record with
    [start_line = 1] and [node_count = 3], but [end_line = 2], not 3. *)
Theorem go_example_end_line :
  forall (filename : string) (hash : Z),
    exists r,
      find_go_functions go_three_lines filename hash = Ok [r]
      /\ start_line r = 1 /\ end_line r = 2 /\ node_count r = 3.
Proof.
  intros filename hash. eexists.
  split; [vm_compute; reflexivity | vm_compute; auto].
Qed.

(** C5.  On the Move declaration followed by a newline the scanner returns
    one record tagged [native] with the head as content and
    [node_count = 1], but [start_line = 1] and [end_line = 0]; on the
    declaration alone it raises [StopIteration]. *)
Theorem move_declaration_record :
  forall (filename : string) (hash : Z),
    (exists r,
       find_move_functions move_declaration_line filename hash = Ok [r]
       /\ modifiers r = ["native"]
       /\ content r = move_declaration
       /\ node_count r = 1
       /\ start_line r = 1 /\ end_line r = 0) /\
    find_move_functions move_declaration filename hash = Raise StopIteration.
Proof.
  intros filename hash. split.
  - eexists. split; [vm_compute; reflexivity | vm_compute; auto 6].
  - vm_compute. reflexivity.
Qed.

(** One turn of the Move loop: a record is appended, and for a declaration
    it holds the head and is one line short. *)
Lemma move_loop_cons :
  forall (text filename : string) (hash : Z) (cc : string) (m : Re.match_)
         (ms : list Re.match_) (locals : move_locals)
         (acc out : list FunctionRecord),
    move_loop text filename hash cc (m :: ms) locals acc = Ok out ->
    exists (locals' : move_locals) (r : FunctionRecord),
      move_loop text filename hash cc ms locals' (acc ++ [r]) = Ok out /\
      forall head : string,
        Re.group 1 m = Some head -> is_declaration head = true ->
        content r = head /\ one_line_short r.
Proof.
  intros text filename hash cc m ms locals acc out H.
  cbn [move_loop] in H.
  destruct (LineIndex.next _ _) as [i | e]; [| discriminate H].
  cbn [bind] in H.
  unfold group_str in H at 1.
  destruct (Re.group 1 m) as [head |] eqn:Hg; [| discriminate H].
  cbn [of_option bind] in H.
  destruct (move_bind text m (i - 1) head locals) as [locals' | e] eqn:Hb;
    [| discriminate H].
  cbn [bind] in H.
  destruct (group_str _ 2 m) as [nm | e]; [| discriminate H].
  cbn [bind] in H.
  destruct (read_local "end_line_number" _) as [el | e] eqn:Hel; [| discriminate H].
  cbn [bind] in H.
  destruct (read_local "function_body" _) as [fb | e] eqn:Hfb; [| discriminate H].
  cbn [bind] in H.
  destruct (read_local "function_body_lines" _) as [fl | e] eqn:Hfl; [| discriminate H].
  cbn [bind] in H.
  exists locals'. eexists. split; [exact H |].
  intros head' Hhead Hdecl. injection Hhead as <-.
  unfold move_bind in Hb. rewrite Hdecl in Hb. injection Hb as <-.
  cbn in Hel, Hfb, Hfl.
  injection Hel as <-. injection Hfb as <-. injection Hfl as <-.
  unfold one_line_short.
  cbn [content node_count start_line end_line]. repeat split. lia.
Qed.

Lemma move_loop_app :
  forall (text filename : string) (hash : Z) (cc : string)
         (ms : list Re.match_) (locals : move_locals)
         (acc out : list FunctionRecord),
    move_loop text filename hash cc ms locals acc = Ok out ->
    exists new : list FunctionRecord,
      out = (acc ++ new)%list /\ length new = length ms.
Proof.
  intros text filename hash cc ms.
  induction ms as [| m ms IH]; intros locals acc out H.
  - injection H as <-. exists []. rewrite app_nil_r. split; reflexivity.
  - apply move_loop_cons in H. destruct H as [locals' [r [H _]]].
    apply IH in H. destruct H as [new [-> Hlen]].
    exists (r :: new). rewrite <- app_assoc. split; [reflexivity |].
    simpl. lia.
Qed.

Lemma move_loop_nth :
  forall (text filename : string) (hash : Z) (cc : string)
         (ms : list Re.match_) (locals : move_locals)
         (acc out : list FunctionRecord) (n : nat) (m : Re.match_)
         (head : string),
    move_loop text filename hash cc ms locals acc = Ok out ->
    nth_error ms n = Some m ->
    Re.group 1 m = Some head -> is_declaration head = true ->
    exists r : FunctionRecord,
      nth_error out (length acc + n) = Some r /\
      content r = head /\ one_line_short r.
Proof.
  intros text filename hash cc ms.
  induction ms as [| m0 ms IH]; intros locals acc out n m head H Hn Hg Hd.
  - destruct n; discriminate Hn.
  - apply move_loop_cons in H. destruct H as [locals' [r [H Hr]]].
    destruct n as [| n].
    + injection Hn as ->.
      apply move_loop_app in H. destruct H as [new [-> _]].
      exists r. split; [| apply Hr; assumption].
      rewrite <- app_assoc, nth_error_app2 by lia.
      replace (length acc + 0 - length acc)%nat with 0%nat by lia.
      reflexivity.
    + destruct (IH _ _ _ n m head H Hn Hg Hd) as [r' [Hnth Hr']].
      exists r'. split; [| exact Hr'].
      rewrite length_app in Hnth. simpl in Hnth.
      replace (length acc + S n)%nat with (length acc + 1 + n)%nat by lia.
      exact Hnth.
Qed.

(** X3.  Whenever the Move scanner returns, the record of a declaration
    head holds the head as content, counts one line, and has an [end_line]
    one below its [start_line]. *)
Theorem move_declaration_lines :
  forall (text filename : string) (hash : Z) (out : list FunctionRecord)
         (n : nat) (m : Re.match_) (head : string),
    find_move_functions text filename hash = Ok out ->
    nth_error (Re.finditer Pat.move_regex text) n = Some m ->
    Re.group 1 m = Some head ->
    is_declaration head = true ->
    exists r : FunctionRecord,
      nth_error out n = Some r /\ content r = head /\ one_line_short r.
Proof.
  intros text filename hash out n m head H Hn Hg Hd.
  unfold find_move_functions in H.
  destruct (move_function_bodies _ _) as [bodies | e]; [| discriminate H].
  cbn [bind] in H.
  exact (move_loop_nth text filename hash _ _ unbound [] out n m head H Hn Hg Hd).
Qed.

Lemma move_declaration_lines_witness :
  exists out : list FunctionRecord,
    find_move_functions move_declaration_line "a.move" 0 = Ok out /\
    exists r : FunctionRecord,
      nth_error out 0 = Some r /\ content r = move_declaration
      /\ one_line_short r.
Proof.
  eexists. split; [vm_compute; reflexivity |].
  eapply (move_declaration_lines move_declaration_line "a.move" 0).
  - vm_compute. reflexivity.
  - vm_compute. reflexivity.
  - vm_compute. reflexivity.
  - vm_compute. reflexivity.
Defined.

(** ** Heads whose brace never closes *)

Lemma rust_loop_contents :
  forall (text filename : string) (hash : Z) (cc : string)
         (ms : list Re.match_) (acc out : list FunctionRecord),
    rust_loop text filename hash cc ms acc = Ok out ->
    map content out = (map content acc ++ rust_function_bodies text ms)%list.
Proof.
  intros text filename hash cc ms.
  induction ms as [| m ms IH]; intros acc out H.
  - injection H as <-. simpl. rewrite app_nil_r. reflexivity.
  - cbn [rust_loop rust_function_bodies] in *.
    destruct (LineIndex.next _ _) as [i | e]; [| discriminate H].
    cbn [bind] in H.
    destruct (Braces.scan _ _ _) as [fe |].
    + destruct (group_str _ 1 m) as [head | e]; [| discriminate H].
      cbn [bind] in H.
      destruct (of_option _ _) as [found | e]; [| discriminate H].
      cbn [bind] in H.
      destruct (group_str _ 1 found) as [nm | e]; [| discriminate H].
      cbn [bind] in H.
      apply IH in H. rewrite H, map_app, <- app_assoc. reflexivity.
    + apply IH in H. exact H.
Qed.

Lemma cairo_loop_contents :
  forall (text filename : string) (hash : Z)
         (ms : list Re.match_) (acc out : list FunctionRecord),
    cairo_loop text filename hash ms acc = Ok out ->
    map content out = (map content acc ++ cairo_function_bodies text ms)%list.
Proof.
  intros text filename hash ms.
  induction ms as [| m ms IH]; intros acc out H.
  - injection H as <-. simpl. rewrite app_nil_r. reflexivity.
  - cbn [cairo_loop cairo_function_bodies] in *.
    destruct (LineIndex.next _ (Re.m_start m)) as [i | e]; [| discriminate H].
    cbn [bind] in H.
    destruct (Braces.scan _ _ _) as [fe |].
    + destruct (LineIndex.next _ fe) as [j | e]; [| discriminate H].
      cbn [bind] in H.
      destruct (group_str _ 1 m) as [head | e]; [| discriminate H].
      cbn [bind] in H.
      destruct (of_option _ _) as [found | e]; [| discriminate H].
      cbn [bind] in H.
      destruct (group_str _ 1 found) as [nm | e]; [| discriminate H].
      cbn [bind] in H.
      apply IH in H. rewrite H, map_app, <- app_assoc. reflexivity.
    + apply IH in H. exact H.
Qed.

(** X4.  Whenever the Rust or the Cairo scanner returns, the contents of
    its records are the bodies whose braces close, in match order: a head
    whose brace never closes leaves no record and stops nothing. *)
Theorem closed_bodies_only :
  forall (text filename : string) (hash : Z) (out : list FunctionRecord),
    (find_rust_functions text filename hash = Ok out ->
     map content out
     = rust_function_bodies text (Re.finditer Pat.rust_regex text)) /\
    (find_cairo_functions text filename hash = Ok out ->
     map content out
     = cairo_function_bodies text (Re.finditer Pat.cairo_regex text)).
Proof.
  intros text filename hash out. split; intros H.
  - unfold find_rust_functions in H.
    apply rust_loop_contents in H. exact H.
  - unfold find_cairo_functions in H.
    apply cairo_loop_contents in H. exact H.
Qed.

Lemma closed_bodies_only_witness :
  exists out : list FunctionRecord,
    find_rust_functions rust_unclosed_then_closed "a.rs" 0 = Ok out /\
    map content out = ["fn g() { }"] /\
    length (Re.finditer Pat.rust_regex rust_unclosed_then_closed) = 2%nat.
Proof.
  eexists. split; [vm_compute; reflexivity |]. split.
  - rewrite (proj1 (closed_bodies_only rust_unclosed_then_closed "a.rs" 0 _)).
    + vm_compute. reflexivity.
    + vm_compute. reflexivity.
  - vm_compute. reflexivity.
Defined.

(** One turn of the Go loop: a record is appended, and for a head whose
    brace never closes it is empty and one line short. *)
Lemma go_loop_cons :
  forall (text filename : string) (hash : Z) (m : Re.match_)
         (ms : list Re.match_) (acc out : list FunctionRecord),
    go_loop text filename hash (m :: ms) acc = Ok out ->
    exists r : FunctionRecord,
      go_loop text filename hash ms (acc ++ [r]) = Ok out /\
      (Braces.scan_go (Py.drop (Re.m_end m) text) (Re.m_end m) 1 = None ->
       content r = EmptyString /\ one_line_short r).
Proof.
  intros text filename hash m ms acc out H.
  cbn [go_loop] in H.
  destruct (LineIndex.next _ (Re.m_start m)) as [i | e] eqn:Hi; [| discriminate H].
  cbn [bind] in H.
  destruct (Braces.scan_go _ _ _) as [fe |] eqn:Hscan.
  - destruct (LineIndex.next _ fe) as [j | e]; [| discriminate H].
    cbn [bind] in H. eexists. split; [exact H |].
    intros Hnone. discriminate Hnone.
  - rewrite Hi in H. cbn [bind] in H. eexists. split; [exact H |].
    intros _. unfold one_line_short.
    cbn [content node_count start_line end_line].
    unfold Py.slice. rewrite Nat.sub_diag, substring_zero.
    repeat split. lia.
Qed.

Lemma go_loop_app :
  forall (text filename : string) (hash : Z) (ms : list Re.match_)
         (acc out : list FunctionRecord),
    go_loop text filename hash ms acc = Ok out ->
    exists new : list FunctionRecord,
      out = (acc ++ new)%list /\ length new = length ms.
Proof.
  intros text filename hash ms.
  induction ms as [| m ms IH]; intros acc out H.
  - injection H as <-. exists []. rewrite app_nil_r. split; reflexivity.
  - apply go_loop_cons in H. destruct H as [r [H _]].
    apply IH in H. destruct H as [new [-> Hlen]].
    exists (r :: new). rewrite <- app_assoc. split; [reflexivity |].
    simpl. lia.
Qed.

Lemma go_loop_nth :
  forall (text filename : string) (hash : Z) (ms : list Re.match_)
         (acc out : list FunctionRecord) (n : nat) (m : Re.match_),
    go_loop text filename hash ms acc = Ok out ->
    nth_error ms n = Some m ->
    Braces.scan_go (Py.drop (Re.m_end m) text) (Re.m_end m) 1 = None ->
    exists r : FunctionRecord,
      nth_error out (length acc + n) = Some r /\
      content r = EmptyString /\ one_line_short r.
Proof.
  intros text filename hash ms.
  induction ms as [| m0 ms IH]; intros acc out n m H Hn Hscan.
  - destruct n; discriminate Hn.
  - apply go_loop_cons in H. destruct H as [r [H Hr]].
    destruct n as [| n].
    + injection Hn as ->.
      apply go_loop_app in H. destruct H as [new [-> _]].
      exists r. split; [| apply Hr; exact Hscan].
      rewrite <- app_assoc, nth_error_app2 by lia.
      replace (length acc + 0 - length acc)%nat with 0%nat by lia.
      reflexivity.
    + destruct (IH _ _ n m H Hn Hscan) as [r' [Hnth Hr']].
      exists r'. split; [| exact Hr'].
      rewrite length_app in Hnth. simpl in Hnth.
      replace (length acc + S n)%nat with (length acc + 1 + n)%nat by lia.
      exact Hnth.
Qed.

(** X5.  Whenever the Go scanner returns, it returns one record for every
    head it matches, and the record of a head whose brace never closes has
    empty content and an [end_line] one below its [start_line]. *)
Theorem go_record_per_match :
  forall (text filename : string) (hash : Z) (out : list FunctionRecord),
    find_go_functions text filename hash = Ok out ->
    length out = length (Re.finditer Pat.go_regex text) /\
    forall (n : nat) (m : Re.match_),
      nth_error (Re.finditer Pat.go_regex text) n = Some m ->
      Braces.scan_go (Py.drop (Re.m_end m) text) (Re.m_end m) 1 = None ->
      exists r : FunctionRecord,
        nth_error out n = Some r /\
        content r = EmptyString /\ one_line_short r.
Proof.
  intros text filename hash out H. unfold find_go_functions in H. split.
  - apply go_loop_app in H. destruct H as [new [-> Hlen]]. exact Hlen.
  - intros n m Hn Hscan.
    exact (go_loop_nth text filename hash _ [] out n m H Hn Hscan).
Qed.

Lemma go_record_per_match_witness :
  exists out : list FunctionRecord,
    find_go_functions go_unclosed "a.go" 0 = Ok out /\
    length out = length (Re.finditer Pat.go_regex go_unclosed).
Proof.
  eexists. split; [vm_compute; reflexivity |].
  apply (go_record_per_match go_unclosed "a.go" 0).
  vm_compute. reflexivity.
Defined.

(** X6.  Whenever the Move scanner returns, it returns one record for
    every head it matches: a head whose brace never closes is not left
    out. *)
Theorem move_record_per_match :
  forall (text filename : string) (hash : Z) (out : list FunctionRecord),
    find_move_functions text filename hash = Ok out ->
    length out = length (Re.finditer Pat.move_regex text).
Proof.
  intros text filename hash out H. unfold find_move_functions in H.
  destruct (move_function_bodies _ _) as [bodies | e]; [| discriminate H].
  cbn [bind] in H.
  apply move_loop_app in H. destruct H as [new [-> Hlen]]. exact Hlen.
Qed.

Lemma move_record_per_match_witness :
  exists out : list FunctionRecord,
    find_move_functions move_closed_then_unclosed "a.move" 0 = Ok out /\
    length out = length (Re.finditer Pat.move_regex move_closed_then_unclosed).
Proof.
  eexists. split; [vm_compute; reflexivity |].
  apply (move_record_per_match move_closed_then_unclosed "a.move" 0).
  vm_compute. reflexivity.
Defined.

(** C6.  A head whose brace never closes is not dropped by the Go and the
    Move scanner.  Go appends a record with empty content; Move raises
    [UnboundLocalError] when the head is the first match, and otherwise
    appends a record that repeats the content of the previous one. *)
Theorem unclosed_head_not_dropped :
  forall (filename : string) (hash : Z),
    (exists r, find_go_functions go_unclosed filename hash = Ok [r]
               /\ content r = EmptyString) /\
    find_move_functions move_unclosed filename hash
      = Raise (UnboundLocalError "end_line_number") /\
    (exists r1 r2,
       find_move_functions move_closed_then_unclosed filename hash = Ok [r1; r2]
       /\ name r1 = "special_g" /\ name r2 = "special_f"
       /\ content r1 = "fun g() { }" /\ content r2 = "fun g() { }").
Proof.
  intros filename hash. split; [| split].
  - eexists. split; [vm_compute; reflexivity | vm_compute; auto].
  - vm_compute. reflexivity.
  - do 2 eexists. split; [vm_compute; reflexivity | vm_compute; auto 6].
Qed.

(** ** The Python scanner *)

Lemma body_end_ge :
  forall (rest : list string) (e indent_level : Z),
    e <= body_end rest e indent_level.
Proof.
  induction rest as [| l rest IH]; intros e indent_level; simpl.
  - lia.
  - destruct (Py.truthy (Py.strip l) && (indent l <=? indent_level))%bool.
    + lia.
    + specialize (IH (e + 1) indent_level). lia.
Qed.

Lemma python_loop_app :
  forall (text filename : string) (hash_value : Z) (ms : list Re.match_)
         (acc out : list FunctionRecord),
    python_loop text filename hash_value ms acc = Ok out ->
    exists new : list FunctionRecord,
      out = (acc ++ new)%list /\ length new = length ms /\
      Forall lines_ordered new.
Proof.
  intros text filename hash_value ms.
  induction ms as [| m ms IH]; intros acc out H.
  - injection H as <-. exists []. rewrite app_nil_r. repeat split. constructor.
  - cbn [python_loop] in H.
    destruct (LineIndex.next _ _) as [i | e] eqn:Hi; [| discriminate H].
    cbn [bind] in H.
    destruct (PyList.getitem _ _) as [hl | e]; [| discriminate H].
    cbn [bind] in H.
    destruct (group_str _ 1 m) as [nm | e]; [| discriminate H].
    cbn [bind] in H.
    apply IH in H. destruct H as [new [-> [Hlen HP]]].
    eexists (_ :: new). rewrite <- app_assoc. split; [reflexivity |].
    split; [simpl; lia |].
    constructor; [| exact HP].
    unfold lines_ordered. cbn [start_line end_line].
    apply next_ok in Hi.
    match goal with
    | |- context [body_end ?r ?e ?n] => pose proof (body_end_ge r e n)
    end.
    lia.
Qed.

(** X7.  Every record of the Python scanner has
    [1 <= start_line <= end_line]. *)
Theorem python_lines_ordered :
  forall (text filename : string) (hash_value : Z) (out : list FunctionRecord),
    find_python_functions text filename hash_value = Ok out ->
    Forall lines_ordered out.
Proof.
  intros text filename hash_value out.
  unfold find_python_functions.
  destruct (Re.finditer Pat.python_regex text) as [| m ms]; cbn [PyList.any_matches].
  - intros H. injection H as <-. constructor; [| constructor].
    unfold lines_ordered. cbn [start_line end_line whole_file_record].
    pose proof (split_length Py.NL text). lia.
  - intros H. apply python_loop_app in H.
    destruct H as [new [-> [_ HP]]]. exact HP.
Qed.

Lemma python_lines_ordered_witness :
  exists out : list FunctionRecord,
    find_python_functions python_two_defs "a.py" 0 = Ok out /\
    Forall lines_ordered out.
Proof.
  eexists. split; [vm_compute; reflexivity |].
  apply (python_lines_ordered python_two_defs "a.py" 0).
  vm_compute. reflexivity.
Defined.

(** X8.  Whenever the Python scanner returns, it returns one record fewer
    than there are headers, and the single whole-file record when there is
    none. *)
Theorem python_record_count :
  forall (text filename : string) (hash_value : Z) (out : list FunctionRecord),
    find_python_functions text filename hash_value = Ok out ->
    length out
    = match Re.finditer Pat.python_regex text with
      | [] => 1%nat
      | _ :: rest => length rest
      end.
Proof.
  intros text filename hash_value out.
  unfold find_python_functions.
  destruct (Re.finditer Pat.python_regex text) as [| m ms]; cbn [PyList.any_matches].
  - intros H. injection H as <-. reflexivity.
  - intros H. apply python_loop_app in H.
    destruct H as [new [-> [Hlen _]]]. simpl. exact Hlen.
Qed.

Lemma python_record_count_witness :
  exists out : list FunctionRecord,
    find_python_functions python_two_defs "a.py" 0 = Ok out /\
    length out = 1%nat /\
    length (Re.finditer Pat.python_regex python_two_defs) = 2%nat.
Proof.
  eexists. split; [vm_compute; reflexivity |]. split.
  - rewrite (python_record_count python_two_defs "a.py" 0 _).
    + vm_compute. reflexivity.
    + vm_compute. reflexivity.
  - vm_compute. reflexivity.
Defined.

(** C2.  A text with exactly one [def] header yields the empty list: the
    result is empty on a non-empty text, and the one match has no record. *)
Theorem python_one_def_no_record :
  forall (filename : string) (hash_value : Z),
    python_one_def <> EmptyString /\
    length (Re.finditer Pat.python_regex python_one_def) = 1%nat /\
    find_python_functions python_one_def filename hash_value = Ok [].
Proof.
  intros filename hash_value. split; [discriminate | split].
  - vm_compute. reflexivity.
  - vm_compute. reflexivity.
Qed.

(** ** parse *)

Lemma ParserError_init_cons :
  forall (e : syntax_error) (rest : list syntax_error),
    ParserError_init (e :: rest)
    = Ok (ParserError (message e ++ " (" ++ Py.str (line e) ++ ":"
                       ++ Py.str (column e) ++ ")") (e :: rest)).
Proof. reflexivity. Qed.

(** The claim C9 fails when the visitor builds no root: the listener
    holds an error, the tolerant option is off, and [parse] raises the
    plain exception of the missing AST, not [ParserError]. *)
Lemma parse_without_root_no_ParserError :
  has_errors listener_one_error = true /\
  errors_tolerant strict_options = false /\
  parse antlr_one_error visit_nothing no_token_list no_file_system
    "contract C {" strict_options false "./out" tt
  = Raise (Exception "AST was not generated") /\
  ~ raises_ParserError
      (parse antlr_one_error visit_nothing no_token_list no_file_system
         "contract C {" strict_options false "./out" tt).
Proof.
  repeat split.
  intros [msg [errs H]]. vm_compute in H. discriminate H.
Qed.

(** With the tolerant option the same parse returns the root, the list in
    its [errors] field. *)
Example parse_tolerant_attaches :
  parse antlr_one_error visit_root no_token_list no_file_system
    "contract C {" tolerant_options false "./out" tt
  = Ok ({| ast := tt; su_errors := Some [one_error]; su_tokens := None |}, tt).
Proof. reflexivity. Qed.

(** Without it the parse raises, with the position in the message. *)
Example parse_strict_raises :
  parse antlr_one_error visit_root no_token_list no_file_system
    "contract C {" strict_options false "./out" tt
  = Raise (ParserError "mismatched input (3:14)" [one_error]).
Proof. vm_compute. reflexivity. Qed.

(** C9, amended.  When the visitor raises or returns [None], [parse]
    raises the plain exception of the missing AST, whatever the listener
    reports.  When the visitor builds a root and the token list, if asked
    for, is built, [parse] raises [ParserError] exactly when the listener
    reports errors, the list it hands over is not empty and the tolerant
    option is off; the exception carries the first error's message followed
    by its (line:column) and the whole list, and on an empty list the
    constructor of [ParserError] raises [IndexError] instead.  With the
    tolerant option on and errors reported, no [ParserError] is raised,
    every returned root has the list in its [errors] field, and without a
    dump the root is returned. *)
Theorem parse_error_reporting :
  forall (ParseTree TokenStream Token Ast World : Type)
         (antlr : string -> ParseTree * TokenStream * SGPErrorListener)
         (visit : SGPVisitorOptions -> ParseTree -> option (option (SourceUnit Token Ast)))
         (build_token_list : TokenStream -> SGPVisitorOptions -> option (list Token))
         (write_ast_json : string -> SourceUnit Token Ast -> World -> option World)
         (input_string : string) (options : SGPVisitorOptions)
         (dump_json : bool) (dump_path : string) (w : World)
         (tree : ParseTree) (token_stream : TokenStream)
         (listener : SGPErrorListener),
    antlr input_string = (tree, token_stream, listener) ->
    let outcome :=
      parse antlr visit build_token_list write_ast_json
            input_string options dump_json dump_path w in
    (visit options tree = None \/ visit options tree = Some None ->
     outcome = Raise (Exception "AST was not generated")) /\
    (forall root : SourceUnit Token Ast,
       visit options tree = Some (Some root) ->
       (tokens options = true ->
        build_token_list token_stream options <> None) ->
       (raises_ParserError outcome
        <-> has_errors listener = true /\ errors_tolerant options = false
            /\ get_errors listener <> []) /\
       (has_errors listener = true -> errors_tolerant options = false ->
        match get_errors listener with
        | [] => outcome = Raise IndexError
        | e :: _ =>
            outcome = Raise (ParserError
                               (message e ++ " (" ++ Py.str (line e) ++ ":"
                                ++ Py.str (column e) ++ ")")
                               (get_errors listener))
        end) /\
       (has_errors listener = true -> errors_tolerant options = true ->
        (forall (su : SourceUnit Token Ast) (w' : World),
           outcome = Ok (su, w') ->
           su_errors su = Some (get_errors listener)) /\
        (dump_json = false ->
         exists su : SourceUnit Token Ast,
           outcome = Ok (su, w) /\ ast su = ast root
           /\ su_errors su = Some (get_errors listener)))).
Proof.
  intros ParseTree TokenStream Token Ast World antlr visit build_token_list
         write_ast_json input_string options dump_json dump_path w tree
         token_stream listener Hantlr outcome.
  subst outcome. unfold parse. rewrite Hantlr. split.
  - (* no root: the exception of the missing AST, before the listener *)
    intros [Hvisit | Hvisit]; rewrite Hvisit; reflexivity.
  - intros root Hvisit Htokens. rewrite Hvisit. cbn [bind].
    assert (Hlist : exists token_list,
               (if tokens options
                then of_option (build_token_list token_stream options)
                               CollaboratorError
                else Ok []) = Ok token_list).
    { destruct (tokens options).
      - destruct (build_token_list token_stream options) as [l |].
        + exists l. reflexivity.
        + exfalso. apply Htokens; reflexivity.
      - exists []. reflexivity. }
    destruct Hlist as [token_list Hlist]. rewrite Hlist. cbn [bind].
    destruct (has_errors listener) eqn:Hhas;
      destruct (errors_tolerant options) eqn:Htol; cbn [negb andb].
    + (* errors reported, tolerant option on *)
      split; [| split].
      * split.
        -- intros [msg [errs H]].
           past_listener H options dump_json write_ast_json.
        -- intros [_ [H _]]. discriminate H.
      * intros _ H. discriminate H.
      * intros _ _. split.
        -- intros su w' H. past_listener H options dump_json write_ast_json;
             injection H as <- _; reflexivity.
        -- intros ->. destruct (tokens options); eexists; repeat split.
    + (* errors reported, tolerant option off *)
      unfold raise_ParserError.
      destruct (get_errors listener) as [| e rest] eqn:Hget.
      * (* the constructor reads errors[0] of an empty list *)
        cbn [ParserError_init].
        split; [| split].
        -- split.
           ++ intros [msg [errs H]]. discriminate H.
           ++ intros [_ [_ H]]. exfalso. apply H. reflexivity.
        -- intros _ _. reflexivity.
        -- intros _ H. discriminate H.
      * rewrite ParserError_init_cons.
        split; [| split].
        -- split.
           ++ intros _. repeat split. discriminate.
           ++ intros _. do 2 eexists. reflexivity.
        -- intros _ _. reflexivity.
        -- intros _ H. discriminate H.
    + (* no error, tolerant option on *)
      split; [| split]; [split |  |].
      * intros [msg [errs H]]. past_listener H options dump_json write_ast_json.
      * intros [H _]. discriminate H.
      * intros H. discriminate H.
      * intros H. discriminate H.
    + (* no error, tolerant option off *)
      split; [| split]; [split |  |].
      * intros [msg [errs H]]. past_listener H options dump_json write_ast_json.
      * intros [H _]. discriminate H.
      * intros H. discriminate H.
      * intros H. discriminate H.
Qed.

Lemma parse_error_reporting_witness :
  (raises_ParserError
     (parse antlr_one_error visit_root no_token_list no_file_system
        "contract C {" strict_options false "./out" tt)
   <-> has_errors listener_one_error = true
       /\ errors_tolerant strict_options = false
       /\ get_errors listener_one_error <> []) /\
  parse antlr_one_error visit_nothing no_token_list no_file_system
    "contract C {" tolerant_options false "./out" tt
  = Raise (Exception "AST was not generated").
Proof.
  split.
  - refine (proj1 (proj2 (parse_error_reporting unit unit unit unit unit
              antlr_one_error visit_root no_token_list no_file_system
              "contract C {" strict_options false "./out" tt
              tt tt listener_one_error eq_refl) bare_root eq_refl _)).
    intros H. discriminate H.
  - apply (proj1 (parse_error_reporting unit unit unit unit unit
              antlr_one_error visit_nothing no_token_list no_file_system
              "contract C {" tolerant_options false "./out" tt
              tt tt listener_one_error eq_refl)).
    right. reflexivity.
Defined.

(** ** The dispatcher *)

Example dispatch_go_file : dispatch "contracts/main.go" = SolidityVisitor.
Proof. reflexivity. Qed.


Example dispatch_priority : dispatch "build.py/lib.move" = PythonScanner.
Proof. reflexivity. Qed.


(** ** The spans of the matches *)

Lemma advances_refl : forall cu : Re.cursor, advances cu cu.
Proof. intros cu. split; lia. Qed.

Lemma advances_trans :
  forall cu1 cu2 cu3 : Re.cursor,
    advances cu1 cu2 -> advances cu2 cu3 -> advances cu1 cu3.
Proof. unfold advances. intros cu1 cu2 cu3 [H1 H2] [H3 H4]. split; lia. Qed.

(** Whatever the pattern, the continuation is entered at a cursor the
    matcher reached by consuming characters. *)
Lemma run_advances :
  forall (r : Re.regex) (cu : Re.cursor) (k : Re.cursor -> option Re.cursor)
         (out : Re.cursor),
    Re.run r cu k = Some out ->
    exists cu' : Re.cursor, k cu' = Some out /\ advances cu cu'.
Proof.
  induction r as [| p | r1 IH1 r2 IH2 | r1 IH1 r2 IH2 | greedy r1 IH1
                 | n r1 IH1 |]; intros cu k out H.
  - exists cu. split; [exact H | apply advances_refl].
  - simpl in H.
    destruct (Re.rest cu) as [| c s'] eqn:Hrest; [discriminate H |].
    destruct (p c); [| discriminate H].
    eexists. split; [exact H |].
    unfold advances, Py.len. simpl. rewrite Hrest. simpl. lia.
  - simpl in H. apply IH1 in H. destruct H as [cu1 [H Ha]].
    apply IH2 in H. destruct H as [cu2 [H Hb]].
    exists cu2. split; [exact H | eapply advances_trans; eassumption].
  - simpl in H. destruct (Re.run r1 cu k) as [o |] eqn:H1.
    + injection H as <-. apply IH1 in H1. exact H1.
    + apply IH2 in H. exact H.
  - pose (loop :=
      fix loop (fuel : nat) (cu0 : Re.cursor) {struct fuel} : option Re.cursor :=
        match fuel with
        | O => k cu0
        | S fuel' =>
            if greedy then
              match Re.run r1 cu0 (fun cu1 =>
                      if Nat.eqb (Re.pos cu1) (Re.pos cu0) then None
                      else loop fuel' cu1) with
              | Some o => Some o
              | None => k cu0
              end
            else
              match k cu0 with
              | Some o => Some o
              | None =>
                  Re.run r1 cu0 (fun cu1 =>
                    if Nat.eqb (Re.pos cu1) (Re.pos cu0) then None
                    else loop fuel' cu1)
              end
        end).
    change (loop (S (Py.len (Re.rest cu))) cu = Some out) in H.
    revert H. generalize (S (Py.len (Re.rest cu))). intros fuel. revert cu.
    induction fuel as [| fuel IHf]; intros cu H.
    + exists cu. split; [exact H | apply advances_refl].
    + simpl in H. destruct greedy.
      * match type of H with
        | match ?x with _ => _ end = _ => destruct x as [o |] eqn:H1
        end.
        -- injection H as <-. apply IH1 in H1. destruct H1 as [cu1 [H1 Ha]].
           destruct (Nat.eqb (Re.pos cu1) (Re.pos cu)); [discriminate H1 |].
           apply IHf in H1. destruct H1 as [cu2 [H1 Hb]].
           exists cu2. split; [exact H1 | eapply advances_trans; eassumption].
        -- exists cu. split; [exact H | apply advances_refl].
      * destruct (k cu) as [o |] eqn:Hk.
        -- injection H as <-. exists cu. split; [exact Hk | apply advances_refl].
        -- apply IH1 in H. destruct H as [cu1 [H1 Ha]].
           destruct (Nat.eqb (Re.pos cu1) (Re.pos cu)); [discriminate H1 |].
           apply IHf in H1. destruct H1 as [cu2 [H1 Hb]].
           exists cu2. split; [exact H1 | eapply advances_trans; eassumption].
  - simpl in H. apply IH1 in H. destruct H as [cu1 [H Ha]].
    eexists. split; [exact H |]. exact Ha.
  - simpl in H. destruct (Re.at_boundary cu); [| discriminate H].
    exists cu. split; [exact H | apply advances_refl].
Qed.

Lemma match_at_span :
  forall (r : Re.regex) (subject : string) (cu : Re.cursor) (m : Re.match_),
    Re.match_at r subject cu = Some m ->
    Re.m_start m = Re.pos cu /\
    (Re.pos cu <= Re.m_end m <= Re.pos cu + Py.len (Re.rest cu))%nat.
Proof.
  intros r subject cu m H. unfold Re.match_at in H.
  destruct (Re.run r cu _) as [out |] eqn:Hrun; [| discriminate H].
  injection H as <-. simpl.
  apply run_advances in Hrun. destruct Hrun as [cu' [Hk [Ha Hb]]].
  injection Hk as ->. split; [reflexivity | lia].
Qed.

Lemma search_from_span :
  forall (r : Re.regex) (subject : string) (s : string) (p : nat)
         (pv : option ascii) (m : Re.match_),
    Re.search_from r subject p pv s = Some m ->
    (p <= Re.m_start m <= Re.m_end m)%nat /\
    (Re.m_end m <= p + Py.len s)%nat.
Proof.
  intros r subject s. induction s as [| c s IH]; intros p pv m H; simpl in H.
  - destruct (Re.match_at _ _ _) as [m' |] eqn:Hm; [| discriminate H].
    injection H as <-. apply match_at_span in Hm.
      unfold Py.len in *. simpl in *. lia.
  - destruct (Re.match_at _ _ _) as [m' |] eqn:Hm.
    + injection H as <-. apply match_at_span in Hm.
      unfold Py.len in *. simpl in *. lia.
    + apply IH in H. unfold Py.len in *. simpl in *. lia.
Qed.

Lemma len_drop :
  forall (p : nat) (s : string), Py.len (Py.drop p s) = (Py.len s - p)%nat.
Proof.
  unfold Py.len.
  induction p as [| p IH]; intros s; simpl.
  - lia.
  - destruct s as [| c s]; simpl; [reflexivity | apply IH].
Qed.

Lemma finditer_from_spans :
  forall (fuel : nat) (r : Re.regex) (subject : string) (p : nat),
    (p <= Py.len subject)%nat ->
    Forall (fun m => (p <= Re.m_start m)%nat /\ in_text subject m)
           (Re.finditer_from fuel r subject p) /\
    StronglySorted (fun a b => (Re.m_start a < Re.m_start b)%nat
                               /\ (Re.m_end a <= Re.m_start b)%nat)
           (Re.finditer_from fuel r subject p).
Proof.
  induction fuel as [| fuel IH]; intros r subject p Hp; simpl.
  - split; constructor.
  - destruct (Re.search_from _ _ _ _ _) as [m |] eqn:Hs.
    + apply search_from_span in Hs. rewrite len_drop in Hs.
      assert (Hin : in_text subject m) by (unfold in_text; lia).
      set (p' := if Nat.eqb (Re.m_end m) (Re.m_start m)
                 then S (Re.m_end m) else Re.m_end m).
      assert (Hp' : (Re.m_start m < p' /\ Re.m_end m <= p')%nat).
      { subst p'. destruct (Nat.eqb (Re.m_end m) (Re.m_start m)) eqn:He.
        - apply Nat.eqb_eq in He. lia.
        - apply Nat.eqb_neq in He. lia. }
      destruct (Nat.ltb (Py.len subject) p') eqn:Hlt.
      * split; repeat constructor; try exact Hin; lia.
      * apply Nat.ltb_ge in Hlt.
        destruct (IH r subject p' Hlt) as [Hall Hsorted].
        split.
        -- constructor; [split; [lia | exact Hin] |].
           eapply Forall_impl; [| exact Hall].
           intros m' [H1 H2]. split; [lia | exact H2].
        -- constructor; [exact Hsorted |].
           eapply Forall_impl; [| exact Hall].
           intros m' [H1 H2]. lia.
    + split; constructor.
Qed.

Lemma finditer_spans :
  forall (r : Re.regex) (subject : string),
    Forall (in_text subject) (Re.finditer r subject) /\
    StronglySorted (fun a b => (Re.m_start a < Re.m_start b)%nat
                               /\ (Re.m_end a <= Re.m_start b)%nat)
           (Re.finditer r subject).
Proof.
  intros r subject. unfold Re.finditer.
  destruct (finditer_from_spans (S (Py.len subject)) r subject 0) as [H1 H2]; [lia |].
  split; [| exact H2].
  eapply Forall_impl; [| exact H1]. intros m [_ H]. exact H.
Qed.

(** ** The line of an offset *)

Lemma line_starts_cons :
  forall (l : string) (ls : list string),
    LineIndex.line_starts (l :: ls)
    = (0%nat, 0%nat)
      :: map (fun e => (S (fst e), (snd e + (Py.len l + 1))%nat))
             (LineIndex.line_starts ls).
Proof.
  intros l ls. unfold LineIndex.line_starts.
  cbn [length seq map firstn list_sum]. f_equal.
  rewrite <- seq_shift, !map_map. apply map_ext.
  intros i. cbn [fst snd firstn map]. f_equal.
  unfold list_sum. cbn [fold_right]. lia.
Qed.

Lemma first_after_shift :
  forall (d : nat) (ls : list (nat * nat)) (off : nat),
    LineIndex.first_after
      (map (fun e => (S (fst e), (snd e + d)%nat)) ls) off
    = if Nat.ltb off d
      then option_map (fun e => S (fst e)) (hd_error ls)
      else option_map S (LineIndex.first_after ls (off - d)).
Proof.
  intros d ls off. unfold LineIndex.first_after.
  induction ls as [| e ls IH]; simpl.
  - destruct (Nat.ltb off d); reflexivity.
  - destruct (Nat.ltb off d) eqn:Hd.
    + apply Nat.ltb_lt in Hd.
      assert (H : Nat.ltb off (snd e + d) = true) by (apply Nat.ltb_lt; lia).
      rewrite H. reflexivity.
    + apply Nat.ltb_ge in Hd.
      destruct (Nat.ltb (off - d) (snd e)) eqn:He.
      * apply Nat.ltb_lt in He.
        assert (H : Nat.ltb off (snd e + d) = true) by (apply Nat.ltb_lt; lia).
        rewrite H. reflexivity.
      * apply Nat.ltb_ge in He.
        assert (H : Nat.ltb off (snd e + d) = false) by (apply Nat.ltb_ge; lia).
        rewrite H. exact IH.
Qed.

(** [len(text.split(NL))] is one more than the newlines of the text. *)
Lemma split_count :
  forall (c : ascii) (s : string),
    Z.of_nat (length (Py.split c s)) = Py.count c s + 1.
Proof.
  intros c s. induction s as [| d s IH]; simpl.
  - reflexivity.
  - destruct (Ascii.eqb d c).
    + cbn [length]. lia.
    + pose proof (count_nonneg c s).
      destruct (Py.split c s); cbn [length] in *; lia.
Qed.

Lemma first_after_lines :
  forall (text : string) (off : nat),
    LineIndex.first_after (LineIndex.line_starts (Py.split Py.NL text)) off
    = if Py.count Py.NL (Py.drop off text) =? 0 then None
      else Some (S (Z.to_nat (Py.count Py.NL (substring 0 off text)))).
Proof.
  induction text as [| c s IH]; intros off.
  - destruct off; reflexivity.
  - cbn [Py.split].
    pose proof (count_nonneg Py.NL (substring 0 (pred off) s)) as Hnn.
    destruct (Ascii.eqb c Py.NL) eqn:Hc.
    + rewrite line_starts_cons.
      change (LineIndex.first_after ((0%nat, 0%nat) :: ?t) off)
        with (LineIndex.first_after t off).
      unfold LineIndex.first_after at 1. cbn [find snd]. 
      replace (Nat.ltb off 0) with false by (symmetry; apply Nat.ltb_ge; lia).
      fold (LineIndex.first_after
              (map (fun e => (S (fst e), (snd e + (Py.len EmptyString + 1))%nat))
                   (LineIndex.line_starts (Py.split Py.NL s))) off).
      rewrite first_after_shift.
      destruct off as [| o].
      * cbn [Nat.ltb Nat.leb Py.len String.length Nat.add Py.drop].
        destruct (Py.split Py.NL s) as [| w ws] eqn:Hs.
        { pose proof (split_length Py.NL s). rewrite Hs in H. simpl in H. lia. }
        rewrite line_starts_cons. cbn [hd_error option_map fst].
        cbn [Py.count]. rewrite Hc.
        pose proof (count_nonneg Py.NL s).
        destruct (1 + Py.count Py.NL s =? 0) eqn:Hz; [lia |].
        destruct s; reflexivity.
      * cbn [Py.len String.length Nat.add Nat.ltb Nat.leb Nat.sub Py.drop].
        rewrite Nat.sub_0_r, IH.
        cbn [substring Py.count pred] in *. rewrite Hc.
        destruct (Py.count Py.NL (Py.drop o s) =? 0); [reflexivity |].
        cbn [option_map]. f_equal. lia.
    + destruct (Py.split Py.NL s) as [| w ws] eqn:Hs.
      { pose proof (split_length Py.NL s). rewrite Hs in H. simpl in H. lia. }
      specialize (IH (pred off)).
      rewrite !line_starts_cons in *.
      unfold LineIndex.first_after at 1 in IH.
      unfold LineIndex.first_after at 1. cbn [find snd] in *.
      replace (Nat.ltb off 0) with false by (symmetry; apply Nat.ltb_ge; lia).
      replace (Nat.ltb (pred off) 0) with false in IH
        by (symmetry; apply Nat.ltb_ge; lia).
      fold (LineIndex.first_after
              (map (fun e => (S (fst e), (snd e + (Py.len (String c w) + 1))%nat))
                   (LineIndex.line_starts ws)) off).
      fold (LineIndex.first_after
              (map (fun e => (S (fst e), (snd e + (Py.len w + 1))%nat))
                   (LineIndex.line_starts ws)) (pred off)) in IH.
      rewrite first_after_shift in *.
      destruct off as [| o].
      * cbn [Py.drop Py.count substring]. rewrite Hc.
        replace (Nat.ltb 0 (Py.len (String c w) + 1)) with true
          by (symmetry; apply Nat.ltb_lt; lia).
        pose proof (split_count Py.NL s) as Hlen. rewrite Hs in Hlen.
        cbn [length] in Hlen.
        destruct ws as [| w' ws'].
        -- cbn [hd_error option_map LineIndex.line_starts length seq map].
           replace (0 + Py.count Py.NL s =? 0) with true
             by (symmetry; apply Z.eqb_eq; simpl in Hlen; lia).
           reflexivity.
        -- rewrite line_starts_cons. cbn [hd_error option_map fst].
           replace (0 + Py.count Py.NL s =? 0) with false
             by (symmetry; apply Z.eqb_neq; cbn [length] in Hlen; lia).
           destruct s; reflexivity.
      * cbn [pred] in IH.
        cbn [Py.drop Py.count substring]. rewrite Hc.
        replace (Nat.ltb (S o) (Py.len (String c w) + 1))
          with (Nat.ltb o (Py.len w + 1)).
        2:{ unfold Py.len. cbn [String.length].
            destruct (Nat.ltb o (String.length w + 1)) eqn:H1; symmetry.
            - apply Nat.ltb_lt in H1. apply Nat.ltb_lt. lia.
            - apply Nat.ltb_ge in H1. apply Nat.ltb_ge. lia. }
        replace (S o - (Py.len (String c w) + 1))%nat
          with (o - (Py.len w + 1))%nat
          by (unfold Py.len; cbn [String.length]; lia).
        rewrite IH.
        replace (0 + Py.count Py.NL (substring 0 o s))
          with (Py.count Py.NL (substring 0 o s)) by lia.
        reflexivity.
Qed.

Lemma substring_drop_app :
  forall (n : nat) (s : string), s = substring 0 n s ++ Py.drop n s.
Proof.
  induction n as [| n IH]; intros s.
  - destruct s; reflexivity.
  - destruct s as [| c s]; simpl; [reflexivity |].
    f_equal. apply IH.
Qed.

(** X9.  The lookup without default answers the 1-based line of the
    offset, one more than the newlines before it, and raises exactly when
    no newline stands at or after the offset; the lookup with the default
    [len(lines)] answers the line of the offset for every offset. *)
Theorem line_of_offset :
  forall (text : string) (off : nat),
    LineIndex.next (LineIndex.line_starts (Py.split Py.NL text)) off
    = (if Py.count Py.NL (Py.drop off text) =? 0 then Raise StopIteration
       else Ok (line_number text off)) /\
    LineIndex.next_default (LineIndex.line_starts (Py.split Py.NL text)) off
      (Z.of_nat (length (Py.split Py.NL text)))
    = line_number text off.
Proof.
  intros text off.
  unfold LineIndex.next, LineIndex.next_default, line_number.
  rewrite first_after_lines.
  pose proof (count_nonneg Py.NL (substring 0 off text)) as Hnn.
  destruct (Py.count Py.NL (Py.drop off text) =? 0) eqn:Hz.
  - split; [reflexivity |].
    apply Z.eqb_eq in Hz. rewrite split_count.
    rewrite (substring_drop_app off text) at 1. rewrite count_app. lia.
  - split; [f_equal |]; lia.
Qed.

Lemma next_line :
  forall (text : string) (off : nat) (i : Z),
    LineIndex.next (LineIndex.line_starts (Py.split Py.NL text)) off = Ok i ->
    i = line_number text off.
Proof.
  intros text off i H.
  unfold LineIndex.next in H. rewrite first_after_lines in H.
  pose proof (count_nonneg Py.NL (substring 0 off text)) as Hnn.
  destruct (Py.count Py.NL (Py.drop off text) =? 0); [discriminate H |].
  injection H as <-. unfold line_number. lia.
Qed.

Lemma next_default_line :
  forall (text : string) (off : nat),
    LineIndex.next_default (LineIndex.line_starts (Py.split Py.NL text)) off
      (Z.of_nat (length (Py.split Py.NL text)))
    = line_number text off.
Proof.
  intros text off.
  unfold LineIndex.next_default, line_number.
  rewrite first_after_lines.
  pose proof (count_nonneg Py.NL (substring 0 off text)) as Hnn.
  destruct (Py.count Py.NL (Py.drop off text) =? 0) eqn:Hz.
  - apply Z.eqb_eq in Hz. rewrite split_count.
    rewrite (substring_drop_app off text) at 1. rewrite count_app. lia.
  - lia.
Qed.

(** Line numbers add up along the text. *)
Lemma line_number_add :
  forall (text : string) (a e : nat),
    (a <= e)%nat ->
    line_number text e = line_number text a + Py.count Py.NL (Py.slice a e text).
Proof.
  intros text a e H. unfold line_number.
  pose proof (slice_split 0 a e text (Nat.le_0_l a) H) as Hs.
  unfold Py.slice in Hs at 1 2. rewrite !Nat.sub_0_r in Hs.
  rewrite Hs, count_app.
  unfold Py.slice. rewrite (substring_drop a). lia.
Qed.

Lemma line_number_le :
  forall (text : string) (a e : nat),
    (a <= e)%nat -> line_number text a <= line_number text e.
Proof.
  intros text a e H. rewrite (line_number_add text a e H).
  pose proof (count_nonneg Py.NL (Py.slice a e text)). lia.
Qed.

Lemma scan_after :
  forall (s : string) (i : nat) (d : Z) (e : nat),
    Braces.scan s i d = Some e -> (i < e <= i + Py.len s)%nat.
Proof.
  induction s as [| c s IH]; intros i d e H; simpl in H.
  - discriminate H.
  - unfold Py.len in *. cbn [String.length].
    destruct (Braces.step c d =? 0).
    + injection H as <-. lia.
    + apply IH in H. lia.
Qed.

(** ** Line numbers of the brace scanners *)

Lemma go_loop_lines :
  forall (text filename : string) (hash : Z) (ms : list Re.match_)
         (acc out : list FunctionRecord),
    Forall (in_text text) ms ->
    go_loop text filename hash ms acc = Ok out ->
    exists new : list FunctionRecord,
      out = (acc ++ new)%list /\
      map start_line new = map (fun m => line_number text (Re.m_start m)) ms /\
      Forall end_line_zero_based new.
Proof.
  intros text filename hash ms.
  induction ms as [| m ms IH]; intros acc out Hin H.
  - injection H as <-. exists []. rewrite app_nil_r. repeat split. constructor.
  - inversion Hin as [| m' ms' Hm Hms]; subst.
    cbn [go_loop] in H.
    destruct (LineIndex.next _ (Re.m_start m)) as [i | e] eqn:Hi; [| discriminate H].
    cbn [bind] in H. apply next_line in Hi.
    rewrite scan_go_scan in H by lia.
    destruct (LineIndex.next _ _) as [j | e] eqn:Hj; [| discriminate H].
    cbn [bind] in H. apply next_line in Hj.
    apply IH in H; [| exact Hms]. destruct H as [new [-> [Hst HP]]].
    eexists (_ :: new). rewrite <- app_assoc. split; [reflexivity |].
    split.
    + cbn [map start_line]. rewrite Hst. f_equal. lia.
    + constructor; [| exact HP].
      unfold end_line_zero_based. cbn [start_line end_line node_count].
      destruct (Braces.scan _ _ _) as [fe |] eqn:Hscan.
      * apply scan_after in Hscan. unfold in_text in Hm.
        rewrite (line_number_add text (Re.m_start m) fe) in Hj by lia. lia.
      * unfold Py.slice. rewrite Nat.sub_diag, substring_zero.
        cbn [Py.count]. lia.
Qed.

Lemma rust_loop_lines :
  forall (text filename : string) (hash : Z) (cc : string)
         (ms : list Re.match_) (acc out : list FunctionRecord),
    Forall (in_text text) ms ->
    rust_loop text filename hash cc ms acc = Ok out ->
    exists new : list FunctionRecord,
      out = (acc ++ new)%list /\
      map start_line new
      = map (fun m => line_number text (Re.m_start m)) (filter (closed text) ms) /\
      Forall end_line_zero_based new.
Proof.
  intros text filename hash cc ms.
  induction ms as [| m ms IH]; intros acc out Hin H.
  - injection H as <-. exists []. rewrite app_nil_r. repeat split. constructor.
  - inversion Hin as [| m' ms' Hm Hms]; subst.
    cbn [rust_loop filter] in *. unfold closed at 1.
    destruct (LineIndex.next _ _) as [i | e] eqn:Hi; [| discriminate H].
    cbn [bind] in H. apply next_line in Hi.
    destruct (Braces.scan _ _ _) as [fe |] eqn:Hscan.
    + destruct (group_str _ 1 m) as [head | e]; [| discriminate H].
      cbn [bind] in H.
      destruct (of_option _ _) as [found | e]; [| discriminate H].
      cbn [bind] in H.
      destruct (group_str _ 1 found) as [nm | e]; [| discriminate H].
      cbn [bind] in H.
      apply IH in H; [| exact Hms]. destruct H as [new [-> [Hst HP]]].
      eexists (_ :: new). rewrite <- app_assoc. split; [reflexivity |].
      split.
      * cbn [map start_line]. rewrite Hst. f_equal. lia.
      * constructor; [| exact HP].
        unfold end_line_zero_based. cbn [start_line end_line node_count].
        rewrite next_default_line.
        apply scan_after in Hscan. unfold in_text in Hm.
        rewrite (line_number_add text (Re.m_start m) fe) by lia. lia.
    + apply IH in H; [| exact Hms]. exact H.
Qed.

Lemma cairo_loop_lines :
  forall (text filename : string) (hash : Z)
         (ms : list Re.match_) (acc out : list FunctionRecord),
    Forall (in_text text) ms ->
    cairo_loop text filename hash ms acc = Ok out ->
    exists new : list FunctionRecord,
      out = (acc ++ new)%list /\
      map start_line new
      = map (fun m => line_number text (Re.m_start m)) (filter (closed text) ms) /\
      Forall end_line_zero_based new.
Proof.
  intros text filename hash ms.
  induction ms as [| m ms IH]; intros acc out Hin H.
  - injection H as <-. exists []. rewrite app_nil_r. repeat split. constructor.
  - inversion Hin as [| m' ms' Hm Hms]; subst.
    cbn [cairo_loop filter] in *. unfold closed at 1.
    destruct (LineIndex.next _ (Re.m_start m)) as [i | e] eqn:Hi; [| discriminate H].
    cbn [bind] in H. apply next_line in Hi.
    destruct (Braces.scan _ _ _) as [fe |] eqn:Hscan.
    + destruct (LineIndex.next _ fe) as [j | e] eqn:Hj; [| discriminate H].
      cbn [bind] in H. apply next_line in Hj.
      destruct (group_str _ 1 m) as [head | e]; [| discriminate H].
      cbn [bind] in H.
      destruct (of_option _ _) as [found | e]; [| discriminate H].
      cbn [bind] in H.
      destruct (group_str _ 1 found) as [nm | e]; [| discriminate H].
      cbn [bind] in H.
      apply IH in H; [| exact Hms]. destruct H as [new [-> [Hst HP]]].
      eexists (_ :: new). rewrite <- app_assoc. split; [reflexivity |].
      split.
      * cbn [map start_line]. rewrite Hst. f_equal. lia.
      * constructor; [| exact HP].
        unfold end_line_zero_based. cbn [start_line end_line node_count].
        apply scan_after in Hscan. unfold in_text in Hm.
        rewrite (line_number_add text (Re.m_start m) fe) in Hj by lia. lia.
    + apply IH in H; [| exact Hms]. exact H.
Qed.

(** X10.  Whenever the Go, the Rust or the Cairo scanner returns, every
    record has [end_line = start_line + node_count - 2]: [end_line] is the
    0-based index of the last line of the content, one below the 1-based
    number the [start_line] convention gives. *)
Theorem brace_records_end_line :
  forall (text filename : string) (hash : Z) (out : list FunctionRecord),
    (find_go_functions text filename hash = Ok out ->
     Forall end_line_zero_based out) /\
    (find_rust_functions text filename hash = Ok out ->
     Forall end_line_zero_based out) /\
    (find_cairo_functions text filename hash = Ok out ->
     Forall end_line_zero_based out).
Proof.
  intros text filename hash out. split; [| split]; intros H.
  - unfold find_go_functions in H.
    apply go_loop_lines in H; [| apply finditer_spans].
    destruct H as [new [-> [_ HP]]]. exact HP.
  - unfold find_rust_functions in H.
    apply rust_loop_lines in H; [| apply finditer_spans].
    destruct H as [new [-> [_ HP]]]. exact HP.
  - unfold find_cairo_functions in H.
    apply cairo_loop_lines in H; [| apply finditer_spans].
    destruct H as [new [-> [_ HP]]]. exact HP.
Qed.

Lemma brace_records_end_line_witness :
  exists out : list FunctionRecord,
    find_go_functions go_three_lines "a.go" 0 = Ok out /\
    Forall end_line_zero_based out.
Proof.
  eexists. split; [vm_compute; reflexivity |].
  apply (proj1 (brace_records_end_line go_three_lines "a.go" 0 _)).
  vm_compute. reflexivity.
Defined.

(** ** Records in the order of the text *)

Lemma move_loop_start_lines :
  forall (text filename : string) (hash : Z) (cc : string)
         (ms : list Re.match_) (locals : move_locals)
         (acc out : list FunctionRecord),
    move_loop text filename hash cc ms locals acc = Ok out ->
    exists new : list FunctionRecord,
      out = (acc ++ new)%list /\
      map start_line new = map (fun m => line_number text (Re.m_start m)) ms.
Proof.
  intros text filename hash cc ms.
  induction ms as [| m ms IH]; intros locals acc out H.
  - injection H as <-. exists []. rewrite app_nil_r. split; reflexivity.
  - cbn [move_loop] in H.
    destruct (LineIndex.next _ _) as [i | e] eqn:Hi; [| discriminate H].
    cbn [bind] in H. apply next_line in Hi.
    destruct (group_str _ 1 m) as [head | e]; [| discriminate H].
    cbn [bind] in H.
    destruct (move_bind text m (i - 1) head locals) as [locals' | e];
      [| discriminate H].
    cbn [bind] in H.
    destruct (group_str _ 2 m) as [nm | e]; [| discriminate H].
    cbn [bind] in H.
    destruct (read_local "end_line_number" _) as [el | e]; [| discriminate H].
    cbn [bind] in H.
    destruct (read_local "function_body" _) as [fb | e]; [| discriminate H].
    cbn [bind] in H.
    destruct (read_local "function_body_lines" _) as [fl | e]; [| discriminate H].
    cbn [bind] in H.
    apply IH in H. destruct H as [new [-> Hst]].
    eexists (_ :: new). rewrite <- app_assoc. split; [reflexivity |].
    cbn [map start_line]. rewrite Hst. f_equal. lia.
Qed.

Lemma python_loop_start_lines :
  forall (text filename : string) (hash_value : Z) (ms : list Re.match_)
         (acc out : list FunctionRecord),
    python_loop text filename hash_value ms acc = Ok out ->
    exists new : list FunctionRecord,
      out = (acc ++ new)%list /\
      map start_line new = map (fun m => line_number text (Re.m_start m)) ms.
Proof.
  intros text filename hash_value ms.
  induction ms as [| m ms IH]; intros acc out H.
  - injection H as <-. exists []. rewrite app_nil_r. split; reflexivity.
  - cbn [python_loop] in H.
    destruct (LineIndex.next _ _) as [i | e] eqn:Hi; [| discriminate H].
    cbn [bind] in H. apply next_line in Hi.
    destruct (PyList.getitem _ _) as [hl | e]; [| discriminate H].
    cbn [bind] in H.
    destruct (group_str _ 1 m) as [nm | e]; [| discriminate H].
    cbn [bind] in H.
    apply IH in H. destruct H as [new [-> Hst]].
    eexists (_ :: new). rewrite <- app_assoc. split; [reflexivity |].
    cbn [map start_line]. rewrite Hst. f_equal. lia.
Qed.

(** The start lines a scanner emits for the heads [ms] it keeps. *)
Lemma start_lines_go :
  forall (text filename : string) (hash : Z) (out : list FunctionRecord),
    find_go_functions text filename hash = Ok out ->
    map start_line out
    = map (fun m => line_number text (Re.m_start m))
          (Re.finditer Pat.go_regex text).
Proof.
  intros text filename hash out H. unfold find_go_functions in H.
  apply go_loop_lines in H; [| apply finditer_spans].
  destruct H as [new [-> [Hst _]]]. exact Hst.
Qed.

Lemma start_lines_move :
  forall (text filename : string) (hash : Z) (out : list FunctionRecord),
    find_move_functions text filename hash = Ok out ->
    map start_line out
    = map (fun m => line_number text (Re.m_start m))
          (Re.finditer Pat.move_regex text).
Proof.
  intros text filename hash out H. unfold find_move_functions in H.
  destruct (move_function_bodies _ _) as [bodies | e]; [| discriminate H].
  cbn [bind] in H.
  apply move_loop_start_lines in H. destruct H as [new [-> Hst]]. exact Hst.
Qed.

Lemma start_lines_rust :
  forall (text filename : string) (hash : Z) (out : list FunctionRecord),
    find_rust_functions text filename hash = Ok out ->
    map start_line out
    = map (fun m => line_number text (Re.m_start m))
          (filter (closed text) (Re.finditer Pat.rust_regex text)).
Proof.
  intros text filename hash out H. unfold find_rust_functions in H.
  apply rust_loop_lines in H; [| apply finditer_spans].
  destruct H as [new [-> [Hst _]]]. exact Hst.
Qed.

Lemma start_lines_cairo :
  forall (text filename : string) (hash : Z) (out : list FunctionRecord),
    find_cairo_functions text filename hash = Ok out ->
    map start_line out
    = map (fun m => line_number text (Re.m_start m))
          (filter (closed text) (Re.finditer Pat.cairo_regex text)).
Proof.
  intros text filename hash out H. unfold find_cairo_functions in H.
  apply cairo_loop_lines in H; [| apply finditer_spans].
  destruct H as [new [-> [Hst _]]]. exact Hst.
Qed.

Lemma start_lines_python :
  forall (text filename : string) (hash_value : Z) (out : list FunctionRecord),
    find_python_functions text filename hash_value = Ok out ->
    map start_line out
    = match Re.finditer Pat.python_regex text with
      | [] => [1]
      | _ :: rest => map (fun m => line_number text (Re.m_start m)) rest
      end.
Proof.
  intros text filename hash_value out. unfold find_python_functions.
  destruct (Re.finditer Pat.python_regex text) as [| m ms];
    cbn [PyList.any_matches]; intros H.
  - injection H as <-. reflexivity.
  - apply python_loop_start_lines in H. destruct H as [new [-> Hst]]. exact Hst.
Qed.

(** X11.  Whenever a scanner returns, the [start_line] of each record is
    the 1-based line of the start of its head: for Go and Move, the heads
    are all the matches; for Rust and Cairo, the matches whose braces
    close; for Python, the matches after the first, or line 1 of the
    whole-file record. *)
Theorem start_line_of_head :
  forall (text filename : string) (hash : Z) (out : list FunctionRecord),
    (find_go_functions text filename hash = Ok out ->
     map start_line out
     = map (fun m => line_number text (Re.m_start m))
           (Re.finditer Pat.go_regex text)) /\
    (find_move_functions text filename hash = Ok out ->
     map start_line out
     = map (fun m => line_number text (Re.m_start m))
           (Re.finditer Pat.move_regex text)) /\
    (find_rust_functions text filename hash = Ok out ->
     map start_line out
     = map (fun m => line_number text (Re.m_start m))
           (filter (closed text) (Re.finditer Pat.rust_regex text))) /\
    (find_cairo_functions text filename hash = Ok out ->
     map start_line out
     = map (fun m => line_number text (Re.m_start m))
           (filter (closed text) (Re.finditer Pat.cairo_regex text))) /\
    (find_python_functions text filename hash = Ok out ->
     map start_line out
     = match Re.finditer Pat.python_regex text with
       | [] => [1]
       | _ :: rest => map (fun m => line_number text (Re.m_start m)) rest
       end).
Proof.
  intros text filename hash out.
  split; [apply start_lines_go |].
  split; [apply start_lines_move |].
  split; [apply start_lines_rust |].
  split; [apply start_lines_cairo | apply start_lines_python].
Qed.

Lemma start_line_of_head_witness :
  exists out : list FunctionRecord,
    find_rust_functions rust_unclosed_then_closed "a.rs" 0 = Ok out /\
    map start_line out = [2].
Proof.
  eexists. split; [vm_compute; reflexivity |].
  rewrite (proj1 (proj2 (proj2
             (start_line_of_head rust_unclosed_then_closed "a.rs" 0 _)))).
  - vm_compute. reflexivity.
  - vm_compute. reflexivity.
Defined.

Lemma sorted_filter :
  forall (A : Type) (R : A -> A -> Prop) (f : A -> bool) (l : list A),
    StronglySorted R l -> StronglySorted R (filter f l).
Proof.
  intros A R f l H. induction H as [| a l Hs IH Hall]; simpl.
  - constructor.
  - destruct (f a); [| exact IH].
    constructor; [exact IH |].
    apply Forall_forall. intros x Hx. apply filter_In in Hx.
    rewrite Forall_forall in Hall. apply Hall. apply Hx.
Qed.

Lemma sorted_lines :
  forall (text : string) (ms : list Re.match_),
    StronglySorted (fun a b => (Re.m_start a < Re.m_start b)%nat
                               /\ (Re.m_end a <= Re.m_start b)%nat) ms ->
    StronglySorted Z.le (map (fun m => line_number text (Re.m_start m)) ms).
Proof.
  intros text ms H. induction H as [| a l Hs IH Hall]; simpl.
  - constructor.
  - constructor; [exact IH |].
    apply Forall_forall. intros x Hx. apply in_map_iff in Hx.
    destruct Hx as [m [<- Hm]]. rewrite Forall_forall in Hall.
    apply line_number_le. specialize (Hall m Hm). lia.
Qed.

(** X12.  Whenever a scanner returns, its records are in ascending order
    of [start_line]. *)
Theorem records_ascending :
  forall (text filename : string) (hash : Z) (out : list FunctionRecord),
    (find_go_functions text filename hash = Ok out ->
     StronglySorted Z.le (map start_line out)) /\
    (find_move_functions text filename hash = Ok out ->
     StronglySorted Z.le (map start_line out)) /\
    (find_rust_functions text filename hash = Ok out ->
     StronglySorted Z.le (map start_line out)) /\
    (find_cairo_functions text filename hash = Ok out ->
     StronglySorted Z.le (map start_line out)) /\
    (find_python_functions text filename hash = Ok out ->
     StronglySorted Z.le (map start_line out)).
Proof.
  intros text filename hash out.
  split; [| split; [| split; [| split]]]; intros H.
  - rewrite (start_lines_go _ _ _ _ H).
    apply sorted_lines, finditer_spans.
  - rewrite (start_lines_move _ _ _ _ H).
    apply sorted_lines, finditer_spans.
  - rewrite (start_lines_rust _ _ _ _ H).
    apply sorted_lines, sorted_filter, finditer_spans.
  - rewrite (start_lines_cairo _ _ _ _ H).
    apply sorted_lines, sorted_filter, finditer_spans.
  - rewrite (start_lines_python _ _ _ _ H).
    pose proof (proj2 (finditer_spans Pat.python_regex text)) as Hs.
    destruct (Re.finditer Pat.python_regex text) as [| m ms].
    + repeat constructor.
    + apply sorted_lines. inversion Hs; assumption.
Qed.

Lemma records_ascending_witness :
  exists out : list FunctionRecord,
    find_move_functions move_closed_then_unclosed "a.move" 0 = Ok out /\
    StronglySorted Z.le (map start_line out).
Proof.
  eexists. split; [vm_compute; reflexivity |].
  apply (proj1 (proj2 (records_ascending move_closed_then_unclosed "a.move" 0 _))).
  vm_compute. reflexivity.
Defined.

(** ** The span of a Python record *)

Lemma split_no_separator :
  forall (c : ascii) (s : string),
    Forall (fun l => Py.count c l = 0) (Py.split c s).
Proof.
  intros c s. induction s as [| d s IH]; simpl.
  - repeat constructor.
  - destruct (Ascii.eqb d c) eqn:Hd.
    + constructor; [reflexivity | exact IH].
    + destruct (Py.split c s) as [| w ws].
      * repeat constructor. simpl. rewrite Hd. reflexivity.
      * inversion IH; subst. constructor; [| assumption].
        simpl. rewrite Hd. lia.
Qed.

Lemma count_join :
  forall ls : list string,
    Forall (fun l => Py.count Py.NL l = 0) ls ->
    ls <> [] ->
    Py.count Py.NL (Py.join Py.nl ls) = Z.of_nat (length ls) - 1.
Proof.
  unfold Py.join.
  induction ls as [| l ls IH]; intros Hall Hne; [congruence |].
  inversion Hall as [| l' ls' Hl Hls]; subst.
  destruct ls as [| l2 ls].
  - simpl. lia.
  - change (String.concat Py.nl (l :: l2 :: ls))
      with (l ++ Py.nl ++ String.concat Py.nl (l2 :: ls)).
    rewrite !count_app, IH by (try assumption; discriminate).
    cbn [length Py.count Py.nl]. rewrite Hl. simpl (Ascii.eqb _ _).
    lia.
Qed.

Lemma Forall_window :
  forall (A : Type) (P : A -> Prop) (n k : nat) (l : list A),
    Forall P l -> Forall P (firstn n (skipn k l)).
Proof.
  intros A P n k l H.
  rewrite <- (firstn_skipn k l) in H. apply Forall_app in H.
  destruct H as [_ H].
  rewrite <- (firstn_skipn n (skipn k l)) in H. apply Forall_app in H.
  apply H.
Qed.

Lemma clamp_inside :
  forall (n : nat) (i : Z),
    0 <= i <= Z.of_nat n -> PyList.clamp n i = Z.to_nat i.
Proof.
  intros n i H. unfold PyList.clamp.
  destruct (i <? 0) eqn:Hi; [lia |]. f_equal. lia.
Qed.

Lemma slice_inside :
  forall (A : Type) (a b : Z) (l : list A),
    0 <= a <= b -> b <= Z.of_nat (length l) ->
    PyList.slice a b l
    = firstn (Z.to_nat b - Z.to_nat a) (skipn (Z.to_nat a) l).
Proof.
  intros A a b l Ha Hb. unfold PyList.slice.
  rewrite !clamp_inside by lia. reflexivity.
Qed.

Lemma slice_to_end :
  forall (A : Type) (a : Z) (l : list A),
    0 <= a <= Z.of_nat (length l) ->
    PyList.slice a (Z.of_nat (length l)) l = skipn (Z.to_nat a) l.
Proof.
  intros A a l Ha. rewrite slice_inside by lia.
  apply firstn_all2. rewrite length_skipn. lia.
Qed.

Lemma getitem_ok :
  forall (A : Type) (l : list A) (i : Z) (x : A),
    0 <= i -> PyList.getitem l i = Ok x -> nth_error l (Z.to_nat i) = Some x.
Proof.
  intros A l i x Hi H. unfold PyList.getitem in H.
  destruct ((0 <=? i) && (i <? Z.of_nat (length l)))%bool.
  - destruct (nth_error l (Z.to_nat i)); [| discriminate H].
    injection H as <-. reflexivity.
  - destruct ((- Z.of_nat (length l) <=? i) && (i <? 0))%bool eqn:Hneg;
      [| discriminate H].
    apply andb_prop in Hneg. lia.
Qed.

(** The [while] loop of the Python scanner stops before the first line
    that is not blank and indented no deeper than the header. *)
Lemma body_end_spec :
  forall (rest : list string) (e indent_level : Z),
    let stop := body_end rest e indent_level in
    e <= stop <= e + Z.of_nat (length rest) /\
    (forall (j : nat) (line : string),
       Z.of_nat j < stop - e -> nth_error rest j = Some line ->
       blank line \/ indent_level < indent line) /\
    (forall line : string,
       nth_error rest (Z.to_nat (stop - e)) = Some line ->
       ~ blank line /\ indent line <= indent_level).
Proof.
  unfold blank.
  induction rest as [| l rest IH]; intros e indent_level; cbn [body_end].
  - cbn [length]. split; [lia |]. split.
    + intros j line Hj. lia.
    + intros line H. destruct (Z.to_nat (e - e)); discriminate H.
  - destruct (Py.truthy (Py.strip l)) eqn:Ht;
      destruct (indent l <=? indent_level) eqn:Hi; cbn [andb].
    + cbn [length]. split; [lia |]. split.
      * intros j line Hj. lia.
      * intros line H. rewrite Z.sub_diag in H. injection H as <-.
        split; [congruence | lia].
    + destruct (IH (e + 1) indent_level) as [Hb [Hin Hout]].
      cbn [length]. split; [lia |]. split.
      * intros j line Hj H. destruct j as [| j].
        -- injection H as <-. right. lia.
        -- apply (Hin j line); [lia | exact H].
      * intros line H. apply Hout.
        replace (Z.to_nat (body_end rest (e + 1) indent_level - e))
          with (S (Z.to_nat (body_end rest (e + 1) indent_level - (e + 1))))
          in H by lia.
        exact H.
    + destruct (IH (e + 1) indent_level) as [Hb [Hin Hout]].
      cbn [length]. split; [lia |]. split.
      * intros j line Hj H. destruct j as [| j].
        -- injection H as <-. left. exact Ht.
        -- apply (Hin j line); [lia | exact H].
      * intros line H. apply Hout.
        replace (Z.to_nat (body_end rest (e + 1) indent_level - e))
          with (S (Z.to_nat (body_end rest (e + 1) indent_level - (e + 1))))
          in H by lia.
        exact H.
    + destruct (IH (e + 1) indent_level) as [Hb [Hin Hout]].
      cbn [length]. split; [lia |]. split.
      * intros j line Hj H. destruct j as [| j].
        -- injection H as <-. left. exact Ht.
        -- apply (Hin j line); [lia | exact H].
      * intros line H. apply Hout.
        replace (Z.to_nat (body_end rest (e + 1) indent_level - e))
          with (S (Z.to_nat (body_end rest (e + 1) indent_level - (e + 1))))
          in H by lia.
        exact H.
Qed.

Lemma python_loop_blocks :
  forall (text filename : string) (hash_value : Z) (ms : list Re.match_)
         (acc out : list FunctionRecord),
    python_loop text filename hash_value ms acc = Ok out ->
    exists new : list FunctionRecord,
      out = (acc ++ new)%list /\
      Forall (python_block (Py.split Py.NL text)) new /\
      Forall counts_its_lines new.
Proof.
  intros text filename hash_value ms.
  induction ms as [| m ms IH]; intros acc out H.
  - injection H as <-. exists []. rewrite app_nil_r. repeat split; constructor.
  - cbn [python_loop] in H.
    destruct (LineIndex.next _ _) as [i | e] eqn:Hi; [| discriminate H].
    cbn [bind] in H. apply next_ok in Hi.
    destruct (PyList.getitem _ _) as [hl | e] eqn:Hg; [| discriminate H].
    cbn [bind] in H. apply getitem_ok in Hg; [| lia].
    destruct (group_str _ 1 m) as [nm | e]; [| discriminate H].
    cbn [bind] in H.
    apply IH in H. destruct H as [new [-> [HB HC]]].
    eexists (_ :: new). rewrite <- app_assoc. split; [reflexivity |].
    set (lines := Py.split Py.NL text) in *.
    assert (Hrest : PyList.slice (i - 1 + 1) (Z.of_nat (length lines)) lines
                    = skipn (Z.to_nat i) lines).
    { rewrite slice_to_end by lia. f_equal. lia. }
    rewrite Hrest.
    destruct (body_end_spec (skipn (Z.to_nat i) lines) (i - 1 + 1) (indent hl))
      as [Hb [Hin Hout]].
    rewrite length_skipn in Hb.
    set (stop := body_end (skipn (Z.to_nat i) lines) (i - 1 + 1) (indent hl)) in *.
    split; constructor; try assumption.
    + unfold python_block. cbn [start_line end_line content].
      exists hl. split; [| split; [| split]].
      * replace (i - 1 + 1 - 1) with (i - 1) by lia. exact Hg.
      * replace (i - 1 + 1 - 1) with (i - 1) by lia. reflexivity.
      * intros j line Hj Hnth.
        apply (Hin (j - Z.to_nat i)%nat line); [lia |].
        rewrite nth_error_skipn.
        replace (Z.to_nat i + (j - Z.to_nat i))%nat with j by lia.
        exact Hnth.
      * intros line Hnth. apply Hout.
        rewrite nth_error_skipn.
        replace (Z.to_nat i + Z.to_nat (stop - (i - 1 + 1)))%nat
          with (Z.to_nat (stop - 1 + 1)) by lia.
        exact Hnth.
    + unfold counts_its_lines. cbn [start_line end_line node_count].
      rewrite count_join.
      * rewrite slice_inside by lia.
        rewrite length_firstn, length_skipn. lia.
      * rewrite slice_inside by lia.
        apply Forall_window, split_no_separator.
      * rewrite slice_inside by lia.
        intros Hnil. apply (f_equal (@length string)) in Hnil.
        rewrite length_firstn, length_skipn in Hnil. simpl in Hnil. lia.
Qed.

(** X13.  Whenever the Python scanner returns records for headers, each
    record spans a block: its content is the lines [start_line .. end_line]
    joined by newlines, the lines after the header line are blank or
    indented deeper than the header, and the line after the block, if any,
    is not blank and indented no deeper than the header. *)
Theorem python_records_are_blocks :
  forall (text filename : string) (hash_value : Z) (out : list FunctionRecord),
    Re.finditer Pat.python_regex text <> [] ->
    find_python_functions text filename hash_value = Ok out ->
    Forall (python_block (Py.split Py.NL text)) out.
Proof.
  intros text filename hash_value out Hne H.
  unfold find_python_functions in H.
  destruct (Re.finditer Pat.python_regex text) as [| m ms]; [congruence |].
  cbn [PyList.any_matches] in H.
  apply python_loop_blocks in H. destruct H as [new [-> [HB _]]]. exact HB.
Qed.

Lemma python_records_are_blocks_witness :
  exists out : list FunctionRecord,
    find_python_functions python_two_defs "a.py" 0 = Ok out /\
    length out = 1%nat /\
    Forall (python_block (Py.split Py.NL python_two_defs)) out.
Proof.
  eexists. split; [vm_compute; reflexivity |]. split; [reflexivity |].
  apply (python_records_are_blocks python_two_defs "a.py" 0).
  - vm_compute. discriminate.
  - vm_compute. reflexivity.
Defined.

(** X14.  Every record the Python scanner returns, the whole-file record
    included, has [node_count = end_line - start_line + 1]. *)
Theorem python_node_count :
  forall (text filename : string) (hash_value : Z) (out : list FunctionRecord),
    find_python_functions text filename hash_value = Ok out ->
    Forall counts_its_lines out.
Proof.
  intros text filename hash_value out H.
  unfold find_python_functions in H.
  destruct (Re.finditer Pat.python_regex text) as [| m ms];
    cbn [PyList.any_matches] in H.
  - injection H as <-. repeat constructor.
    unfold counts_its_lines. cbn [node_count start_line end_line whole_file_record].
    lia.
  - apply python_loop_blocks in H. destruct H as [new [-> [_ HC]]]. exact HC.
Qed.

Lemma python_node_count_witness :
  exists out : list FunctionRecord,
    find_python_functions python_two_defs "a.py" 0 = Ok out /\
    Forall counts_its_lines out.
Proof.
  eexists. split; [vm_compute; reflexivity |].
  apply (python_node_count python_two_defs "a.py" 0).
  vm_compute. reflexivity.
Defined.

(** ** The grouping name *)

Lemma append_empty : forall s : string, s ++ EmptyString = s.
Proof.
  induction s as [| c s IH]; simpl; [reflexivity | rewrite IH; reflexivity].
Qed.

Lemma drop_whole : forall s : string, Py.drop (Py.len s) s = EmptyString.
Proof.
  unfold Py.len. induction s as [| c s IH]; simpl; [reflexivity | exact IH].
Qed.

Lemma startswith_refl : forall s : string, Py.startswith s s = true.
Proof.
  induction s as [| c s IH]; simpl; [reflexivity |].
  rewrite Ascii.eqb_refl. exact IH.
Qed.

Lemma replace_from_absent :
  forall (fuel : nat) (old new s : string),
    Py.contains old s = false -> Py.replace_from fuel old new s = s.
Proof.
  induction fuel as [| fuel IH]; intros old new s H; simpl.
  - reflexivity.
  - destruct s as [| c s]; [reflexivity |].
    cbn [Py.contains] in H. apply orb_false_elim in H. destruct H as [H1 H2].
    rewrite H1. f_equal. apply IH. exact H2.
Qed.

Lemma replace_from_suffix :
  forall (d : ascii) (ext new stem : string) (fuel : nat),
    Py.count d stem = 0 ->
    (Py.len stem < fuel)%nat ->
    Py.replace_from fuel (String d ext) new (stem ++ String d ext)
    = stem ++ new.
Proof.
  intros d ext new stem.
  induction stem as [| c stem IH]; intros fuel Hc Hf.
  - destruct fuel as [| fuel]; [unfold Py.len in Hf; simpl in Hf; lia |].
    cbn [append Py.replace_from].
    rewrite (startswith_refl (String d ext)).
    rewrite drop_whole.
    destruct fuel; cbn [Py.replace_from]; rewrite append_empty; reflexivity.
  - destruct fuel as [| fuel]; [unfold Py.len in Hf; simpl in Hf; lia |].
    cbn [Py.count] in Hc. pose proof (count_nonneg d stem) as Hnn.
    destruct (Ascii.eqb c d) eqn:Hcd; [lia |].
    cbn [append Py.replace_from Py.startswith].
    rewrite Ascii.eqb_sym, Hcd. cbn [andb].
    f_equal. apply IH; [lia |].
    unfold Py.len in *. simpl in Hf. lia.
Qed.

Lemma len_app :
  forall s t : string, Py.len (s ++ t) = (Py.len s + Py.len t)%nat.
Proof.
  unfold Py.len. induction s as [| c s IH]; intros t; simpl;
    [reflexivity | rewrite IH; reflexivity].
Qed.

(** [(stem + ext).replace(ext, new)] is [stem + new] when the first
    character of [ext] does not occur in [stem]. *)
Lemma replace_suffix :
  forall (d : ascii) (ext new stem : string),
    Py.count d stem = 0 ->
    Py.replace (String d ext) new (stem ++ String d ext) = stem ++ new.
Proof.
  intros d ext new stem H. unfold Py.replace.
  apply replace_from_suffix; [exact H |].
  rewrite len_app. unfold Py.len. simpl. lia.
Qed.

Lemma replace_absent :
  forall old new s : string,
    Py.contains old s = false -> Py.replace old new s = s.
Proof.
  intros old new s H. apply replace_from_absent. exact H.
Qed.

Lemma rust_loop_shared :
  forall (text filename : string) (hash : Z) (cc : string)
         (ms : list Re.match_) (acc out : list FunctionRecord),
    rust_loop text filename hash cc ms acc = Ok out ->
    exists new : list FunctionRecord,
      out = (acc ++ new)%list /\
      Forall (fun r =>
                shared_fields
                  (Py.replace ".rs" ("_rust" ++ Py.str hash) filename) r
                /\ contract_code r = cc) new.
Proof.
  intros text filename hash cc ms.
  induction ms as [| m ms IH]; intros acc out H.
  - injection H as <-. exists []. rewrite app_nil_r. split; [reflexivity | constructor].
  - cbn [rust_loop] in H.
    destruct (LineIndex.next _ _) as [i | e]; [| discriminate H].
    cbn [bind] in H.
    destruct (Braces.scan _ _ _) as [fe |].
    + destruct (group_str _ 1 m) as [head | e]; [| discriminate H].
      cbn [bind] in H.
      destruct (of_option _ _) as [found | e]; [| discriminate H].
      cbn [bind] in H.
      destruct (group_str _ 1 found) as [nm | e]; [| discriminate H].
      cbn [bind] in H.
      apply IH in H. destruct H as [new [-> HP]].
      eexists (_ :: new). rewrite <- app_assoc. split; [reflexivity |].
      constructor; [| exact HP]. unfold shared_fields. cbn. repeat split.
    + apply IH in H. exact H.
Qed.

Lemma cairo_loop_shared :
  forall (text filename : string) (hash : Z)
         (ms : list Re.match_) (acc out : list FunctionRecord),
    cairo_loop text filename hash ms acc = Ok out ->
    exists new : list FunctionRecord,
      out = (acc ++ new)%list /\
      Forall (fun r =>
                shared_fields
                  (Py.replace ".cairo" ("_cairo" ++ Py.str hash) filename) r
                /\ contract_code r = EmptyString) new.
Proof.
  intros text filename hash ms.
  induction ms as [| m ms IH]; intros acc out H.
  - injection H as <-. exists []. rewrite app_nil_r. split; [reflexivity | constructor].
  - cbn [cairo_loop] in H.
    destruct (LineIndex.next _ (Re.m_start m)) as [i | e]; [| discriminate H].
    cbn [bind] in H.
    destruct (Braces.scan _ _ _) as [fe |].
    + destruct (LineIndex.next _ fe) as [j | e]; [| discriminate H].
      cbn [bind] in H.
      destruct (group_str _ 1 m) as [head | e]; [| discriminate H].
      cbn [bind] in H.
      destruct (of_option _ _) as [found | e]; [| discriminate H].
      cbn [bind] in H.
      destruct (group_str _ 1 found) as [nm | e]; [| discriminate H].
      cbn [bind] in H.
      apply IH in H. destruct H as [new [-> HP]].
      eexists (_ :: new). rewrite <- app_assoc. split; [reflexivity |].
      constructor; [| exact HP]. unfold shared_fields. cbn. repeat split.
    + apply IH in H. exact H.
Qed.

Lemma go_loop_shared :
  forall (text filename : string) (hash : Z)
         (ms : list Re.match_) (acc out : list FunctionRecord),
    go_loop text filename hash ms acc = Ok out ->
    exists new : list FunctionRecord,
      out = (acc ++ new)%list /\
      Forall (fun r =>
                shared_fields
                  (Py.replace ".go" ("_go" ++ Py.str hash) filename) r
                /\ contract_code r = text) new.
Proof.
  intros text filename hash ms.
  induction ms as [| m ms IH]; intros acc out H.
  - injection H as <-. exists []. rewrite app_nil_r. split; [reflexivity | constructor].
  - cbn [go_loop] in H.
    destruct (LineIndex.next _ (Re.m_start m)) as [i | e]; [| discriminate H].
    cbn [bind] in H.
    destruct (LineIndex.next _ _) as [j | e]; [| discriminate H].
    cbn [bind] in H.
    apply IH in H. destruct H as [new [-> HP]].
    eexists (_ :: new). rewrite <- app_assoc. split; [reflexivity |].
    constructor; [| exact HP]. unfold shared_fields. cbn. repeat split.
Qed.

Lemma move_loop_shared :
  forall (text filename : string) (hash : Z) (cc : string)
         (ms : list Re.match_) (locals : move_locals)
         (acc out : list FunctionRecord),
    move_loop text filename hash cc ms locals acc = Ok out ->
    exists new : list FunctionRecord,
      out = (acc ++ new)%list /\
      Forall (fun r =>
                shared_fields
                  (Py.replace ".move" ("_move" ++ Py.str hash) filename) r
                /\ contract_code r = cc) new.
Proof.
  intros text filename hash cc ms.
  induction ms as [| m ms IH]; intros locals acc out H.
  - injection H as <-. exists []. rewrite app_nil_r. split; [reflexivity | constructor].
  - cbn [move_loop] in H.
    destruct (LineIndex.next _ _) as [i | e]; [| discriminate H].
    cbn [bind] in H.
    destruct (group_str _ 1 m) as [head | e]; [| discriminate H].
    cbn [bind] in H.
    destruct (move_bind text m (i - 1) head locals) as [locals' | e];
      [| discriminate H].
    cbn [bind] in H.
    destruct (group_str _ 2 m) as [nm | e]; [| discriminate H].
    cbn [bind] in H.
    destruct (read_local "end_line_number" _) as [el | e]; [| discriminate H].
    cbn [bind] in H.
    destruct (read_local "function_body" _) as [fb | e]; [| discriminate H].
    cbn [bind] in H.
    destruct (read_local "function_body_lines" _) as [fl | e]; [| discriminate H].
    cbn [bind] in H.
    apply IH in H. destruct H as [new [-> HP]].
    eexists (_ :: new). rewrite <- app_assoc. split; [reflexivity |].
    constructor; [| exact HP]. unfold shared_fields. cbn. repeat split.
Qed.

Lemma python_loop_shared :
  forall (text filename : string) (hash_value : Z) (ms : list Re.match_)
         (acc out : list FunctionRecord),
    python_loop text filename hash_value ms acc = Ok out ->
    exists new : list FunctionRecord,
      out = (acc ++ new)%list /\
      Forall (fun r =>
                shared_fields
                  (Py.replace ".py" ("_python" ++ Py.str hash_value) filename) r
                /\ contract_code r = Py.strip text) new.
Proof.
  intros text filename hash_value ms.
  induction ms as [| m ms IH]; intros acc out H.
  - injection H as <-. exists []. rewrite app_nil_r. split; [reflexivity | constructor].
  - cbn [python_loop] in H.
    destruct (LineIndex.next _ _) as [i | e]; [| discriminate H].
    cbn [bind] in H.
    destruct (PyList.getitem _ _) as [hl | e]; [| discriminate H].
    cbn [bind] in H.
    destruct (group_str _ 1 m) as [nm | e]; [| discriminate H].
    cbn [bind] in H.
    apply IH in H. destruct H as [new [-> HP]].
    eexists (_ :: new). rewrite <- app_assoc. split; [reflexivity |].
    constructor; [| exact HP]. unfold shared_fields. cbn. repeat split.
Qed.

(** The records of one scan and the fields they share. *)
Lemma scan_shared :
  forall (text filename : string) (hash : Z) (out : list FunctionRecord),
    (find_rust_functions text filename hash = Ok out ->
     Forall (shared_fields (Py.replace ".rs" ("_rust" ++ Py.str hash) filename)) out) /\
    (find_move_functions text filename hash = Ok out ->
     Forall (shared_fields (Py.replace ".move" ("_move" ++ Py.str hash) filename)) out) /\
    (find_go_functions text filename hash = Ok out ->
     Forall (shared_fields (Py.replace ".go" ("_go" ++ Py.str hash) filename)) out) /\
    (find_python_functions text filename hash = Ok out ->
     Forall (shared_fields (Py.replace ".py" ("_python" ++ Py.str hash) filename)) out) /\
    (find_cairo_functions text filename hash = Ok out ->
     Forall (shared_fields (Py.replace ".cairo" ("_cairo" ++ Py.str hash) filename)) out).
Proof.
  intros text filename hash out.
  split; [| split; [| split; [| split]]]; intros H.
  - unfold find_rust_functions in H. apply rust_loop_shared in H.
    destruct H as [new [-> HP]]. eapply Forall_impl; [| exact HP].
    intros r [Hr _]. exact Hr.
  - unfold find_move_functions in H.
    destruct (move_function_bodies _ _) as [bodies | e]; [| discriminate H].
    cbn [bind] in H. apply move_loop_shared in H.
    destruct H as [new [-> HP]]. eapply Forall_impl; [| exact HP].
    intros r [Hr _]. exact Hr.
  - unfold find_go_functions in H. apply go_loop_shared in H.
    destruct H as [new [-> HP]]. eapply Forall_impl; [| exact HP].
    intros r [Hr _]. exact Hr.
  - unfold find_python_functions in H.
    destruct (Re.finditer Pat.python_regex text) as [| m ms];
      cbn [PyList.any_matches] in H.
    + injection H as <-. repeat constructor.
    + apply python_loop_shared in H.
      destruct H as [new [-> HP]]. eapply Forall_impl; [| exact HP].
      intros r [Hr _]. exact Hr.
  - unfold find_cairo_functions in H. apply cairo_loop_shared in H.
    destruct H as [new [-> HP]]. eapply Forall_impl; [| exact HP].
    intros r [Hr _]. exact Hr.
Qed.

(** X15.  For a file name [stem + extension] whose stem holds no dot,
    every record of a scan has the grouping name
    [stem + "_" + tag + str(hash)], the fixed type tag and zero offsets. *)
Theorem contract_name_of_plain_file :
  forall (text stem : string) (hash : Z) (out : list FunctionRecord),
    Py.count "." stem = 0 ->
    (find_rust_functions text (stem ++ ".rs") hash = Ok out ->
     Forall (shared_fields (stem ++ "_rust" ++ Py.str hash)) out) /\
    (find_move_functions text (stem ++ ".move") hash = Ok out ->
     Forall (shared_fields (stem ++ "_move" ++ Py.str hash)) out) /\
    (find_go_functions text (stem ++ ".go") hash = Ok out ->
     Forall (shared_fields (stem ++ "_go" ++ Py.str hash)) out) /\
    (find_python_functions text (stem ++ ".py") hash = Ok out ->
     Forall (shared_fields (stem ++ "_python" ++ Py.str hash)) out) /\
    (find_cairo_functions text (stem ++ ".cairo") hash = Ok out ->
     Forall (shared_fields (stem ++ "_cairo" ++ Py.str hash)) out).
Proof.
  intros text stem hash out Hs.
  split; [| split; [| split; [| split]]]; intros H.
  - apply (proj1 (scan_shared _ _ _ _)) in H.
    rewrite (replace_suffix "." "rs" _ stem Hs) in H. exact H.
  - apply (proj1 (proj2 (scan_shared _ _ _ _))) in H.
    rewrite (replace_suffix "." "move" _ stem Hs) in H. exact H.
  - apply (proj1 (proj2 (proj2 (scan_shared _ _ _ _)))) in H.
    rewrite (replace_suffix "." "go" _ stem Hs) in H. exact H.
  - apply (proj1 (proj2 (proj2 (proj2 (scan_shared _ _ _ _))))) in H.
    rewrite (replace_suffix "." "py" _ stem Hs) in H. exact H.
  - apply (proj2 (proj2 (proj2 (proj2 (scan_shared _ _ _ _))))) in H.
    rewrite (replace_suffix "." "cairo" _ stem Hs) in H. exact H.
Qed.

Lemma contract_name_of_plain_file_witness :
  exists out : list FunctionRecord,
    find_rust_functions rust_one_line ("lib" ++ ".rs") 42 = Ok out /\
    Forall (shared_fields "lib_rust42") out.
Proof.
  eexists. split; [vm_compute; reflexivity |].
  apply (proj1 (contract_name_of_plain_file rust_one_line "lib" 42 _ eq_refl)).
  vm_compute. reflexivity.
Defined.

(** X16.  When the file name does not contain the extension the scanner
    replaces, the grouping name of every record is the file name itself,
    with no tag and no hash. *)
Theorem contract_name_without_extension :
  forall (text filename : string) (hash : Z) (out : list FunctionRecord),
    (Py.contains ".rs" filename = false ->
     find_rust_functions text filename hash = Ok out ->
     Forall (shared_fields filename) out) /\
    (Py.contains ".move" filename = false ->
     find_move_functions text filename hash = Ok out ->
     Forall (shared_fields filename) out) /\
    (Py.contains ".go" filename = false ->
     find_go_functions text filename hash = Ok out ->
     Forall (shared_fields filename) out) /\
    (Py.contains ".py" filename = false ->
     find_python_functions text filename hash = Ok out ->
     Forall (shared_fields filename) out) /\
    (Py.contains ".cairo" filename = false ->
     find_cairo_functions text filename hash = Ok out ->
     Forall (shared_fields filename) out).
Proof.
  intros text filename hash out.
  split; [| split; [| split; [| split]]]; intros Hc H.
  - apply (proj1 (scan_shared _ _ _ _)) in H.
    rewrite (replace_absent _ _ _ Hc) in H. exact H.
  - apply (proj1 (proj2 (scan_shared _ _ _ _))) in H.
    rewrite (replace_absent _ _ _ Hc) in H. exact H.
  - apply (proj1 (proj2 (proj2 (scan_shared _ _ _ _)))) in H.
    rewrite (replace_absent _ _ _ Hc) in H. exact H.
  - apply (proj1 (proj2 (proj2 (proj2 (scan_shared _ _ _ _))))) in H.
    rewrite (replace_absent _ _ _ Hc) in H. exact H.
  - apply (proj2 (proj2 (proj2 (proj2 (scan_shared _ _ _ _))))) in H.
    rewrite (replace_absent _ _ _ Hc) in H. exact H.
Qed.

Lemma contract_name_without_extension_witness :
  exists out : list FunctionRecord,
    find_rust_functions rust_one_line "main.go" 42 = Ok out /\
    Forall (shared_fields "main.go") out.
Proof.
  eexists. split; [vm_compute; reflexivity |].
  apply (proj1 (contract_name_without_extension rust_one_line "main.go" 42 _)).
  - vm_compute. reflexivity.
  - vm_compute. reflexivity.
Defined.

(** X17.  Whenever the Rust scanner returns, the [contract_code] of every
    record is the contents of all the records joined by newlines and
    stripped. *)
Theorem rust_contract_code :
  forall (text filename : string) (hash : Z) (out : list FunctionRecord),
    find_rust_functions text filename hash = Ok out ->
    Forall (fun r => contract_code r
                     = Py.strip (Py.join Py.nl (map content out))) out.
Proof.
  intros text filename hash out H. unfold find_rust_functions in H.
  pose proof (rust_loop_contents _ _ _ _ _ _ _ H) as Hc.
  apply rust_loop_shared in H. destruct H as [new [-> HP]].
  cbn [map app] in *. rewrite Hc.
  eapply Forall_impl; [| exact HP]. intros r [_ Hr]. exact Hr.
Qed.

Lemma rust_contract_code_witness :
  exists out : list FunctionRecord,
    find_rust_functions rust_unclosed_then_closed "a.rs" 0 = Ok out /\
    Forall (fun r => contract_code r
                     = Py.strip (Py.join Py.nl (map content out))) out.
Proof.
  eexists. split; [vm_compute; reflexivity |].
  apply (rust_contract_code rust_unclosed_then_closed "a.rs" 0).
  vm_compute. reflexivity.
Defined.

(** ** What a successful parse returns *)

(** X18.  When [parse] returns, the visitor built a root and the returned
    root holds its AST; the listener reported no error unless the tolerant
    option is on, in which case the error list is in the [errors] field;
    the [tokens] field holds the built token list exactly when tokens were
    asked for; and with [dump_json] the returned root is the one written. *)
Theorem parse_returns :
  forall (ParseTree TokenStream Token Ast World : Type)
         (antlr : string -> ParseTree * TokenStream * SGPErrorListener)
         (visit : SGPVisitorOptions -> ParseTree -> option (option (SourceUnit Token Ast)))
         (build_token_list : TokenStream -> SGPVisitorOptions -> option (list Token))
         (write_ast_json : string -> SourceUnit Token Ast -> World -> option World)
         (input_string : string) (options : SGPVisitorOptions)
         (dump_json : bool) (dump_path : string) (w w' : World)
         (su : SourceUnit Token Ast),
    parse antlr visit build_token_list write_ast_json
          input_string options dump_json dump_path w = Ok (su, w') ->
    exists (root : SourceUnit Token Ast),
      visit options (fst (fst (antlr input_string))) = Some (Some root) /\
      ast su = ast root /\
      (has_errors (snd (antlr input_string)) = true ->
       errors_tolerant options = true /\
       su_errors su = Some (get_errors (snd (antlr input_string)))) /\
      (has_errors (snd (antlr input_string)) = false ->
       su_errors su = su_errors root) /\
      (tokens options = true ->
       exists l : list Token,
         build_token_list (snd (fst (antlr input_string))) options = Some l
         /\ su_tokens su = Some l) /\
      (tokens options = false -> su_tokens su = su_tokens root) /\
      (if dump_json then write_ast_json dump_path su w = Some w' else w' = w).
Proof.
  intros ParseTree TokenStream Token Ast World antlr visit build_token_list
         write_ast_json input_string options dump_json dump_path w w' su H.
  unfold parse in H.
  destruct (antlr input_string) as [[tree token_stream] listener].
  cbn [fst snd].
  destruct (visit options tree) as [[root |] |]; try discriminate H.
  cbn [bind] in H. exists root. split; [reflexivity |].
  destruct (tokens options) eqn:Htok.
  - destruct (build_token_list token_stream options) as [l |] eqn:Hb;
      [| discriminate H].
    cbn [of_option bind] in H.
    parse_success H listener options dump_json;
      repeat split; try discriminate; try congruence; eauto.
  - cbn [bind] in H.
    parse_success H listener options dump_json;
      repeat split; try discriminate; try congruence; eauto.
Qed.

Lemma parse_returns_witness :
  exists root : SourceUnit unit unit,
    visit_root tolerant_options (fst (fst (antlr_one_error "contract C {")))
    = Some (Some root) /\
    ast root_with_error = ast root /\
    su_errors root_with_error = Some [one_error].
Proof.
  destruct (parse_returns unit unit unit unit unit
              antlr_one_error visit_root no_token_list no_file_system
              "contract C {" tolerant_options false "./out" tt tt
              root_with_error eq_refl) as [root [H1 [H2 [H3 _]]]].
  exists root. split; [exact H1 |]. split; [exact H2 |].
  apply H3. reflexivity.
Defined.

(** X19.  When [get_antlr_ast] returns, the file was read, the parse with
    the default options returned a root, that root is what was written
    under [./], and unless the default options are tolerant the listener
    reported no error: a source with a syntax error is never dumped. *)
Theorem get_antlr_ast_writes :
  forall (ParseTree TokenStream Token Ast World : Type)
         (antlr : string -> ParseTree * TokenStream * SGPErrorListener)
         (visit : SGPVisitorOptions -> ParseTree -> option (option (SourceUnit Token Ast)))
         (build_token_list : TokenStream -> SGPVisitorOptions -> option (list Token))
         (write_ast_json : string -> SourceUnit Token Ast -> World -> option World)
         (read_file : string -> result string)
         (default_options : SGPVisitorOptions) (path : string) (w w' : World),
    get_antlr_ast antlr visit build_token_list write_ast_json
                  read_file default_options path w = Ok w' ->
    exists (code : string) (su : SourceUnit Token Ast),
      read_file path = Ok code /\
      parse antlr visit build_token_list write_ast_json
            code default_options true "./" w = Ok (su, w') /\
      write_ast_json "./" su w = Some w' /\
      (errors_tolerant default_options = false ->
       has_errors (snd (antlr code)) = false).
Proof.
  intros ParseTree TokenStream Token Ast World antlr visit build_token_list
         write_ast_json read_file default_options path w w' H.
  unfold get_antlr_ast in H.
  destruct (read_file path) as [code | e]; [| discriminate H].
  cbn [bind] in H.
  destruct (parse _ _ _ _ code default_options true "./" w)
    as [[su w2] | e] eqn:Hp; [| discriminate H].
  cbn [bind snd] in H. injection H as ->.
  exists code, su. split; [reflexivity |]. split; [exact Hp |].
  unfold parse in Hp.
  destruct (antlr code) as [[tree token_stream] listener]. cbn [snd].
  destruct (visit default_options tree) as [[root |] |]; try discriminate Hp.
  cbn [bind] in Hp.
  destruct (tokens default_options).
  - destruct (build_token_list token_stream default_options) as [l |];
      [| discriminate Hp].
    cbn [of_option bind] in Hp.
    parse_success Hp listener default_options true;
      split; try exact Hw; congruence.
  - cbn [bind] in Hp.
    parse_success Hp listener default_options true;
      split; try exact Hw; congruence.
Qed.

Lemma get_antlr_ast_writes_witness :
  exists (code : string) (su : SourceUnit unit unit),
    (fun _ : string => Ok "contract C {") "C.sol" = Ok code /\
    su_errors su = Some [one_error].
Proof.
  destruct (get_antlr_ast_writes unit unit unit unit unit
              antlr_one_error visit_root no_token_list no_file_system
              (fun _ : string => Ok "contract C {") tolerant_options
              "C.sol" tt tt eq_refl) as [code [su [H1 [H2 _]]]].
  exists code, su. split; [exact H1 |].
  cbv beta in H1. injection H1 as <-.
  vm_compute in H2. injection H2 as <-. reflexivity.
Defined.

(** ** From the path to the records *)

Lemma append_assoc :
  forall a b c : string, (a ++ b) ++ c = a ++ (b ++ c).
Proof.
  induction a as [| x a IH]; intros b c; simpl;
    [reflexivity | rewrite IH; reflexivity].
Qed.

Lemma count_contains :
  forall (c : ascii) (s : string),
    Py.count c s = 0 -> Py.contains (String c EmptyString) s = false.
Proof.
  intros c s. induction s as [| d s IH]; intros H.
  - reflexivity.
  - cbn [Py.count] in H. pose proof (count_nonneg c s).
    cbn [Py.contains Py.startswith]. rewrite Ascii.eqb_sym.
    destruct (Ascii.eqb d c); [lia |].
    cbn [andb orb]. apply IH. lia.
Qed.

Lemma basename_plain :
  forall s : string, Py.contains "/" s = false -> basename s = s.
Proof.
  intros s H. destruct s as [| c s]; [reflexivity |].
  cbn [basename]. rewrite H. reflexivity.
Qed.

(** [os.path.basename(dir + "/" + name)] is [name] when [name] holds no
    slash. *)
Lemma basename_join :
  forall dir name : string,
    Py.contains "/" name = false -> basename (dir ++ "/" ++ name) = name.
Proof.
  intros dir name H. induction dir as [| c dir IH].
  - cbn [append basename Py.contains Py.startswith]. 
    rewrite Ascii.eqb_refl. cbn [andb orb]. apply basename_plain. exact H.
  - cbn [append basename].
    match goal with
    | |- (if ?b then _ else _) = _ => assert (Hc : b = true)
    end.
    { apply contains_spec. exists (String c dir), name. reflexivity. }
    rewrite Hc. exact IH.
Qed.

(** X20.  For a readable path [dir/stem.rs] whose stem holds neither dot
    nor slash, [get_antlr_parsing] returns what the Rust scanner returns
    on the file's text under the name [stem.rs] and the hash of the text,
    and every record it returns has the grouping name
    [stem + "_rust" + str(hash(code))]. *)
Theorem rust_path_records :
  forall (SolidityResults : Type)
         (read_file : string -> result string) (py_hash : string -> Z)
         (solidity_results : string -> result SolidityResults)
         (dir stem code : string),
    Py.count "." stem = 0 ->
    Py.count "/" stem = 0 ->
    read_file (dir ++ "/" ++ stem ++ ".rs") = Ok code ->
    get_antlr_parsing SolidityResults read_file py_hash solidity_results
                      (dir ++ "/" ++ stem ++ ".rs")
    = records SolidityResults
              (find_rust_functions code (stem ++ ".rs") (py_hash code)) /\
    forall out : list FunctionRecord,
      get_antlr_parsing SolidityResults read_file py_hash solidity_results
                        (dir ++ "/" ++ stem ++ ".rs")
      = Ok (Records SolidityResults out) ->
      Forall (shared_fields (stem ++ "_rust" ++ Py.str (py_hash code))) out.
Proof.
  intros SolidityResults read_file py_hash solidity_results dir stem code
         Hdot Hslash Hread.
  assert (Hget :
    get_antlr_parsing SolidityResults read_file py_hash solidity_results
                      (dir ++ "/" ++ stem ++ ".rs")
    = records SolidityResults
              (find_rust_functions code (stem ++ ".rs") (py_hash code))).
  { unfold get_antlr_parsing. rewrite Hread. cbn [bind].
    rewrite basename_join.
    - unfold dispatch.
      assert (Hc : Py.contains ".rs" (dir ++ "/" ++ stem ++ ".rs") = true).
      { apply contains_spec. exists (dir ++ "/" ++ stem), EmptyString.
        rewrite !append_assoc. reflexivity. }
      rewrite Hc. reflexivity.
    - apply count_contains. rewrite count_app, Hslash. reflexivity. }
  split; [exact Hget |].
  intros out H. rewrite Hget in H. unfold records in H.
  destruct (find_rust_functions code (stem ++ ".rs") (py_hash code))
    as [fs | e] eqn:Hf; [| discriminate H].
  cbn [bind] in H. injection H as <-.
  apply (proj1 (scan_shared _ _ _ _)) in Hf.
  rewrite (replace_suffix "." "rs" _ stem Hdot) in Hf. exact Hf.
Qed.

Lemma rust_path_records_witness :
  get_antlr_parsing unit (fun _ => Ok rust_one_line) (fun _ => 42)
                    (fun _ => Raise OSError) ("src" ++ "/" ++ "lib" ++ ".rs")
  = records unit (find_rust_functions rust_one_line ("lib" ++ ".rs") 42).
Proof.
  apply (rust_path_records unit (fun _ => Ok rust_one_line) (fun _ => 42)
           (fun _ => Raise OSError) "src" "lib" rust_one_line).
  - reflexivity.
  - reflexivity.
  - reflexivity.
Defined.

(** ** The whole-file record *)

Lemma split_head :
  forall (c : ascii) (stem rest : string),
    Py.count c stem = 0 ->
    hd EmptyString (Py.split c (stem ++ String c rest)) = stem.
Proof.
  intros c stem rest. induction stem as [| d stem IH]; intros H.
  - cbn [append Py.split]. rewrite Ascii.eqb_refl. reflexivity.
  - cbn [Py.count] in H. pose proof (count_nonneg c stem).
    cbn [append Py.split].
    destruct (Ascii.eqb d c); [lia |].
    specialize (IH ltac:(lia)).
    destruct (Py.split c (stem ++ String c rest)) as [| w ws].
    + simpl in IH. subst stem. reflexivity.
    + simpl in IH. subst w. reflexivity.
Qed.

(** X21.  When no header matches, the Python scanner returns exactly one
    record that covers the file: lines 1 to the number of lines of the
    text (its newlines plus one), the stripped text as content, and, for a
    file name [stem.py] without another dot, the name
    ["function" + stem + "all"]. *)
Theorem python_whole_file :
  forall (text stem : string) (hash_value : Z),
    Py.count "." stem = 0 ->
    Re.finditer Pat.python_regex text = [] ->
    exists r : FunctionRecord,
      find_python_functions text (stem ++ ".py") hash_value = Ok [r] /\
      name r = "function" ++ stem ++ "all" /\
      start_line r = 1 /\
      end_line r = Py.count Py.NL text + 1 /\
      node_count r = Py.count Py.NL text + 1 /\
      content r = Py.strip text /\
      contract_code r = Py.strip text /\
      contract_name r = stem ++ "_python" ++ Py.str hash_value.
Proof.
  intros text stem hash_value Hdot Hm.
  exists (whole_file_record text (stem ++ ".py") hash_value).
  unfold find_python_functions. rewrite Hm. cbn [PyList.any_matches].
  split; [reflexivity |].
  unfold whole_file_record.
  cbn [name start_line end_line node_count content contract_code contract_name].
  rewrite (split_head "." stem "py" Hdot), split_count.
  rewrite (replace_suffix "." "py" _ stem Hdot).
  repeat split.
Qed.

Lemma python_whole_file_witness :
  exists r : FunctionRecord,
    find_python_functions "x = 1" ("conf" ++ ".py") 7 = Ok [r] /\
    name r = "function" ++ "conf" ++ "all".
Proof.
  destruct (python_whole_file "x = 1" "conf" 7 eq_refl eq_refl)
    as [r [H1 [H2 _]]].
  exists r. split; [exact H1 | exact H2].
Defined.

(** ** The shape of a content *)

Lemma step_zero :
  forall (c : ascii) (d : Z),
    0 < d -> Braces.step c d = 0 -> c = Pat.c_close.
Proof.
  intros c d Hd H. unfold Braces.step in H.
  destruct (Ascii.eqb c Pat.c_open); [lia |].
  destruct (Ascii.eqb c Pat.c_close) eqn:Hc; [| lia].
  apply Ascii.eqb_eq. exact Hc.
Qed.

Lemma scan_closing_brace :
  forall (s : string) (i : nat) (d : Z) (e : nat),
    0 < d ->
    Braces.scan s i d = Some e ->
    exists body : string, substring 0 (e - i) s = body ++ "}".
Proof.
  induction s as [| c s IH]; intros i d e Hd H; simpl in H.
  - discriminate H.
  - destruct (Braces.step c d =? 0) eqn:Hz.
    + injection H as <-. apply Z.eqb_eq in Hz.
      apply step_zero in Hz; [| exact Hd]. subst c.
      exists EmptyString.
      replace (S i - i)%nat with 1%nat by lia.
      destruct s; reflexivity.
    + apply Z.eqb_neq in Hz.
      pose proof (step_positive c d Hd Hz) as Hd'.
      pose proof (scan_after _ _ _ _ H) as Hlt.
      destruct (IH (S i) _ e Hd' H) as [body Hb].
      exists (String c body).
      replace (e - i)%nat with (S (e - S i)) by lia.
      cbn [substring append]. rewrite Hb. reflexivity.
Qed.

Lemma closed_slice :
  forall (text : string) (m : Re.match_) (e : nat),
    in_text text m ->
    Braces.scan (Py.drop (Re.m_end m) text) (Re.m_end m) 1 = Some e ->
    exists body : string,
      Py.slice (Re.m_start m) e text
      = Py.slice (Re.m_start m) (Re.m_end m) text ++ body ++ "}".
Proof.
  intros text m e [Hse Hel] H.
  pose proof (scan_after _ _ _ _ H) as Hlt.
  apply scan_closing_brace in H; [| lia]. destruct H as [body Hb].
  exists body. rewrite (slice_split (Re.m_start m) (Re.m_end m) e) by lia.
  rewrite Hb. reflexivity.
Qed.

Lemma rust_bodies_shape :
  forall (text : string) (ms : list Re.match_),
    Forall (in_text text) ms ->
    Forall (head_to_brace text ms) (rust_function_bodies text ms).
Proof.
  intros text ms H. induction H as [| m ms Hm Hms IH]; cbn [rust_function_bodies].
  - constructor.
  - assert (Hweak : Forall (head_to_brace text (m :: ms))
                           (rust_function_bodies text ms)).
    { eapply Forall_impl; [| exact IH].
      intros c [m' [body [Hin Hc]]]. exists m', body.
      split; [right; exact Hin | exact Hc]. }
    destruct (Braces.scan _ _ _) as [e |] eqn:Hscan; [| exact Hweak].
    constructor; [| exact Hweak].
    destruct (closed_slice text m e Hm Hscan) as [body Hb].
    exists m, body. split; [left; reflexivity | exact Hb].
Qed.

Lemma cairo_bodies_shape :
  forall (text : string) (ms : list Re.match_),
    Forall (in_text text) ms ->
    Forall (head_to_brace text ms) (cairo_function_bodies text ms).
Proof.
  intros text ms H. induction H as [| m ms Hm Hms IH]; cbn [cairo_function_bodies].
  - constructor.
  - assert (Hweak : Forall (head_to_brace text (m :: ms))
                           (cairo_function_bodies text ms)).
    { eapply Forall_impl; [| exact IH].
      intros c [m' [body [Hin Hc]]]. exists m', body.
      split; [right; exact Hin | exact Hc]. }
    destruct (Braces.scan _ _ _) as [e |] eqn:Hscan; [| exact Hweak].
    constructor; [| exact Hweak].
    destruct (closed_slice text m e Hm Hscan) as [body Hb].
    exists m, body. split; [left; reflexivity | exact Hb].
Qed.

(** X22.  Whenever the Rust or the Cairo scanner returns, the content of
    every record is the text of a matched head, [text[m.start():m.end()]],
    followed by a body whose last character is the closing brace. *)
Theorem content_head_to_brace :
  forall (text filename : string) (hash : Z) (out : list FunctionRecord),
    (find_rust_functions text filename hash = Ok out ->
     Forall (head_to_brace text (Re.finditer Pat.rust_regex text))
            (map content out)) /\
    (find_cairo_functions text filename hash = Ok out ->
     Forall (head_to_brace text (Re.finditer Pat.cairo_regex text))
            (map content out)).
Proof.
  intros text filename hash out. split; intros H.
  - unfold find_rust_functions in H. apply rust_loop_contents in H.
    rewrite H. apply rust_bodies_shape, finditer_spans.
  - unfold find_cairo_functions in H. apply cairo_loop_contents in H.
    rewrite H. apply cairo_bodies_shape, finditer_spans.
Qed.

Lemma content_head_to_brace_witness :
  exists out : list FunctionRecord,
    find_rust_functions rust_one_line "a.rs" 0 = Ok out /\
    Forall (head_to_brace rust_one_line (Re.finditer Pat.rust_regex rust_one_line))
           (map content out).
Proof.
  eexists. split; [vm_compute; reflexivity |].
  apply (proj1 (content_head_to_brace rust_one_line "a.rs" 0 _)).
  vm_compute. reflexivity.
Defined.

(** ** A text that ends with a newline *)

Lemma drop_app :
  forall (off : nat) (t u : string),
    (off <= Py.len t)%nat -> Py.drop off (t ++ u) = Py.drop off t ++ u.
Proof.
  unfold Py.len.
  induction off as [| off IH]; intros t u H.
  - reflexivity.
  - destruct t as [| c t]; simpl in H; [lia |].
    cbn [append Py.drop]. apply IH. lia.
Qed.

Lemma next_before_final_newline :
  forall (t : string) (off : nat),
    (off <= Py.len t)%nat ->
    LineIndex.next (LineIndex.line_starts (Py.split Py.NL (t ++ Py.nl))) off
    = Ok (line_number (t ++ Py.nl) off).
Proof.
  intros t off H. unfold LineIndex.next. rewrite first_after_lines.
  rewrite drop_app by exact H. rewrite count_app.
  pose proof (count_nonneg Py.NL (Py.drop off t)).
  pose proof (count_nonneg Py.NL (substring 0 off (t ++ Py.nl))).
  change (Py.count Py.NL Py.nl) with 1.
  destruct (Py.count Py.NL (Py.drop off t) + 1 =? 0) eqn:Hz; [lia |].
  unfold line_number. f_equal. lia.
Qed.

Lemma scan_before_final_newline :
  forall (s0 : string) (i : nat) (d : Z) (e : nat),
    0 < d ->
    Braces.scan (s0 ++ Py.nl) i d = Some e -> (e <= i + Py.len s0)%nat.
Proof.
  unfold Py.len.
  induction s0 as [| c s0 IH]; intros i d e Hd H.
  - cbn in H. destruct (d =? 0) eqn:Hz; [lia | discriminate H].
  - cbn [append Braces.scan andb] in H. cbn [String.length].
    destruct (Braces.step c d =? 0) eqn:Hz.
    + injection H as <-. lia.
    + apply Z.eqb_neq in Hz.
      apply IH in H; [lia | apply step_positive; assumption].
Qed.

(** A head of the Go pattern starts with a character. *)
Lemma go_match_not_at_end :
  forall (subject : string) (cu : Re.cursor) (m : Re.match_),
    Re.match_at Pat.go_regex subject cu = Some m ->
    Re.rest cu <> EmptyString.
Proof.
  intros subject cu m H Hrest. unfold Re.match_at in H.
  cbn in H. rewrite Hrest in H. discriminate H.
Qed.

Lemma search_from_inside :
  forall (r : Re.regex) (subject : string),
    (forall cu m, Re.match_at r subject cu = Some m -> Re.rest cu <> EmptyString) ->
    forall (s : string) (p : nat) (pv : option ascii) (m : Re.match_),
      Re.search_from r subject p pv s = Some m ->
      (Re.m_start m < p + Py.len s)%nat.
Proof.
  intros r subject Hne. unfold Py.len.
  induction s as [| c s IH]; intros p pv m H; cbn [Re.search_from] in H.
  - destruct (Re.match_at _ _ _) as [m' |] eqn:Hm; [| discriminate H].
    apply Hne in Hm. cbn in Hm. congruence.
  - destruct (Re.match_at _ _ _) as [m' |] eqn:Hm.
    + injection H as <-. apply match_at_span in Hm. cbn in Hm.
      cbn [String.length]. lia.
    + apply IH in H. cbn [String.length]. lia.
Qed.

Lemma finditer_from_inside :
  forall (r : Re.regex) (subject : string),
    (forall cu m, Re.match_at r subject cu = Some m -> Re.rest cu <> EmptyString) ->
    forall (fuel p : nat),
      (p <= Py.len subject)%nat ->
      Forall (fun m => (Re.m_start m < Py.len subject)%nat)
             (Re.finditer_from fuel r subject p).
Proof.
  intros r subject Hne.
  induction fuel as [| fuel IH]; intros p Hp; cbn [Re.finditer_from].
  - constructor.
  - destruct (Re.search_from _ _ _ _ _) as [m |] eqn:Hs; [| constructor].
    apply (search_from_inside r subject Hne) in Hs. rewrite len_drop in Hs.
    constructor; [lia |].
    destruct (Nat.ltb _ _) eqn:Hlt; [constructor |].
    apply Nat.ltb_ge in Hlt. apply IH. exact Hlt.
Qed.

Lemma go_loop_returns :
  forall (t filename : string) (hash : Z) (ms : list Re.match_)
         (acc : list FunctionRecord),
    Forall (fun m => in_text (t ++ Py.nl) m
                     /\ (Re.m_start m < Py.len (t ++ Py.nl))%nat) ms ->
    exists out : list FunctionRecord,
      go_loop (t ++ Py.nl) filename hash ms acc = Ok out.
Proof.
  intros t filename hash ms.
  induction ms as [| m ms IH]; intros acc Hall.
  - exists acc. reflexivity.
  - inversion Hall as [| m' ms' [[Hse Hel] Hlt] Hms]; subst.
    rewrite len_app in Hel, Hlt.
    change (Py.len Py.nl) with 1%nat in Hel, Hlt.
    cbn [go_loop].
    rewrite next_before_final_newline by lia. cbn [bind].
    rewrite scan_go_scan by lia.
    assert (Hend : (match Braces.scan (Py.drop (Re.m_end m) (t ++ Py.nl))
                            (Re.m_end m) 1 with
                    | Some e => e
                    | None => Re.m_start m
                    end <= Py.len t)%nat).
    { destruct (Braces.scan _ _ _) as [e |] eqn:Hscan; [| lia].
      destruct (Nat.leb (Re.m_end m) (Py.len t)) eqn:Hle.
      - apply Nat.leb_le in Hle. rewrite drop_app in Hscan by exact Hle.
        apply scan_before_final_newline in Hscan; [| lia].
        rewrite len_drop in Hscan. lia.
      - apply Nat.leb_gt in Hle.
        assert (Hd : Py.drop (Re.m_end m) (t ++ Py.nl) = EmptyString).
        { replace (Re.m_end m) with (Py.len (t ++ Py.nl))
            by (rewrite len_app; change (Py.len Py.nl) with 1%nat; lia).
          apply drop_whole. }
        rewrite Hd in Hscan. discriminate Hscan. }
    rewrite next_before_final_newline by exact Hend. cbn [bind].
    apply IH. exact Hms.
Qed.

(** X23.  On a text that ends with a newline the Go scanner never raises:
    it returns a list of records. *)
Theorem go_returns_on_final_newline :
  forall (t filename : string) (hash : Z),
    exists out : list FunctionRecord,
      find_go_functions (t ++ Py.nl) filename hash = Ok out.
Proof.
  intros t filename hash. unfold find_go_functions.
  apply go_loop_returns.
  pose proof (proj1 (finditer_spans Pat.go_regex (t ++ Py.nl))) as H1.
  pose proof (finditer_from_inside Pat.go_regex (t ++ Py.nl)
                (go_match_not_at_end (t ++ Py.nl))
                (S (Py.len (t ++ Py.nl))) 0 (Nat.le_0_l _)) as H2.
  fold (Re.finditer Pat.go_regex (t ++ Py.nl)) in H2.
  rewrite Forall_forall in *. intros m Hm. split; [apply H1 | apply H2]; exact Hm.
Qed.

(** ** The groups of the matches *)

(** A relation on cursors that every step of the matcher respects holds
    between the cursor a pattern starts at and the one its continuation is
    entered at. *)
Lemma run_invariant :
  forall R : Re.cursor -> Re.cursor -> Prop,
    (forall cu, R cu cu) ->
    (forall cu1 cu2 cu3, R cu1 cu2 -> R cu2 cu3 -> R cu1 cu3) ->
    (forall cu c s',
       Re.rest cu = String c s' ->
       R cu {| Re.pos := S (Re.pos cu); Re.prev := Some c; Re.rest := s';
               Re.caps := Re.caps cu |}) ->
    (forall n cu0 cu1,
       R cu0 cu1 ->
       R cu0 {| Re.pos := Re.pos cu1; Re.prev := Re.prev cu1;
                Re.rest := Re.rest cu1;
                Re.caps := (n, (Re.pos cu0, Re.pos cu1)) :: Re.caps cu1 |}) ->
    forall (r : Re.regex) (cu : Re.cursor)
           (k : Re.cursor -> option Re.cursor) (out : Re.cursor),
      Re.run r cu k = Some out ->
      exists cu' : Re.cursor, k cu' = Some out /\ R cu cu'.
Proof.
  intros R Hrefl Htrans Hclass Hgroup.
  induction r as [| p | r1 IH1 r2 IH2 | r1 IH1 r2 IH2 | greedy r1 IH1
                 | n r1 IH1 |]; intros cu k out H.
  - exists cu. split; [exact H | apply Hrefl].
  - simpl in H.
    destruct (Re.rest cu) as [| c s'] eqn:Hrest; [discriminate H |].
    destruct (p c); [| discriminate H].
    eexists. split; [exact H |]. apply Hclass. exact Hrest.
  - simpl in H. apply IH1 in H. destruct H as [cu1 [H Ha]].
    apply IH2 in H. destruct H as [cu2 [H Hb]].
    exists cu2. split; [exact H | eapply Htrans; eassumption].
  - simpl in H. destruct (Re.run r1 cu k) as [o |] eqn:H1.
    + injection H as <-. apply IH1 in H1. exact H1.
    + apply IH2 in H. exact H.
  - pose (loop :=
      fix loop (fuel : nat) (cu0 : Re.cursor) {struct fuel} : option Re.cursor :=
        match fuel with
        | O => k cu0
        | S fuel' =>
            if greedy then
              match Re.run r1 cu0 (fun cu1 =>
                      if Nat.eqb (Re.pos cu1) (Re.pos cu0) then None
                      else loop fuel' cu1) with
              | Some o => Some o
              | None => k cu0
              end
            else
              match k cu0 with
              | Some o => Some o
              | None =>
                  Re.run r1 cu0 (fun cu1 =>
                    if Nat.eqb (Re.pos cu1) (Re.pos cu0) then None
                    else loop fuel' cu1)
              end
        end).
    change (loop (S (Py.len (Re.rest cu))) cu = Some out) in H.
    revert H. generalize (S (Py.len (Re.rest cu))). intros fuel. revert cu.
    induction fuel as [| fuel IHf]; intros cu H.
    + exists cu. split; [exact H | apply Hrefl].
    + simpl in H. destruct greedy.
      * match type of H with
        | match ?x with _ => _ end = _ => destruct x as [o |] eqn:H1
        end.
        -- injection H as <-. apply IH1 in H1. destruct H1 as [cu1 [H1 Ha]].
           destruct (Nat.eqb (Re.pos cu1) (Re.pos cu)); [discriminate H1 |].
           apply IHf in H1. destruct H1 as [cu2 [H1 Hb]].
           exists cu2. split; [exact H1 | eapply Htrans; eassumption].
        -- exists cu. split; [exact H | apply Hrefl].
      * destruct (k cu) as [o |] eqn:Hk.
        -- injection H as <-. exists cu. split; [exact Hk | apply Hrefl].
        -- apply IH1 in H. destruct H as [cu1 [H1 Ha]].
           destruct (Nat.eqb (Re.pos cu1) (Re.pos cu)); [discriminate H1 |].
           apply IHf in H1. destruct H1 as [cu2 [H1 Hb]].
           exists cu2. split; [exact H1 | eapply Htrans; eassumption].
  - simpl in H. apply IH1 in H. destruct H as [cu1 [H Ha]].
    eexists. split; [exact H |]. apply Hgroup. exact Ha.
  - simpl in H. destruct (Re.at_boundary cu); [| discriminate H].
    exists cu. split; [exact H | apply Hrefl].
Qed.

Lemma has_group_cons :
  forall (n m : nat) (sp : nat * nat) (cs : list (nat * (nat * nat))),
    Re.span_of n cs <> None -> Re.span_of n ((m, sp) :: cs) <> None.
Proof.
  intros n m sp cs H. cbn [Re.span_of].
  destruct (Nat.eqb m n); [discriminate | exact H].
Qed.

(** The matcher never drops a group that is set. *)
Lemma run_keeps_groups :
  forall (r : Re.regex) (cu : Re.cursor)
         (k : Re.cursor -> option Re.cursor) (out : Re.cursor),
    Re.run r cu k = Some out ->
    exists cu' : Re.cursor,
      k cu' = Some out /\ forall n, has_group n cu -> has_group n cu'.
Proof.
  apply (run_invariant (fun cu cu' => forall n, has_group n cu -> has_group n cu')).
  - intros cu n H. exact H.
  - intros cu1 cu2 cu3 H1 H2 n H. apply H2, H1, H.
  - intros cu c s' _ n H. exact H.
  - intros n cu0 cu1 H m Hm. unfold has_group. cbn [Re.caps].
    apply has_group_cons. apply H. exact Hm.
Qed.

Lemma sets_group : forall (n : nat) (r : Re.regex), sets n (Re.Group n r).
Proof.
  intros n r cu k out H. cbn [Re.run] in H.
  apply run_keeps_groups in H. destruct H as [cu1 [H _]].
  eexists. split; [exact H |].
  unfold has_group. cbn [Re.caps Re.span_of]. rewrite Nat.eqb_refl. discriminate.
Qed.

Lemma sets_inside_group :
  forall (n m : nat) (r : Re.regex), sets n r -> sets n (Re.Group m r).
Proof.
  intros n m r Hr cu k out H. cbn [Re.run] in H.
  apply Hr in H. destruct H as [cu1 [H Hg]].
  eexists. split; [exact H |].
  unfold has_group. cbn [Re.caps]. apply has_group_cons. exact Hg.
Qed.

Lemma sets_seq_left :
  forall (n : nat) (r1 r2 : Re.regex), sets n r1 -> sets n (Re.Seq r1 r2).
Proof.
  intros n r1 r2 Hr cu k out H. cbn [Re.run] in H.
  apply Hr in H. destruct H as [cu1 [H Hg]].
  apply run_keeps_groups in H. destruct H as [cu2 [H Hk]].
  exists cu2. split; [exact H | apply Hk, Hg].
Qed.

Lemma sets_seq_right :
  forall (n : nat) (r1 r2 : Re.regex), sets n r2 -> sets n (Re.Seq r1 r2).
Proof.
  intros n r1 r2 Hr cu k out H. cbn [Re.run] in H.
  apply run_keeps_groups in H. destruct H as [cu1 [H _]].
  apply Hr in H. exact H.
Qed.

Lemma rust_sets_1 : sets 1 Pat.rust_regex.
Proof. apply sets_group. Qed.

Lemma fn_name_sets_1 : sets 1 Pat.fn_name_regex.
Proof.
  unfold Pat.fn_name_regex. cbn [Re.Cat].
  do 3 apply sets_seq_right. apply sets_seq_left, sets_group.
Qed.

Lemma move_sets_1 : sets 1 Pat.move_regex.
Proof. apply sets_group. Qed.

Lemma move_sets_2 : sets 2 Pat.move_regex.
Proof.
  unfold Pat.move_regex. apply sets_inside_group. cbn [Re.Cat].
  do 7 apply sets_seq_right. apply sets_seq_left, sets_group.
Qed.

Lemma python_sets_1 : sets 1 Pat.python_regex.
Proof.
  unfold Pat.python_regex. cbn [Re.Cat].
  do 2 apply sets_seq_right. apply sets_seq_left, sets_group.
Qed.

(** Every match [finditer] yields comes from the matcher started at some
    cursor. *)
Lemma search_from_match_at :
  forall (r : Re.regex) (subject s : string) (p : nat) (pv : option ascii)
         (m : Re.match_),
    Re.search_from r subject p pv s = Some m ->
    exists cu : Re.cursor, Re.match_at r subject cu = Some m.
Proof.
  intros r subject s. induction s as [| c s IH]; intros p pv m H;
    cbn [Re.search_from] in H.
  - destruct (Re.match_at _ _ _) as [m' |] eqn:Hm; [| discriminate H].
    injection H as <-. eexists. exact Hm.
  - destruct (Re.match_at _ _ _) as [m' |] eqn:Hm.
    + injection H as <-. eexists. exact Hm.
    + apply IH in H. exact H.
Qed.

Lemma finditer_match_at :
  forall (r : Re.regex) (subject : string),
    Forall (fun m => exists cu : Re.cursor, Re.match_at r subject cu = Some m)
           (Re.finditer r subject).
Proof.
  intros r subject. unfold Re.finditer.
  generalize (S (Py.len subject)) 0%nat. intros fuel.
  induction fuel as [| fuel IH]; intros p; cbn [Re.finditer_from].
  - constructor.
  - destruct (Re.search_from _ _ _ _ _) as [m |] eqn:Hs; [| constructor].
    apply search_from_match_at in Hs.
    constructor; [exact Hs |].
    destruct (Nat.ltb _ _); [constructor | apply IH].
Qed.

Lemma match_at_group :
  forall (n : nat) (r : Re.regex) (subject : string) (cu : Re.cursor)
         (m : Re.match_),
    sets n r ->
    Re.match_at r subject cu = Some m ->
    exists g : string, Re.group n m = Some g.
Proof.
  intros n r subject cu m Hr H. unfold Re.match_at in H.
  destruct (Re.run r cu _) as [out |] eqn:Hrun; [| discriminate H].
  injection H as <-. apply Hr in Hrun. destruct Hrun as [cu' [Hk Hg]].
  injection Hk as ->. unfold Re.group. cbn [Re.m_caps].
  unfold has_group in Hg.
  destruct (Re.span_of n (Re.caps out)) as [[a b] |]; [| congruence].
  eexists. reflexivity.
Qed.

Lemma finditer_group :
  forall (n : nat) (r : Re.regex) (subject : string),
    sets n r ->
    Forall (fun m => exists g : string, Re.group n m = Some g)
           (Re.finditer r subject).
Proof.
  intros n r subject Hr.
  eapply Forall_impl; [| apply finditer_match_at].
  intros m [cu H]. eapply match_at_group; eassumption.
Qed.

(** ** The matcher against what a pattern consumes *)

(** Soundness of the matcher: the continuation is entered at a cursor the
    pattern can match to. *)
Lemma run_consumes :
  forall (r : Re.regex) (cu : Re.cursor)
         (k : Re.cursor -> option Re.cursor) (out : Re.cursor),
    Re.run r cu k = Some out ->
    exists cu' : Re.cursor, k cu' = Some out /\ consumes r cu cu'.
Proof.
  induction r as [| p | r1 IH1 r2 IH2 | r1 IH1 r2 IH2 | greedy r1 IH1
                 | n r1 IH1 |]; intros cu k out H.
  - exists cu. split; [exact H | constructor].
  - simpl in H.
    destruct (Re.rest cu) as [| c s'] eqn:Hrest; [discriminate H |].
    destruct (p c) eqn:Hp; [| discriminate H].
    eexists. split; [exact H |]. constructor; assumption.
  - simpl in H. apply IH1 in H. destruct H as [cu1 [H Ha]].
    apply IH2 in H. destruct H as [cu2 [H Hb]].
    exists cu2. split; [exact H | econstructor; eassumption].
  - simpl in H. destruct (Re.run r1 cu k) as [o |] eqn:H1.
    + injection H as <-. apply IH1 in H1. destruct H1 as [cu1 [H1 Ha]].
      exists cu1. split; [exact H1 | apply consumes_left; exact Ha].
    + apply IH2 in H. destruct H as [cu2 [H Hb]].
      exists cu2. split; [exact H | apply consumes_right; exact Hb].
  - pose (loop :=
      fix loop (fuel : nat) (cu0 : Re.cursor) {struct fuel} : option Re.cursor :=
        match fuel with
        | O => k cu0
        | S fuel' =>
            if greedy then
              match Re.run r1 cu0 (fun cu1 =>
                      if Nat.eqb (Re.pos cu1) (Re.pos cu0) then None
                      else loop fuel' cu1) with
              | Some o => Some o
              | None => k cu0
              end
            else
              match k cu0 with
              | Some o => Some o
              | None =>
                  Re.run r1 cu0 (fun cu1 =>
                    if Nat.eqb (Re.pos cu1) (Re.pos cu0) then None
                    else loop fuel' cu1)
              end
        end).
    change (loop (S (Py.len (Re.rest cu))) cu = Some out) in H.
    revert H. generalize (S (Py.len (Re.rest cu))). intros fuel. revert cu.
    induction fuel as [| fuel IHf]; intros cu H.
    + exists cu. split; [exact H | apply consumes_stop].
    + simpl in H. destruct greedy.
      * match type of H with
        | match ?x with _ => _ end = _ => destruct x as [o |] eqn:H1
        end.
        -- injection H as <-. apply IH1 in H1. destruct H1 as [cu1 [H1 Ha]].
           destruct (Nat.eqb (Re.pos cu1) (Re.pos cu)); [discriminate H1 |].
           apply IHf in H1. destruct H1 as [cu2 [H1 Hb]].
           exists cu2. split; [exact H1 | eapply consumes_more; eassumption].
        -- exists cu. split; [exact H | apply consumes_stop].
      * destruct (k cu) as [o |] eqn:Hk.
        -- injection H as <-. exists cu. split; [exact Hk | apply consumes_stop].
        -- apply IH1 in H. destruct H as [cu1 [H1 Ha]].
           destruct (Nat.eqb (Re.pos cu1) (Re.pos cu)); [discriminate H1 |].
           apply IHf in H1. destruct H1 as [cu2 [H1 Hb]].
           exists cu2. split; [exact H1 | eapply consumes_more; eassumption].
  - simpl in H. apply IH1 in H. destruct H as [cu1 [H Ha]].
    eexists. split; [exact H |]. constructor. exact Ha.
  - simpl in H. destruct (Re.at_boundary cu) eqn:Hb; [| discriminate H].
    exists cu. split; [exact H | constructor; exact Hb].
Qed.

(** What was consumed is a prefix of the text at the cursor, and the last
    character consumed is the character before the new cursor. *)
Lemma consumes_text :
  forall (r : Re.regex) (cu cu' : Re.cursor),
    consumes r cu cu' ->
    exists X : string,
      Re.rest cu = X ++ Re.rest cu' /\
      Re.pos cu' = (Re.pos cu + Py.len X)%nat /\
      Re.prev cu' = last_char_of (Re.prev cu) X.
Proof.
  intros r cu cu' H.
  induction H as [cu | p cu c s' Hr Hp | r1 r2 cu cu1 cu2 H1 IH1 H2 IH2
                 | r1 r2 cu cu1 H1 IH1 | r1 r2 cu cu2 H2 IH2
                 | g r cu | g r cu cu1 cu2 H1 IH1 H2 IH2
                 | n r cu cu1 H1 IH1 | cu Hb].
  - exists EmptyString. repeat split. unfold Py.len. simpl. lia.
  - exists (String c EmptyString). cbn [Re.rest Re.pos Re.prev].
    repeat split; [exact Hr | unfold Py.len; simpl; lia].
  - destruct IH1 as [X1 [Hr1 [Hp1 Hv1]]]. destruct IH2 as [X2 [Hr2 [Hp2 Hv2]]].
    exists (X1 ++ X2). rewrite Hr1, Hr2, append_assoc, len_app.
    repeat split; [lia |].
    rewrite Hv2, Hv1. clear. revert X2. generalize (Re.prev cu).
    induction X1 as [| c X1 IH]; intros pv X2; simpl; [reflexivity | apply IH].
  - exact IH1.
  - exact IH2.
  - exists EmptyString. repeat split. unfold Py.len. simpl. lia.
  - destruct IH1 as [X1 [Hr1 [Hp1 Hv1]]]. destruct IH2 as [X2 [Hr2 [Hp2 Hv2]]].
    exists (X1 ++ X2). rewrite Hr1, Hr2, append_assoc, len_app.
    repeat split; [lia |].
    rewrite Hv2, Hv1. clear. revert X2. generalize (Re.prev cu).
    induction X1 as [| c X1 IH]; intros pv X2; simpl; [reflexivity | apply IH].
  - exact IH1.
  - exists EmptyString. repeat split. unfold Py.len. simpl. lia.
Qed.

Lemma consumes_at_end :
  forall (r : Re.regex) (cu cu' : Re.cursor),
    consumes r cu cu' -> Re.rest cu = EmptyString ->
    nullable r = true /\ Re.rest cu' = EmptyString.
Proof.
  intros r cu cu' H. induction H; intros Hrest; cbn [nullable Re.rest] in *.
  all: try (split; [reflexivity | assumption]).
  - congruence.
  - destruct (IHconsumes1 Hrest) as [Ha H1].
    destruct (IHconsumes2 H1) as [Hb H2].
    rewrite Ha, Hb. split; [reflexivity | exact H2].
  - destruct (IHconsumes Hrest) as [Ha H1]. rewrite Ha. split; [reflexivity | exact H1].
  - destruct (IHconsumes Hrest) as [Ha H1]. rewrite Ha, orb_true_r.
    split; [reflexivity | exact H1].
  - destruct (IHconsumes1 Hrest) as [Ha H1].
    destruct (IHconsumes2 H1) as [_ H2]. split; [reflexivity | exact H2].
  - apply IHconsumes. exact Hrest.
Qed.

(** A pattern that cannot match the empty text does not match at the end
    of the text. *)
Lemma match_not_at_end :
  forall (r : Re.regex) (subject : string) (cu : Re.cursor) (m : Re.match_),
    nullable r = false ->
    Re.match_at r subject cu = Some m ->
    Re.rest cu <> EmptyString.
Proof.
  intros r subject cu m Hn H Hrest. unfold Re.match_at in H.
  destruct (Re.run r cu _) as [out |] eqn:Hrun; [| discriminate H].
  apply run_consumes in Hrun. destruct Hrun as [cu' [_ Hc]].
  apply consumes_at_end in Hc; [| exact Hrest].
  destruct Hc as [Hc _]. congruence.
Qed.

(** ** Scans that return *)

Lemma python_match_not_at_end :
  forall (subject : string) (cu : Re.cursor) (m : Re.match_),
    Re.match_at Pat.python_regex subject cu = Some m ->
    Re.rest cu <> EmptyString.
Proof.
  intros subject cu m. apply match_not_at_end. reflexivity.
Qed.

Lemma move_match_not_at_end :
  forall (subject : string) (cu : Re.cursor) (m : Re.match_),
    Re.match_at Pat.move_regex subject cu = Some m ->
    Re.rest cu <> EmptyString.
Proof.
  intros subject cu m. apply match_not_at_end. reflexivity.
Qed.

Lemma finditer_usable :
  forall (r : Re.regex) (subject : string),
    (forall cu m, Re.match_at r subject cu = Some m -> Re.rest cu <> EmptyString) ->
    sets 1 r ->
    Forall (usable subject) (Re.finditer r subject).
Proof.
  intros r subject Hne Hs.
  pose proof (proj1 (finditer_spans r subject)) as H1.
  pose proof (finditer_from_inside r subject Hne
                (S (Py.len subject)) 0 (Nat.le_0_l _)) as H2.
  fold (Re.finditer r subject) in H2.
  pose proof (finditer_group 1 r subject Hs) as H3.
  rewrite Forall_forall in *. intros m Hm.
  split; [apply H1 | split; [apply H2 | apply H3]]; exact Hm.
Qed.

Lemma getitem_inside :
  forall (A : Type) (l : list A) (i : Z),
    0 <= i < Z.of_nat (length l) ->
    exists x : A, PyList.getitem l i = Ok x.
Proof.
  intros A l i H. unfold PyList.getitem.
  replace ((0 <=? i) && (i <? Z.of_nat (length l)))%bool with true
    by (symmetry; apply andb_true_intro; split; [apply Z.leb_le | apply Z.ltb_lt]; lia).
  destruct (nth_error l (Z.to_nat i)) as [x |] eqn:Hn.
  - exists x. reflexivity.
  - apply nth_error_None in Hn. lia.
Qed.

Lemma python_loop_returns :
  forall (t filename : string) (hash_value : Z) (ms : list Re.match_)
         (acc : list FunctionRecord),
    Forall (usable (t ++ Py.nl)) ms ->
    exists out : list FunctionRecord,
      python_loop (t ++ Py.nl) filename hash_value ms acc = Ok out.
Proof.
  intros t filename hash_value ms.
  induction ms as [| m ms IH]; intros acc Hall.
  - exists acc. reflexivity.
  - inversion Hall as [| m' ms' [_ [Hlt [g Hg]]] Hms]; subst.
    rewrite len_app in Hlt. change (Py.len Py.nl) with 1%nat in Hlt.
    cbn [python_loop].
    destruct (LineIndex.next _ _) as [i | e] eqn:Hi.
    2:{ rewrite next_before_final_newline in Hi by lia. discriminate Hi. }
    cbn [bind]. apply next_ok in Hi.
    destruct (getitem_inside string (Py.split Py.NL (t ++ Py.nl)) (i - 1))
      as [hl Hhl]; [lia |].
    rewrite Hhl. cbn [bind].
    unfold group_str. rewrite Hg. cbn [of_option bind].
    apply IH. exact Hms.
Qed.

(** X24.  On every text that ends with a newline the Python scanner raises
    nothing: it returns a list of records. *)
Theorem python_returns_on_final_newline :
  forall (t filename : string) (hash_value : Z),
    exists out : list FunctionRecord,
      find_python_functions (t ++ Py.nl) filename hash_value = Ok out.
Proof.
  intros t filename hash_value. unfold find_python_functions.
  pose proof (finditer_usable Pat.python_regex (t ++ Py.nl)
                (python_match_not_at_end (t ++ Py.nl)) python_sets_1) as H.
  destruct (Re.finditer Pat.python_regex (t ++ Py.nl)) as [| m ms];
    cbn [PyList.any_matches].
  - eexists. reflexivity.
  - apply python_loop_returns. inversion H; assumption.
Qed.

(** ** The locals of the Move loop *)

Lemma move_bodies_return :
  forall (text : string) (ms : list Re.match_),
    Forall (fun m => exists g, Re.group 1 m = Some g) ms ->
    exists bodies : list string, move_function_bodies text ms = Ok bodies.
Proof.
  intros text ms H. induction H as [| m ms [g Hg] Hms [bodies IH]].
  - exists []. reflexivity.
  - cbn [move_function_bodies]. unfold group_str. rewrite Hg.
    cbn [of_option bind]. rewrite IH. cbn [bind].
    destruct (is_declaration g); [eexists; reflexivity |].
    destruct (Braces.scan _ _ _); eexists; reflexivity.
Qed.

(** One turn of the Move loop leaves in the locals what it wrote in the
    record, and a head that neither declares nor closes leaves the locals
    as they were. *)
Lemma move_loop_turn :
  forall (text filename : string) (hash : Z) (cc : string) (m : Re.match_)
         (ms : list Re.match_) (locals : move_locals)
         (acc out : list FunctionRecord),
    move_loop text filename hash cc (m :: ms) locals acc = Ok out ->
    exists r : FunctionRecord,
      move_loop text filename hash cc ms (locals_of r) (acc ++ [r]) = Ok out /\
      (declares m = false -> closed text m = false -> locals_of r = locals).
Proof.
  intros text filename hash cc m ms locals acc out H.
  cbn [move_loop] in H.
  destruct (LineIndex.next _ _) as [i | e]; [| discriminate H].
  cbn [bind] in H.
  unfold group_str in H at 1.
  destruct (Re.group 1 m) as [head |] eqn:Hg; [| discriminate H].
  cbn [of_option bind] in H.
  destruct (move_bind text m (i - 1) head locals) as [locals' | e] eqn:Hb;
    [| discriminate H].
  cbn [bind] in H.
  destruct (group_str _ 2 m) as [nm | e]; [| discriminate H].
  cbn [bind] in H.
  destruct locals' as [[fb |] [el |] [fl |]];
    cbn [read_local of_option bind end_line_number function_body
         function_body_lines] in H; try discriminate H.
  match type of H with
  | move_loop _ _ _ _ _ _ (_ ++ [?r])%list = _ => exists r
  end.
  split; [exact H |].
  intros Hd Hc. unfold declares in Hd. rewrite Hg in Hd.
  unfold closed in Hc. unfold move_bind in Hb. rewrite Hd in Hb.
  destruct (Braces.scan _ _ _); [discriminate Hc |].
  injection Hb as ->. reflexivity.
Qed.

Lemma move_loop_repeats :
  forall (text filename : string) (hash : Z) (cc : string)
         (ms : list Re.match_) (r0 : FunctionRecord)
         (acc out : list FunctionRecord) (n : nat) (m : Re.match_),
    move_loop text filename hash cc ms (locals_of r0) (acc ++ [r0]) = Ok out ->
    nth_error ms n = Some m ->
    declares m = false -> closed text m = false ->
    exists r1 r2 : FunctionRecord,
      nth_error out (length acc + n) = Some r1 /\
      nth_error out (length acc + S n) = Some r2 /\
      same_body r1 r2.
Proof.
  intros text filename hash cc ms.
  induction ms as [| m0 ms IH]; intros r0 acc out n m H Hn Hd Hc.
  - destruct n; discriminate Hn.
  - apply move_loop_turn in H. destruct H as [r [H Hr]].
    destruct n as [| n].
    + injection Hn as ->. specialize (Hr Hd Hc).
      apply move_loop_app in H. destruct H as [new [-> _]].
      exists r0, r. split; [| split].
      * rewrite <- !app_assoc, nth_error_app2 by lia.
        replace (length acc + 0 - length acc)%nat with 0%nat by lia.
        reflexivity.
      * rewrite <- !app_assoc, nth_error_app2 by lia.
        replace (length acc + 1 - length acc)%nat with 1%nat by lia.
        reflexivity.
      * unfold locals_of in Hr. injection Hr as H1 H2 H3.
        unfold same_body. auto.
    + destruct (IH r (acc ++ [r0])%list out n m H Hn Hd Hc)
        as [r1 [r2 [H1 [H2 Hs]]]].
      rewrite length_app in H1, H2. cbn [length] in H1, H2.
      exists r1, r2. split; [| split; [| exact Hs]].
      * replace (length acc + S n)%nat with (length acc + 1 + n)%nat by lia.
        exact H1.
      * replace (length acc + S (S n))%nat
          with (length acc + 1 + S n)%nat by lia.
        exact H2.
Qed.

(** X25.  Whenever the Move scanner returns, the record of a head after
    the first that neither ends in a semicolon nor has its braces closed
    repeats the content, the [end_line] and the [node_count] of the record
    before it. *)
Theorem move_unclosed_repeats_previous :
  forall (text filename : string) (hash : Z) (out : list FunctionRecord)
         (n : nat) (m : Re.match_),
    find_move_functions text filename hash = Ok out ->
    nth_error (Re.finditer Pat.move_regex text) (S n) = Some m ->
    declares m = false ->
    closed text m = false ->
    exists r1 r2 : FunctionRecord,
      nth_error out n = Some r1 /\ nth_error out (S n) = Some r2 /\
      same_body r1 r2.
Proof.
  intros text filename hash out n m H Hn Hd Hc.
  unfold find_move_functions in H.
  destruct (move_function_bodies _ _) as [bodies | e]; [| discriminate H].
  cbn [bind] in H.
  destruct (Re.finditer Pat.move_regex text) as [| m0 ms]; [discriminate Hn |].
  cbn [nth_error] in Hn.
  apply move_loop_turn in H. destruct H as [r [H _]].
  exact (move_loop_repeats text filename hash _ ms r [] out n m H Hn Hd Hc).
Qed.

Lemma move_unclosed_repeats_previous_witness :
  exists out : list FunctionRecord,
    find_move_functions move_closed_then_unclosed "a.move" 0 = Ok out /\
    exists r1 r2 : FunctionRecord,
      nth_error out 0 = Some r1 /\ nth_error out 1 = Some r2 /\
      same_body r1 r2.
Proof.
  eexists. split; [vm_compute; reflexivity |].
  eapply (move_unclosed_repeats_previous move_closed_then_unclosed "a.move" 0).
  - vm_compute. reflexivity.
  - vm_compute. reflexivity.
  - vm_compute. reflexivity.
  - vm_compute. reflexivity.
Defined.

Lemma body_end_before_final_newline :
  forall (t : string) (m : Re.match_) (e : nat),
    in_text (t ++ Py.nl) m ->
    Braces.scan (Py.drop (Re.m_end m) (t ++ Py.nl)) (Re.m_end m) 1 = Some e ->
    (e <= Py.len t)%nat.
Proof.
  intros t m e [Hse Hel] Hscan.
  rewrite len_app in Hel. change (Py.len Py.nl) with 1%nat in Hel.
  destruct (Nat.leb (Re.m_end m) (Py.len t)) eqn:Hle.
  - apply Nat.leb_le in Hle. rewrite drop_app in Hscan by exact Hle.
    apply scan_before_final_newline in Hscan; [| lia].
    rewrite len_drop in Hscan. lia.
  - apply Nat.leb_gt in Hle.
    assert (Hd : Py.drop (Re.m_end m) (t ++ Py.nl) = EmptyString).
    { replace (Re.m_end m) with (Py.len (t ++ Py.nl))
        by (rewrite len_app; change (Py.len Py.nl) with 1%nat; lia).
      apply drop_whole. }
    rewrite Hd in Hscan. discriminate Hscan.
Qed.

Lemma move_loop_returns :
  forall (t filename : string) (hash : Z) (cc : string) (ms : list Re.match_)
         (fb : string) (el fl : Z) (acc : list FunctionRecord),
    Forall (fun m => usable (t ++ Py.nl) m
                     /\ exists g, Re.group 2 m = Some g) ms ->
    exists out : list FunctionRecord,
      move_loop (t ++ Py.nl) filename hash cc ms
        {| function_body := Some fb; end_line_number := Some el;
           function_body_lines := Some fl |} acc = Ok out.
Proof.
  intros t filename hash cc ms.
  induction ms as [| m ms IH]; intros fb el fl acc Hall.
  - exists acc. reflexivity.
  - inversion Hall as [| m' ms' [[Hin [Hlt [g1 Hg1]]] [g2 Hg2]] Hms]; subst.
    rewrite len_app in Hlt. change (Py.len Py.nl) with 1%nat in Hlt.
    cbn [move_loop].
    rewrite next_before_final_newline by lia. cbn [bind].
    unfold group_str. rewrite Hg1, Hg2. cbn [of_option bind].
    unfold move_bind.
    destruct (is_declaration g1).
    + cbn [bind read_local of_option end_line_number function_body
           function_body_lines].
      apply IH. exact Hms.
    + destruct (Braces.scan _ _ _) as [e |] eqn:Hscan.
      * apply body_end_before_final_newline in Hscan; [| exact Hin].
        rewrite next_before_final_newline by exact Hscan.
        cbn [bind read_local of_option end_line_number function_body
             function_body_lines].
        apply IH. exact Hms.
      * cbn [bind read_local of_option end_line_number function_body
             function_body_lines].
        apply IH. exact Hms.
Qed.

(** X26.  On a text that ends with a newline the Move scanner returns a
    list of records when no head matches or when the first head ends in a
    semicolon or has its braces closed, and raises [UnboundLocalError] for
    [end_line_number] otherwise; it raises nothing else. *)
Theorem move_outcome_on_final_newline :
  forall (t filename : string) (hash : Z),
    match Re.finditer Pat.move_regex (t ++ Py.nl) with
    | [] => find_move_functions (t ++ Py.nl) filename hash = Ok []
    | m :: _ =>
        if (declares m || closed (t ++ Py.nl) m)%bool
        then exists out : list FunctionRecord,
               find_move_functions (t ++ Py.nl) filename hash = Ok out
        else find_move_functions (t ++ Py.nl) filename hash
             = Raise (UnboundLocalError "end_line_number")
    end.
Proof.
  intros t filename hash. unfold find_move_functions.
  pose proof (finditer_usable Pat.move_regex (t ++ Py.nl)
                (move_match_not_at_end (t ++ Py.nl)) move_sets_1) as H1.
  pose proof (finditer_group 2 Pat.move_regex (t ++ Py.nl) move_sets_2) as H2.
  destruct (move_bodies_return (t ++ Py.nl)
              (Re.finditer Pat.move_regex (t ++ Py.nl))) as [bodies Hb].
  { eapply Forall_impl; [| exact H1]. intros m [_ [_ Hg]]. exact Hg. }
  rewrite Hb. cbn [bind].
  destruct (Re.finditer Pat.move_regex (t ++ Py.nl)) as [| m ms].
  - reflexivity.
  - inversion H1 as [| m' ms' [Hin [Hlt [g1 Hg1]]] Hms1]; subst.
    inversion H2 as [| m' ms' [g2 Hg2] Hms2]; subst.
    assert (Hrest : Forall (fun m0 => usable (t ++ Py.nl) m0
                                      /\ exists g, Re.group 2 m0 = Some g) ms).
    { rewrite Forall_forall in *. intros x Hx. split; auto. }
    rewrite len_app in Hlt. change (Py.len Py.nl) with 1%nat in Hlt.
    unfold declares, closed. rewrite Hg1.
    cbn [move_loop].
    rewrite next_before_final_newline by lia. cbn [bind].
    unfold group_str. rewrite Hg1, Hg2. cbn [of_option bind].
    unfold move_bind.
    destruct (is_declaration g1); cbn [orb].
    + cbn [bind read_local of_option end_line_number function_body
           function_body_lines].
      apply move_loop_returns. exact Hrest.
    + destruct (Braces.scan _ _ _) as [e |] eqn:Hscan.
      * apply body_end_before_final_newline in Hscan; [| exact Hin].
        rewrite next_before_final_newline by exact Hscan.
        cbn [bind read_local of_option end_line_number function_body
             function_body_lines].
        apply move_loop_returns. exact Hrest.
      * reflexivity.
Qed.

(** The loop over one class: if the continuation succeeds after some
    characters of the class, the loop succeeds. *)
Lemma star_class_complete :
  forall (g : bool) (p : ascii -> bool) (k : Re.cursor -> option Re.cursor)
         (cs r' : string) (cu : Re.cursor),
    all_chars p cs = true ->
    Re.rest cu = cs ++ r' ->
    (forall cu' : Re.cursor,
       Re.rest cu' = r' ->
       Re.prev cu' = last_char_of (Re.prev cu) cs ->
       Re.pos cu' = (Re.pos cu + Py.len cs)%nat ->
       Re.caps cu' = Re.caps cu ->
       k cu' <> None) ->
    Re.run (Re.Star g (Re.Class p)) cu k <> None.
Proof.
  intros g p k cs r' cu Hall Hrest Hk.
  pose (loop :=
    fix loop (fuel : nat) (cu0 : Re.cursor) {struct fuel} : option Re.cursor :=
      match fuel with
      | O => k cu0
      | S fuel' =>
          if g then
            match Re.run (Re.Class p) cu0 (fun cu1 =>
                    if Nat.eqb (Re.pos cu1) (Re.pos cu0) then None
                    else loop fuel' cu1) with
            | Some o => Some o
            | None => k cu0
            end
          else
            match k cu0 with
            | Some o => Some o
            | None =>
                Re.run (Re.Class p) cu0 (fun cu1 =>
                  if Nat.eqb (Re.pos cu1) (Re.pos cu0) then None
                  else loop fuel' cu1)
            end
      end).
  change (loop (S (Py.len (Re.rest cu))) cu <> None).
  assert (Hfuel : (Py.len cs < S (Py.len (Re.rest cu)))%nat)
    by (rewrite Hrest, len_app; lia).
  revert Hfuel. generalize (S (Py.len (Re.rest cu))). intros fuel.
  revert cu fuel Hrest Hk.
  induction cs as [| c cs IH]; intros cu fuel Hrest Hk Hfuel.
  - assert (Hcu : k cu <> None).
    { apply Hk; try reflexivity; [exact Hrest |].
      unfold Py.len. simpl. lia. }
    destruct fuel as [| fuel]; [exact Hcu |].
    cbn [loop]. destruct g.
    + destruct (Re.run _ _ _); [discriminate | exact Hcu].
    + destruct (k cu); [discriminate | congruence].
  - destruct fuel as [| fuel]; [unfold Py.len in Hfuel; simpl in Hfuel; lia |].
    cbn [all_chars] in Hall. apply andb_prop in Hall. destruct Hall as [Hc Hall].
    assert (Hnext :
      Re.run (Re.Class p) cu (fun cu1 =>
        if Nat.eqb (Re.pos cu1) (Re.pos cu) then None else loop fuel cu1)
      <> None).
    { cbn [Re.run]. cbn [append] in Hrest. rewrite Hrest, Hc.
      cbn [Re.pos].
      replace (Nat.eqb (S (Re.pos cu)) (Re.pos cu)) with false
        by (symmetry; apply Nat.eqb_neq; lia).
      apply (IH Hall).
      + reflexivity.
      + intros cu' H1 H2 H3 H4. apply Hk; cbn in *; try assumption.
        unfold Py.len in *. simpl. lia.
      + unfold Py.len in *. simpl in Hfuel. lia. }
    cbn [loop]. destruct g.
    + destruct (Re.run _ _ _); [discriminate | congruence].
    + destruct (k cu); [discriminate | exact Hnext].
Qed.

Lemma star_class_text :
  forall (g : bool) (p : ascii -> bool) (cu cu' : Re.cursor),
    consumes (Re.Star g (Re.Class p)) cu cu' ->
    exists X : string,
      all_chars p X = true /\
      Re.rest cu = X ++ Re.rest cu' /\
      Re.pos cu' = (Re.pos cu + Py.len X)%nat /\
      Re.prev cu' = last_char_of (Re.prev cu) X /\
      Re.caps cu' = Re.caps cu.
Proof.
  intros g p cu cu' H.
  remember (Re.Star g (Re.Class p)) as r eqn:Hr.
  induction H; try discriminate Hr.
  - exists EmptyString. unfold Py.len. cbn. repeat split. lia.
  - injection Hr as -> ->.
    destruct (IHconsumes2 eq_refl) as [X [Hall [HX [Hp [Hv Hcaps]]]]].
    clear IHconsumes1 IHconsumes2.
    inversion H as [| q cu0 c s' Hrest Hc | | | | | | |]; subst.
    cbn [Re.rest Re.pos Re.prev Re.caps] in *.
    exists (String c X). repeat split.
    + cbn [all_chars]. rewrite Hc, Hall. reflexivity.
    + rewrite Hrest, HX. reflexivity.
    + rewrite Hp. unfold Py.len. simpl. lia.
    + exact Hv.
    + exact Hcaps.
Qed.

Lemma consumes_chars :
  forall (g : bool) (p : ascii -> bool) (cs r' : string) (cu : Re.cursor),
    all_chars p cs = true ->
    Re.rest cu = cs ++ r' ->
    consumes (Re.Star g (Re.Class p)) cu
      {| Re.pos := Re.pos cu + Py.len cs;
         Re.prev := last_char_of (Re.prev cu) cs;
         Re.rest := r'; Re.caps := Re.caps cu |}.
Proof.
  intros g p cs r'. induction cs as [| c cs IH]; intros cu Hall Hrest.
  - destruct cu as [po pv re ca]. cbn in *. subst re.
    unfold Py.len. cbn. rewrite Nat.add_0_r. apply consumes_stop.
  - cbn [all_chars] in Hall. apply andb_prop in Hall. destruct Hall as [Hc Hall].
    cbn [append] in Hrest.
    eapply consumes_more.
    + eapply consumes_class; eassumption.
    + replace (Re.pos cu + Py.len (String c cs))%nat
        with (S (Re.pos cu) + Py.len cs)%nat
        by (unfold Py.len; simpl; lia).
      apply (IH {| Re.pos := S (Re.pos cu); Re.prev := Some c;
                   Re.rest := cs ++ r'; Re.caps := Re.caps cu |});
        [exact Hall | reflexivity].
Qed.

(** The matcher finds a match wherever the pattern can match and the
    continuation accepts it. *)
Lemma run_complete :
  forall (r : Re.regex) (cu cu' : Re.cursor),
    consumes r cu cu' ->
    class_stars r = true ->
    forall k : Re.cursor -> option Re.cursor,
      k cu' <> None -> Re.run r cu k <> None.
Proof.
  assert (Hstar : forall g r cu cu',
            consumes (Re.Star g r) cu cu' ->
            class_stars (Re.Star g r) = true ->
            forall k, k cu' <> None -> Re.run (Re.Star g r) cu k <> None).
  { intros g r cu cu' H Hcs k Hk.
    destruct r as [| q | | | | |]; try discriminate Hcs.
    apply star_class_text in H.
    destruct H as [X [Hall [HX [Hp [Hv Hcaps]]]]].
    apply (star_class_complete g q k X (Re.rest cu') cu Hall HX).
    intros cu'' H1 H2 H3 H4.
    replace cu'' with cu'; [exact Hk |].
    destruct cu', cu''. cbn in *. congruence. }
  intros r cu cu' H.
  induction H; intros Hcs k Hk.
  - exact Hk.
  - cbn [Re.run]. rewrite H, H0. exact Hk.
  - cbn [class_stars] in Hcs. apply andb_prop in Hcs. destruct Hcs as [Ha Hb].
    cbn [Re.run]. apply IHconsumes1; [exact Ha |].
    apply IHconsumes2; assumption.
  - cbn [class_stars] in Hcs. apply andb_prop in Hcs. destruct Hcs as [Ha Hb].
    cbn [Re.run].
    pose proof (IHconsumes Ha k Hk) as Hr.
    destruct (Re.run r1 cu k); [discriminate | congruence].
  - cbn [class_stars] in Hcs. apply andb_prop in Hcs. destruct Hcs as [Ha Hb].
    cbn [Re.run].
    destruct (Re.run r1 cu k); [discriminate |].
    apply IHconsumes; assumption.
  - apply (Hstar g r cu cu (consumes_stop g r cu) Hcs k Hk).
  - apply (Hstar g r cu cu2 (consumes_more g r cu cu1 cu2 H H0) Hcs k Hk).
  - cbn [class_stars] in Hcs. cbn [Re.run].
    apply IHconsumes; assumption.
  - cbn [Re.run]. rewrite H. exact Hk.
Qed.

Lemma match_at_complete :
  forall (r : Re.regex) (subject : string) (cu cu' : Re.cursor),
    consumes r cu cu' -> class_stars r = true ->
    Re.match_at r subject cu <> None.
Proof.
  intros r subject cu cu' H Hcs. unfold Re.match_at.
  pose proof (run_complete r cu cu' H Hcs (fun out => Some out)) as Hr.
  destruct (Re.run r cu _); [discriminate |].
  exfalso. apply Hr; [discriminate | reflexivity].
Qed.

(** The name pattern matches at ["fn" + spaces + word ...] when the
    character before is no word character. *)
Lemma fn_name_matches :
  forall (subject : string) (p : nat) (pv : option ascii)
         (s : ascii) (sp : string) (w : ascii) (tail : string),
    Re.word_at pv = false ->
    Py.isspace s = true -> all_chars Py.isspace sp = true ->
    Py.isword w = true ->
    Re.match_at Pat.fn_name_regex subject
      {| Re.pos := p; Re.prev := pv;
         Re.rest := "fn" ++ String s sp ++ String w tail; Re.caps := [] |}
    <> None.
Proof.
  intros subject p pv s sp w tail Hpv Hs Hsp Hw.
  assert (H : exists cu', consumes Pat.fn_name_regex
                {| Re.pos := p; Re.prev := pv;
                   Re.rest := "fn" ++ String s sp ++ String w tail;
                   Re.caps := [] |} cu').
  { eexists. unfold Pat.fn_name_regex.
    cbn [Re.Cat Re.Lit Re.Plus append].
    eapply consumes_seq.
    { apply consumes_boundary. unfold Re.at_boundary.
      cbn [Re.prev Re.rest Re.next_char]. rewrite Hpv. reflexivity. }
    eapply consumes_seq.
    { eapply consumes_seq; [eapply consumes_class; reflexivity |].
      eapply consumes_seq; [eapply consumes_class; reflexivity |].
      apply consumes_empty. }
    eapply consumes_seq.
    { eapply consumes_seq; [eapply consumes_class; [reflexivity | exact Hs] |].
      eapply (consumes_chars true _ sp (String w tail));
        [exact Hsp | reflexivity]. }
    eapply consumes_seq; [| apply consumes_empty].
    eapply consumes_group.
    eapply consumes_seq; [eapply consumes_class; [reflexivity | exact Hw] |].
    apply consumes_stop. }
  destruct H as [cu' H].
  eapply match_at_complete; [exact H | reflexivity].
Qed.

Lemma search_from_finds :
  forall (r : Re.regex) (subject s1 s2 : string) (p : nat) (pv : option ascii),
    Re.match_at r subject
      {| Re.pos := p + Py.len s1; Re.prev := last_char_of pv s1;
         Re.rest := s2; Re.caps := [] |} <> None ->
    Re.search_from r subject p pv (s1 ++ s2) <> None.
Proof.
  intros r subject s1 s2. unfold Py.len.
  induction s1 as [| c s1 IH]; intros p pv H.
  - cbn [String.length last_char_of append] in *. rewrite Nat.add_0_r in H.
    destruct s2; cbn [Re.search_from];
      destruct (Re.match_at _ _ _); try discriminate; congruence.
  - cbn [append Re.search_from].
    destruct (Re.match_at r subject
                {| Re.pos := p; Re.prev := pv;
                   Re.rest := String c (s1 ++ s2); Re.caps := [] |});
      [discriminate |].
    apply IH. cbn [String.length last_char_of] in H.
    replace (S p + String.length s1)%nat with (p + S (String.length s1))%nat
      by lia.
    exact H.
Qed.

Lemma space_not_word :
  forall c : ascii, Py.isspace c = true -> Py.isword c = false.
Proof.
  intros [[] [] [] [] [] [] [] []]; vm_compute; intros H;
    first [reflexivity | discriminate H].
Qed.

Lemma plus_class_text :
  forall (p : ascii -> bool) (cu cu' : Re.cursor),
    consumes (Re.Plus (Re.Class p)) cu cu' ->
    exists (c : ascii) (X : string),
      Re.rest cu = String c X ++ Re.rest cu' /\
      Re.pos cu' = (Re.pos cu + Py.len (String c X))%nat /\
      p c = true /\ all_chars p X = true.
Proof.
  intros p cu cu' H. unfold Re.Plus in H.
  inversion H as [| | r1 r2 cu0 cu1 cu2 Hone Hmany | | | | | |]; subst.
  inversion Hone as [| q cu0 c s' Hrest Hc | | | | | | |]; subst.
  apply star_class_text in Hmany.
  destruct Hmany as [X [Hall [HX [Hp _]]]].
  cbn [Re.rest Re.pos] in *.
  exists c, X. repeat split; try assumption.
  - rewrite Hrest, HX. reflexivity.
  - rewrite Hp. unfold Py.len. simpl. lia.
Qed.

Lemma last_char_all :
  forall (p : ascii -> bool) (A : string) (c : ascii) (X : string)
         (pv : option ascii),
    p c = true -> all_chars p X = true ->
    exists c' : ascii,
      last_char_of pv (A ++ String c X) = Some c' /\ p c' = true.
Proof.
  intros p A c X pv Hc Hall. revert pv.
  induction A as [| a A IH]; intros pv.
  - cbn [append last_char_of]. clear pv. revert c Hc.
    induction X as [| x X IHX]; intros c Hc.
    + exists c. split; [reflexivity | exact Hc].
    + cbn [all_chars] in Hall. apply andb_prop in Hall.
      destruct Hall as [Hx Hall]. cbn [last_char_of].
      apply IHX; assumption.
  - cbn [append last_char_of]. apply IH.
Qed.

(** ** The head of a Rust match names a function *)

Lemma drop_next :
  forall (p : nat) (s : string) (c : ascii) (s' : string),
    Py.drop p s = String c s' -> Py.drop (S p) s = s'.
Proof.
  intros p s c s' H. replace (S p) with (p + 1)%nat by lia.
  rewrite <- drop_drop, H. reflexivity.
Qed.

Lemma search_from_cursor :
  forall (r : Re.regex) (subject s : string) (p : nat) (pv : option ascii)
         (m : Re.match_),
    s = Py.drop p subject ->
    Re.search_from r subject p pv s = Some m ->
    exists cu : Re.cursor,
      Re.match_at r subject cu = Some m /\
      Re.rest cu = Py.drop (Re.pos cu) subject /\
      Re.caps cu = [].
Proof.
  intros r subject s. induction s as [| c s IH]; intros p pv m Hs H;
    cbn [Re.search_from] in H.
  - destruct (Re.match_at _ _ _) as [m' |] eqn:Hm; [| discriminate H].
    injection H as <-. eexists.
    split; [exact Hm | split; [exact Hs | reflexivity]].
  - destruct (Re.match_at _ _ _) as [m' |] eqn:Hm.
    + injection H as <-. eexists.
      split; [exact Hm | split; [exact Hs | reflexivity]].
    + apply IH in H; [exact H |].
      symmetry. apply drop_next with c. symmetry. exact Hs.
Qed.

Lemma finditer_cursor :
  forall (r : Re.regex) (subject : string),
    Forall (fun m => exists cu : Re.cursor,
                       Re.match_at r subject cu = Some m /\
                       Re.rest cu = Py.drop (Re.pos cu) subject /\
                       Re.caps cu = [])
           (Re.finditer r subject).
Proof.
  intros r subject. unfold Re.finditer.
  generalize (S (Py.len subject)) 0%nat. intros fuel.
  induction fuel as [| fuel IH]; intros p; cbn [Re.finditer_from].
  - constructor.
  - destruct (Re.search_from _ _ _ _ _) as [m |] eqn:Hs; [| constructor].
    apply search_from_cursor in Hs; [| reflexivity].
    constructor; [exact Hs |].
    destruct (Nat.ltb _ _); [constructor | apply IH].
Qed.

Lemma substring_prefix :
  forall X Y : string, substring 0 (Py.len X) (X ++ Y) = X.
Proof.
  unfold Py.len. induction X as [| c X IH]; intros Y.
  - destruct Y; reflexivity.
  - cbn [String.length append substring]. rewrite IH. reflexivity.
Qed.

Lemma lit_text :
  forall (s : string) (cu cu' : Re.cursor),
    consumes (Re.Lit s) cu cu' ->
    Re.rest cu = s ++ Re.rest cu' /\
    Re.pos cu' = (Re.pos cu + Py.len s)%nat.
Proof.
  unfold Py.len. induction s as [| c s IH]; intros cu cu' H; cbn [Re.Lit] in H.
  - inversion H; subst. cbn. split; [reflexivity | lia].
  - inversion H as [| | r1 r2 cu0 cu1 cu2 Hone Hmore | | | | | |]; subst.
    unfold Re.Chr in Hone.
    inversion Hone as [| q cu0 c0 s' Hrest Hc | | | | | | |]; subst.
    apply Ascii.eqb_eq in Hc. subst c0.
    apply IH in Hmore. cbn [Re.rest Re.pos] in Hmore.
    destruct Hmore as [H1 H2]. cbn [append String.length].
    split; [rewrite Hrest, H1; reflexivity | lia].
Qed.

(** An optional prefix that ends in blanks leaves no word character
    before what follows it. *)
Lemma opt_space_text :
  forall (a b : Re.regex) (cu cu' : Re.cursor),
    consumes (Re.Opt (Re.Seq a (Re.Seq b (Re.Seq (Re.Plus Re.Space) Re.Empty))))
             cu cu' ->
    exists X0 : string,
      Re.rest cu = X0 ++ Re.rest cu' /\
      Re.pos cu' = (Re.pos cu + Py.len X0)%nat /\
      Re.word_at (last_char_of None X0) = false.
Proof.
  intros a b cu cu' H. unfold Re.Opt in H.
  inversion H as [| | | r1 r2 cu0 cu1 Hl | r1 r2 cu0 cu2 Hr | | | |]; subst;
    clear H.
  - inversion Hl as [| | r1 r2 cu0 c1 cu2 Ha H1 | | | | | |]; subst; clear Hl.
    inversion H1 as [| | r1 r2 cu0 c2 cu2 Hb H2 | | | | | |]; subst; clear H1.
    inversion H2 as [| | r1 r2 cu0 c3 cu2 Hp He | | | | | |]; subst; clear H2.
    inversion He; subst; clear He.
    apply consumes_text in Ha. destruct Ha as [Xa [Ha1 [Ha2 _]]].
    apply consumes_text in Hb. destruct Hb as [Xb [Hb1 [Hb2 _]]].
    unfold Re.Space in Hp. apply plus_class_text in Hp.
    destruct Hp as [c [Xc [Hp1 [Hp2 [Hc Hall]]]]].
    exists ((Xa ++ Xb) ++ String c Xc). split; [| split].
    + rewrite Ha1, Hb1, Hp1, !append_assoc. reflexivity.
    + rewrite Hp2, Hb2, Ha2, !len_app. lia.
    + destruct (last_char_all Py.isspace (Xa ++ Xb) c Xc None Hc Hall)
        as [c' [Hl Hc']].
      rewrite Hl. cbn [Re.word_at]. apply space_not_word. exact Hc'.
  - inversion Hr; subst; clear Hr.
    exists EmptyString. unfold Py.len. cbn. repeat split. lia.
Qed.

Lemma append_assoc5 :
  forall a b c d e f : string,
    a ++ b ++ c ++ d ++ e ++ f = (a ++ b ++ c ++ (d ++ e)) ++ f.
Proof. intros. rewrite !append_assoc. reflexivity. Qed.

(** What the Rust head pattern matches reads: an optional prefix that ends
    in a blank, [fn], blanks, a word character, and the rest of the head. *)
Lemma rust_head_shape :
  forall cu cu' : Re.cursor,
    consumes Pat.rust_regex cu cu' ->
    exists (X0 : string) (s : ascii) (sp : string) (w : ascii) (tail : string),
      Re.rest cu
      = (X0 ++ "fn" ++ String s sp ++ String w tail) ++ Re.rest cu' /\
      Re.pos cu'
      = (Re.pos cu + Py.len (X0 ++ "fn" ++ String s sp ++ String w tail))%nat /\
      Re.span_of 1 (Re.caps cu') = Some (Re.pos cu, Re.pos cu') /\
      Re.word_at (last_char_of None X0) = false /\
      Py.isspace s = true /\ all_chars Py.isspace sp = true /\
      Py.isword w = true.
Proof.
  intros cu cu' H. unfold Pat.rust_regex in H. cbn [Re.Cat] in H.
  inversion H as [| | | | | | | n r cu0 cu1 Hbody |]; subst; clear H.
  inversion Hbody as [| | r1 r2 cu0 c1 cu2 Hopt H1 | | | | | |]; subst;
    clear Hbody.
  inversion H1 as [| | r1 r2 cu0 c2 cu2 Hfn H2 | | | | | |]; subst; clear H1.
  inversion H2 as [| | r1 r2 cu0 c3 cu2 Hsp H3 | | | | | |]; subst; clear H2.
  inversion H3 as [| | r1 r2 cu0 c4 cu2 Hw HR | | | | | |]; subst; clear H3.
  apply opt_space_text in Hopt. destruct Hopt as [X0 [Ho1 [Ho2 Ho3]]].
  apply (lit_text "fn") in Hfn. destruct Hfn as [Hf1 Hf2].
  unfold Re.Space in Hsp. apply plus_class_text in Hsp.
  destruct Hsp as [s [sp [Hs1 [Hs2 [Hs Hsp]]]]].
  unfold Re.Word in Hw. apply plus_class_text in Hw.
  destruct Hw as [w [Xw [Hw1 [Hw2 [Hw _]]]]].
  apply consumes_text in HR. destruct HR as [XR [HR1 [HR2 _]]].
  exists X0, s, sp, w, (Xw ++ XR). cbn [Re.rest Re.pos Re.caps Re.span_of].
  repeat split; try assumption.
  - rewrite Ho1, Hf1, Hs1, Hw1, HR1.
    exact (append_assoc5 X0 "fn" (String s sp) (String w Xw) XR (Re.rest cu1)).
  - rewrite HR2, Hw2, Hs2, Hf2, Ho2.
    change (String w (Xw ++ XR)) with (String w Xw ++ XR).
    change ("fn" ++ String s sp ++ String w Xw ++ XR)
      with ("fn" ++ (String s sp ++ (String w Xw ++ XR))).
    rewrite !len_app. lia.
Qed.

Lemma rust_match_named :
  forall (subject : string) (cu : Re.cursor) (m : Re.match_),
    Re.match_at Pat.rust_regex subject cu = Some m ->
    Re.rest cu = Py.drop (Re.pos cu) subject ->
    named m.
Proof.
  intros subject cu m H Hcu. unfold Re.match_at in H.
  destruct (Re.run Pat.rust_regex cu _) as [out |] eqn:Hrun; [| discriminate H].
  injection H as <-.
  apply run_consumes in Hrun. destruct Hrun as [cu' [Hk Hc]].
  injection Hk as ->.
  apply rust_head_shape in Hc.
  destruct Hc as [X0 [s [sp [w [tail [H1 [H2 [H3 [H4 [H5 [H6 H7]]]]]]]]]]].
  assert (Hfound :
    Re.search Pat.fn_name_regex (X0 ++ "fn" ++ String s sp ++ String w tail)
    <> None).
  { unfold Re.search. apply search_from_finds.
    apply fn_name_matches; assumption. }
  destruct (Re.search Pat.fn_name_regex _) as [found |] eqn:Hs;
    [| congruence].
  exists (X0 ++ "fn" ++ String s sp ++ String w tail), found.
  pose proof Hs as Hs'. unfold Re.search in Hs'.
  apply search_from_match_at in Hs'. destruct Hs' as [cu2 Hm].
  destruct (match_at_group 1 _ _ _ _ fn_name_sets_1 Hm) as [g Hg].
  exists g. split; [| split; [exact Hs | exact Hg]].
  unfold Re.group. cbn [Re.m_caps Re.m_string]. rewrite H3.
  f_equal. unfold Py.slice. rewrite H2.
  replace (Re.pos cu + Py.len (X0 ++ "fn" ++ String s sp ++ String w tail)
           - Re.pos cu)%nat
    with (Py.len (X0 ++ "fn" ++ String s sp ++ String w tail)) by lia.
  rewrite substring_drop, <- Hcu, H1. apply substring_prefix.
Qed.

Lemma finditer_named :
  forall subject : string,
    Forall named (Re.finditer Pat.rust_regex subject).
Proof.
  intros subject. eapply Forall_impl; [| apply finditer_cursor].
  intros m [cu [H [Hcu _]]]. eapply rust_match_named; eassumption.
Qed.

Lemma rust_loop_returns :
  forall (t filename : string) (hash : Z) (cc : string) (ms : list Re.match_)
         (acc : list FunctionRecord),
    Forall (fun m => (Re.m_start m < Py.len (t ++ Py.nl))%nat /\ named m) ms ->
    exists out : list FunctionRecord,
      rust_loop (t ++ Py.nl) filename hash cc ms acc = Ok out.
Proof.
  intros t filename hash cc ms.
  induction ms as [| m ms IH]; intros acc Hall.
  - exists acc. reflexivity.
  - inversion Hall as [| m' ms' [Hlt [head [found [g [Hh [Hf Hg]]]]]] Hms]; subst.
    rewrite len_app in Hlt. change (Py.len Py.nl) with 1%nat in Hlt.
    cbn [rust_loop].
    rewrite next_before_final_newline by lia. cbn [bind].
    destruct (Braces.scan _ _ _) as [e |]; [| apply IH; exact Hms].
    unfold group_str. rewrite Hh. cbn [of_option bind].
    rewrite Hf. cbn [of_option bind]. rewrite Hg. cbn [of_option bind].
    apply IH. exact Hms.
Qed.

Lemma cairo_loop_returns :
  forall (t filename : string) (hash : Z) (ms : list Re.match_)
         (acc : list FunctionRecord),
    Forall (fun m => in_text (t ++ Py.nl) m /\
                     (Re.m_start m < Py.len (t ++ Py.nl))%nat /\ named m) ms ->
    exists out : list FunctionRecord,
      cairo_loop (t ++ Py.nl) filename hash ms acc = Ok out.
Proof.
  intros t filename hash ms.
  induction ms as [| m ms IH]; intros acc Hall.
  - exists acc. reflexivity.
  - inversion Hall
      as [| m' ms' [Hin [Hlt [head [found [g [Hh [Hf Hg]]]]]]] Hms]; subst.
    rewrite len_app in Hlt. change (Py.len Py.nl) with 1%nat in Hlt.
    cbn [cairo_loop].
    rewrite next_before_final_newline by lia. cbn [bind].
    destruct (Braces.scan _ _ _) as [e |] eqn:Hscan; [| apply IH; exact Hms].
    apply body_end_before_final_newline in Hscan; [| exact Hin].
    rewrite next_before_final_newline by exact Hscan. cbn [bind].
    unfold group_str. rewrite Hh. cbn [of_option bind].
    rewrite Hf. cbn [of_option bind]. rewrite Hg. cbn [of_option bind].
    apply IH. exact Hms.
Qed.

Lemma rust_match_not_at_end :
  forall (subject : string) (cu : Re.cursor) (m : Re.match_),
    Re.match_at Pat.rust_regex subject cu = Some m ->
    Re.rest cu <> EmptyString.
Proof.
  intros subject cu m. apply match_not_at_end. reflexivity.
Qed.

(** X27.  On a text that ends with a newline the Rust and the Cairo
    scanners return a list of records: every line lookup finds a line, and
    the name pattern finds a name in every matched head. *)
Theorem rust_cairo_return_on_final_newline :
  forall (t filename : string) (hash : Z),
    (exists out : list FunctionRecord,
       find_rust_functions (t ++ Py.nl) filename hash = Ok out) /\
    (exists out : list FunctionRecord,
       find_cairo_functions (t ++ Py.nl) filename hash = Ok out).
Proof.
  intros t filename hash.
  pose proof (finditer_usable Pat.rust_regex (t ++ Py.nl)
                (rust_match_not_at_end (t ++ Py.nl)) rust_sets_1) as H1.
  pose proof (finditer_named (t ++ Py.nl)) as H2.
  split.
  - unfold find_rust_functions. apply rust_loop_returns.
    rewrite Forall_forall in *. intros m Hm.
    destruct (H1 m Hm) as [_ [Hlt _]]. split; [exact Hlt | apply H2; exact Hm].
  - unfold find_cairo_functions, Pat.cairo_regex. apply cairo_loop_returns.
    rewrite Forall_forall in *. intros m Hm.
    destruct (H1 m Hm) as [Hin [Hlt _]].
    split; [exact Hin | split; [exact Hlt | apply H2; exact Hm]].
Qed.

(** ** What the scanners can raise *)

Lemma next_raises :
  forall (ls : list (nat * nat)) (off : nat),
    raises_only [StopIteration] (LineIndex.next ls off).
Proof.
  intros ls off. unfold LineIndex.next.
  destruct (LineIndex.first_after ls off); cbn; auto.
Qed.

Lemma rust_loop_raises :
  forall (text filename : string) (hash : Z) (cc : string)
         (ms : list Re.match_) (acc : list FunctionRecord),
    Forall named ms ->
    raises_only [StopIteration] (rust_loop text filename hash cc ms acc).
Proof.
  intros text filename hash cc ms.
  induction ms as [| m ms IH]; intros acc Hall.
  - exact I.
  - inversion Hall as [| m' ms' [head [found [g [Hh [Hf Hg]]]]] Hms]; subst.
    cbn [rust_loop]. lookup_line next_raises.
    destruct (Braces.scan _ _ _) as [e |]; [| apply IH; exact Hms].
    unfold group_str. rewrite Hh. cbn [of_option bind].
    rewrite Hf. cbn [of_option bind]. rewrite Hg. cbn [of_option bind].
    apply IH. exact Hms.
Qed.

Lemma cairo_loop_raises :
  forall (text filename : string) (hash : Z)
         (ms : list Re.match_) (acc : list FunctionRecord),
    Forall named ms ->
    raises_only [StopIteration] (cairo_loop text filename hash ms acc).
Proof.
  intros text filename hash ms.
  induction ms as [| m ms IH]; intros acc Hall.
  - exact I.
  - inversion Hall as [| m' ms' [head [found [g [Hh [Hf Hg]]]]] Hms]; subst.
    cbn [cairo_loop]. lookup_line next_raises.
    destruct (Braces.scan _ _ _) as [e |]; [| apply IH; exact Hms].
    lookup_line next_raises.
    unfold group_str. rewrite Hh. cbn [of_option bind].
    rewrite Hf. cbn [of_option bind]. rewrite Hg. cbn [of_option bind].
    apply IH. exact Hms.
Qed.

Lemma go_loop_raises :
  forall (text filename : string) (hash : Z)
         (ms : list Re.match_) (acc : list FunctionRecord),
    raises_only [StopIteration] (go_loop text filename hash ms acc).
Proof.
  intros text filename hash ms.
  induction ms as [| m ms IH]; intros acc.
  - exact I.
  - cbn [go_loop]. lookup_line next_raises. lookup_line next_raises. apply IH.
Qed.

Lemma python_loop_raises :
  forall (text filename : string) (hash_value : Z)
         (ms : list Re.match_) (acc : list FunctionRecord),
    Forall (fun m => exists g, Re.group 1 m = Some g) ms ->
    raises_only [StopIteration] (python_loop text filename hash_value ms acc).
Proof.
  intros text filename hash_value ms.
  induction ms as [| m ms IH]; intros acc Hall.
  - exact I.
  - inversion Hall as [| m' ms' [g Hg] Hms]; subst.
    cbn [python_loop]. lookup_line next_raises.
    match goal with H : LineIndex.next _ _ = Ok _ |- _ => apply next_ok in H;
      destruct (getitem_inside string (Py.split Py.NL text) (i - 1))
        as [hl Hhl]; [lia |]
    end.
    rewrite Hhl. cbn [bind].
    unfold group_str. rewrite Hg. cbn [of_option bind].
    apply IH. exact Hms.
Qed.

Lemma move_loop_raises :
  forall (text filename : string) (hash : Z) (cc : string)
         (ms : list Re.match_) (locals : move_locals)
         (acc : list FunctionRecord),
    Forall (fun m => (exists g, Re.group 1 m = Some g)
                     /\ exists g, Re.group 2 m = Some g) ms ->
    bound_together locals ->
    raises_only [StopIteration; UnboundLocalError "end_line_number"]
      (move_loop text filename hash cc ms locals acc).
Proof.
  intros text filename hash cc ms.
  induction ms as [| m ms IH]; intros locals acc Hall Hl.
  - exact I.
  - inversion Hall as [| m' ms' [[g1 Hg1] [g2 Hg2]] Hms]; subst.
    cbn [move_loop].
    destruct (LineIndex.next _ (Re.m_start m)) as [i | e] eqn:Hi.
    2:{ pose proof (next_raises
                      (LineIndex.line_starts (Py.split Py.NL text))
                      (Re.m_start m)) as Hr.
        rewrite Hi in Hr. cbn in *. intuition. }
    cbn [bind]. unfold group_str. rewrite Hg1, Hg2. cbn [of_option bind].
    assert (Hb :
      match move_bind text m (i - 1) g1 locals with
      | Ok locals' => bound_together locals'
      | Raise e => e = StopIteration
      end).
    { unfold move_bind. destruct (is_declaration g1).
      - right. eauto.
      - destruct (Braces.scan _ _ _) as [e |]; [| exact Hl].
        destruct (LineIndex.next _ e) as [j | e'] eqn:Hj; cbn [bind].
        + right. eauto.
        + pose proof (next_raises
                        (LineIndex.line_starts (Py.split Py.NL text)) e) as Hr.
          rewrite Hj in Hr. cbn in Hr. intuition. }
    destruct (move_bind text m (i - 1) g1 locals) as [locals' | e];
      cbn [bind].
    + destruct Hb as [-> | [fb [el [fl ->]]]].
      * cbn. auto.
      * cbn [read_local of_option bind end_line_number function_body
             function_body_lines].
        apply IH; [exact Hms | right; eauto].
    + subst e. cbn. auto.
Qed.

(** X28.  Whatever the text, a scanner returns or raises [StopIteration];
    the Move scanner can also raise [UnboundLocalError] for
    [end_line_number].  No scanner raises [AttributeError], [TypeError] or
    [IndexError]: every group it reads took part in the match, the name
    pattern finds a name in every Rust or Cairo head, and the header line
    of a Python head exists. *)
Theorem scanner_exceptions :
  forall (text filename : string) (hash : Z),
    raises_only [StopIteration] (find_rust_functions text filename hash) /\
    raises_only [StopIteration; UnboundLocalError "end_line_number"]
      (find_move_functions text filename hash) /\
    raises_only [StopIteration] (find_go_functions text filename hash) /\
    raises_only [StopIteration] (find_python_functions text filename hash) /\
    raises_only [StopIteration] (find_cairo_functions text filename hash).
Proof.
  intros text filename hash. repeat split.
  - unfold find_rust_functions. apply rust_loop_raises, finditer_named.
  - unfold find_move_functions.
    pose proof (finditer_group 1 Pat.move_regex text move_sets_1) as H1.
    pose proof (finditer_group 2 Pat.move_regex text move_sets_2) as H2.
    destruct (move_bodies_return text _ H1) as [bodies Hb].
    rewrite Hb. cbn [bind]. apply move_loop_raises.
    + rewrite Forall_forall in *. intros m Hm. split; auto.
    + left. reflexivity.
  - unfold find_go_functions. apply go_loop_raises.
  - unfold find_python_functions.
    pose proof (finditer_group 1 Pat.python_regex text python_sets_1) as H1.
    destruct (Re.finditer Pat.python_regex text) as [| m ms];
      cbn [PyList.any_matches].
    + exact I.
    + apply python_loop_raises. inversion H1; assumption.
  - unfold find_cairo_functions, Pat.cairo_regex.
    apply cairo_loop_raises, finditer_named.
Qed.

(** ** The names of the records *)



















